(** * Extract2MD: the text pipeline and the engine lifecycles of
    [Extract2MDConverter] (src/Extract2MD/src/extract2md.d.ts, the part after
    the type declarations), embedded in Rocq.

    A JavaScript string is its sequence of UTF-16 code units, here [list Z].
    Regular expressions are the flat fragment the source uses: an optional
    [^], a sequence of quantified character classes, an optional [$], with
    capture groups over runs of consecutive atoms, matched by greedy
    backtracking in the order ECMAScript prescribes. *)

From Stdlib Require Import ZArith QArith Qabs List Bool Lia String Ascii.
Import ListNotations.

Local Open Scope Z_scope.

(* ================================================================== *)
(** ** JavaScript strings *)

Module JS.

Abbreviation jsstring := (list Z) (only parsing).

(** An ASCII literal as code units. *)
Definition lit (s : string) : jsstring :=
  map (fun a => Z.of_nat (nat_of_ascii a)) (list_ascii_of_string s).

(** WhiteSpace and LineTerminator of ECMAScript: what [\s] matches and what
    [trim] strips. *)
Definition is_ws (c : Z) : bool :=
  ((9 <=? c) && (c <=? 13)) || (c =? 32) || (c =? 160) || (c =? 5760)
  || ((8192 <=? c) && (c <=? 8202)) || (c =? 8232) || (c =? 8233)
  || (c =? 8239) || (c =? 8287) || (c =? 12288) || (c =? 65279).

Definition is_digit (c : Z) : bool := (48 <=? c) && (c <=? 57).

Definition is_upper (c : Z) : bool := (65 <=? c) && (c <=? 90).

Definition is_lower (c : Z) : bool := (97 <=? c) && (c <=? 122).

(** [\w]: letters, digits and the underscore. *)
Definition is_word (c : Z) : bool :=
  is_upper c || is_lower c || is_digit c || (c =? 95).

Fixpoint trimStart (s : jsstring) : jsstring :=
  match s with
  | c :: s' => if is_ws c then trimStart s' else s
  | [] => []
  end.

Definition trimEnd (s : jsstring) : jsstring := rev (trimStart (rev s)).

Definition trim (s : jsstring) : jsstring := trimEnd (trimStart s).

Fixpoint startsWith (p s : jsstring) : bool :=
  match p, s with
  | [], _ => true
  | x :: p', y :: s' => (x =? y) && startsWith p' s'
  | _ :: _, [] => false
  end.

Definition endsWith (p s : jsstring) : bool := startsWith (rev p) (rev s).

(** [s.indexOf(p)]: the first position where [p] occurs. *)
Fixpoint indexOf (p s : jsstring) : option nat :=
  if startsWith p s then Some 0%nat
  else match s with
       | [] => None
       | _ :: s' => option_map S (indexOf p s')
       end.

(** [a.join(sep)] *)
Fixpoint join (sep : jsstring) (l : list jsstring) : jsstring :=
  match l with
  | [] => []
  | [x] => x
  | x :: l' => x ++ sep ++ join sep l'
  end.

Definition SP : Z := 32.
Definition LF : Z := 10.

End JS.

Import JS.

(* ================================================================== *)
(** ** Regular expressions of the source *)

Module Regex.

(** One member of a character class. *)
Inductive cc : Type :=
| Ch (c : Z)            (* a single code unit *)
| Rg (lo hi : Z)        (* lo-hi *)
| Ws                    (* \s *)
| Dg                    (* \d *)
| NotWord               (* \W *)
| NotWs.                (* \S *)

Definition cc_mem (i : cc) (c : Z) : bool :=
  match i with
  | Ch x => c =? x
  | Rg lo hi => (lo <=? c) && (c <=? hi)
  | Ws => is_ws c
  | Dg => is_digit c
  | NotWord => negb (is_word c)
  | NotWs => negb (is_ws c)
  end.

Definition charclass := list cc.

Definition in_class (cl : charclass) (c : Z) : bool :=
  existsb (fun i => cc_mem i c) cl.

(** A quantified class: [X] is (1, false), [X+] is (1, true), [X*] is
    (0, true), [X{2,}] is (2, true). *)
Record atom : Type := Atom {
  a_cls : charclass;
  a_min : nat;
  a_many : bool
}.

Definition one (cl : charclass) : atom := Atom cl 1 false.
Definition plus (cl : charclass) : atom := Atom cl 1 true.
Definition star (cl : charclass) : atom := Atom cl 0 true.
Definition atleast (n : nat) (cl : charclass) : atom := Atom cl n true.

Record regex : Type := RegExp {
  r_bol : bool;                   (* starts with ^ *)
  r_atoms : list atom;
  r_eol : bool;                   (* ends with $ *)
  r_groups : list (nat * nat);    (* capture groups: first atom, number of atoms *)
  r_global : bool                 (* the g flag *)
}.

Section Matcher.

Context {R : Type}.

(** Greedy repetition: one more character first, the continuation only when
    that fails (ECMAScript RepeatMatcher). Returns the number of characters
    the atom took and the continuation's result. *)
Fixpoint greedy (cl : charclass) (k : jsstring -> option R)
         (min : nat) (s : jsstring) : option (nat * R) :=
  let stop :=
    match min with
    | O => match k s with Some r => Some (O, r) | None => None end
    | S _ => None
    end in
  match s with
  | c :: s' =>
      if in_class cl c then
        match greedy cl k (pred min) s' with
        | Some (n, r) => Some (S n, r)
        | None => stop
        end
      else stop
  | [] => stop
  end.

(** Exactly [n] characters of the class. *)
Fixpoint exactly (cl : charclass) (k : jsstring -> option R)
         (n : nat) (s : jsstring) : option (nat * R) :=
  match n with
  | O => match k s with Some r => Some (O, r) | None => None end
  | S n' =>
      match s with
      | c :: s' =>
          if in_class cl c then
            match exactly cl k n' s' with
            | Some (m, r) => Some (S m, r)
            | None => None
            end
          else None
      | [] => None
      end
  end.

End Matcher.

(** The atoms from the current position; the result lists how many characters
    each atom took. *)
Fixpoint m_atoms (ats : list atom) (eol : bool) : jsstring -> option (list nat) :=
  match ats with
  | [] => fun s =>
      if eol then match s with [] => Some [] | _ :: _ => None end
      else Some []
  | a :: rest => fun s =>
      match (if a_many a then greedy else exactly)
              (a_cls a) (m_atoms rest eol) (a_min a) s with
      | Some (n, ns) => Some ((n :: ns)%list)
      | None => None
      end
  end.

Definition total (ns : list nat) : nat := fold_right Nat.add O ns.

(** A match attempt at one position; [at0] says the position is 0. *)
Definition match_here (r : regex) (at0 : bool) (s : jsstring) : option (list nat) :=
  if r_bol r && negb at0 then None else m_atoms (r_atoms r) (r_eol r) s.

(** [r.test(s)]: some position matches. *)
Fixpoint search (r : regex) (at0 : bool) (s : jsstring) : bool :=
  match match_here r at0 s with
  | Some _ => true
  | None => match s with
            | [] => false
            | _ :: s' => search r false s'
            end
  end.

Definition test (r : regex) (s : jsstring) : bool := search r true s.

(** The captures of a match that starts at [s] and took [ns]. *)
Definition capture (ns : list nat) (s : jsstring) (g : nat * nat) : jsstring :=
  let start := total (firstn (fst g) ns) in
  let len := total (firstn (snd g) (skipn (fst g) ns)) in
  firstn len (skipn start s).

Definition captures (r : regex) (ns : list nat) (s : jsstring) : list jsstring :=
  map (capture ns s) (r_groups r).

Fixpoint digits_value (ds : jsstring) (acc : nat) : nat :=
  match ds with
  | [] => acc
  | d :: ds' => digits_value ds' (10 * acc + Z.to_nat (d - 48))
  end.

(** GetSubstitution (ECMAScript 2023, 22.1.3.19.1) without named groups:
    [$$], [$&], [$`], [$'], [$n] and [$nn]. [skip] is the number of template
    characters the previous reference still covers. *)
Fixpoint subst_go (matched before after : jsstring) (caps : list jsstring)
         (skip : nat) (t : jsstring) : jsstring :=
  match t with
  | [] => []
  | c :: t' =>
      match skip with
      | S k => subst_go matched before after caps k t'
      | O =>
          if negb (c =? 36) then c :: subst_go matched before after caps O t'
          else
            match t' with
            | [] => [c]
            | d :: t'' =>
                if d =? 36 then 36 :: subst_go matched before after caps 1 t'
                else if d =? 96 then before ++ subst_go matched before after caps 1 t'
                else if d =? 38 then matched ++ subst_go matched before after caps 1 t'
                else if d =? 39 then after ++ subst_go matched before after caps 1 t'
                else if is_digit d then
                  let two :=
                    match t'' with
                    | e :: _ => if is_digit e then Some e else None
                    | [] => None
                    end in
                  let m := List.length caps in
                  match two with
                  | Some e =>
                      let i2 := digits_value [d; e] 0 in
                      if ((1 <=? i2) && (i2 <=? m))%nat then
                        nth (i2 - 1) caps [] ++ subst_go matched before after caps 2 t'
                      else
                        let i1 := digits_value [d] 0 in
                        if ((1 <=? i1) && (i1 <=? m))%nat then
                          nth (i1 - 1) caps [] ++ subst_go matched before after caps 1 t'
                        else c :: subst_go matched before after caps O t'
                  | None =>
                      let i1 := digits_value [d] 0 in
                      if ((1 <=? i1) && (i1 <=? m))%nat then
                        nth (i1 - 1) caps [] ++ subst_go matched before after caps 1 t'
                      else c :: subst_go matched before after caps O t'
                  end
                else c :: subst_go matched before after caps O t'
            end
      end
  end.

Definition GetSubstitution (matched before after : jsstring)
           (caps : list jsstring) (template : jsstring) : jsstring :=
  subst_go matched before after caps O template.

(** The replacement for a match of [r] found at [s], [pos] characters into
    [whole]. *)
Definition substitute (r : regex) (template whole : jsstring) (pos : nat)
           (ns : list nat) (s : jsstring) : jsstring :=
  let n := total ns in
  GetSubstitution (firstn n s) (firstn pos whole) (skipn n s)
                  (captures r ns s) template.

(** [s.replace(r, template)] for a global [r]: the matches are found left to
    right, each search resuming where the previous match ended (one further
    after an empty match), and replaced in the original string. [skip] counts
    the characters of the current match still to drop. *)
Fixpoint replace_go (r : regex) (template whole : jsstring) (pos skip : nat)
         (s : jsstring) : jsstring :=
  match skip with
  | S k =>
      match s with
      | [] => []
      | _ :: s' => replace_go r template whole (S pos) k s'
      end
  | O =>
      match match_here r (Nat.eqb pos 0) s with
      | Some ns =>
          substitute r template whole pos ns s ++
          match s with
          | [] => []
          | c :: s' =>
              match total ns with
              | O => c :: replace_go r template whole (S pos) O s'
              | S k => replace_go r template whole (S pos) k s'
              end
          end
      | None =>
          match s with
          | [] => []
          | c :: s' => c :: replace_go r template whole (S pos) O s'
          end
      end
  end.

(** The same for a regular expression without the g flag: the first match
    only. *)
Fixpoint replace_first (r : regex) (template whole : jsstring) (pos : nat)
         (s : jsstring) : jsstring :=
  match match_here r (Nat.eqb pos 0) s with
  | Some ns => substitute r template whole pos ns s ++ skipn (total ns) s
  | None =>
      match s with
      | [] => []
      | c :: s' => c :: replace_first r template whole (S pos) s'
      end
  end.

Definition replace (r : regex) (template s : jsstring) : jsstring :=
  if r_global r then replace_go r template s 0 0 s
  else replace_first r template s 0 s.

(** [s.replace(p, template)] for a string [p]: the first occurrence only. *)
Definition replace_string (p template s : jsstring) : jsstring :=
  match indexOf p s with
  | None => s
  | Some pos =>
      let n := List.length p in
      firstn pos s ++
      GetSubstitution p (firstn pos s) (skipn (pos + n) s) [] template ++
      skipn (pos + n) s
  end.

(** [s.split(r)] (RegExp.prototype[Symbol.split]): the expression is tried
    at every position [q]; a match ending at the start [p] of the current
    piece (an empty match at [q = p]) does not split, any other match closes
    the piece, appends its captures and starts the next piece at its end.
    [cur] is the current piece, reversed, so [q = p] exactly when it is
    empty; [skip] as in [replace_go]. *)
Fixpoint split_go (r : regex) (pos : nat) (cur : jsstring) (skip : nat)
         (s : jsstring) : list jsstring :=
  match s with
  | [] => [rev cur]
  | c :: s' =>
      match skip with
      | S k => split_go r (S pos) cur k s'
      | O =>
          match match_here r (Nat.eqb pos 0) s with
          | Some ns =>
              match total ns, cur with
              | O, [] => split_go r (S pos) [c] O s'
              | O, _ :: _ =>
                  rev cur :: (captures r ns s ++ split_go r (S pos) [c] O s')%list
              | S k, _ =>
                  rev cur :: (captures r ns s ++ split_go r (S pos) [] k s')%list
              end
          | None => split_go r (S pos) (c :: cur) O s'
          end
      end
  end.

Definition split (r : regex) (s : jsstring) : list jsstring :=
  match s with
  | [] => match match_here r true [] with
          | Some _ => []
          | None => [[]]
          end
  | _ :: _ => split_go r 0 [] 0 s
  end.

End Regex.

Import Regex.

(* ================================================================== *)
(** ** The converter: rules and text normalization *)

Module Converter.

(** [PostProcessRule]: [find] is a RegExp or a string, [replace] a string
    (so the source's test [typeof rule.replace === 'string'] holds). *)
Inductive find_t : Type :=
| FindRegExp (r : regex)
| FindString (p : jsstring).

Record PostProcessRule : Type := Rule {
  find : find_t;
  replace : jsstring
}.

(** [/[...]/g] *)
Definition class_g (cl : charclass) : find_t :=
  FindRegExp (RegExp false [one cl] false [] true).

Definition upper : charclass := [Rg 65 90].
Definition lower : charclass := [Rg 97 122].

(** [/[\s\u00A0\u2000-\u200A\u202F\u205F\u3000]+/g] *)
Definition whitespace_run : regex :=
  RegExp false
         [plus [Ws; Ch 0x00A0; Rg 0x2000 0x200A; Ch 0x202F; Ch 0x205F; Ch 0x3000]]
         false [] true.

(** The eleven rules the constructor always installs. *)
Definition builtinRules : list PostProcessRule :=
  [ Rule (class_g [Ch 0xFB00]) (lit "ff");
    Rule (class_g [Ch 0xFB01]) (lit "fi");
    Rule (class_g [Ch 0xFB02]) (lit "fl");
    Rule (class_g [Ch 0xFB03]) (lit "ffi");
    Rule (class_g [Ch 0xFB04]) (lit "ffl");
    Rule (class_g [Ch 0x2018; Ch 0x2019]) (lit "'");
    Rule (class_g [Ch 0x201C; Ch 0x201D]) [34];
    Rule (class_g [Ch 0x2022; Ch 0x2023; Ch 0x25E6; Ch 0x2043; Ch 0x2219;
                   Ch 0x25CF; Ch 0x25CB; Ch 0x2981; Ch 0x2619; Ch 0x2765])
         (lit "-");
    Rule (class_g [Ch 0x2013; Ch 0x2014]) (lit "-");
    Rule (class_g [Ch 0x00AD]) [];
    Rule (FindRegExp whitespace_run) (lit " ") ].

(** [/([A-Z][a-z]+)([A-Z][a-z]+)/g] *)
Definition pascal_words : regex :=
  RegExp false [one upper; plus lower; one upper; plus lower] false
         [(0, 2); (2, 2)]%nat true.

(** [/([a-z])([A-Z][a-z]+)/g] *)
Definition camel_hump : regex :=
  RegExp false [one lower; one upper; plus lower] false
         [(0, 1); (1, 2)]%nat true.

(** The three rules pushed when [splitPascalCase] is set. *)
Definition splitRules : list PostProcessRule :=
  [ Rule (FindRegExp pascal_words) (lit "$1 $2");
    Rule (FindRegExp camel_hump) (lit "$1 $2");
    Rule (FindRegExp pascal_words) (lit "$1 $2") ].

Definition DEFAULT_LLM_MODEL : string := "Qwen3-0.6B-q4f16_1-MLC".
Definition DEFAULT_LLM_MODEL_LIB_URL : string :=
  "https://raw.githubusercontent.com/mlc-ai/binary-mlc-llm-libs/main/web-llm-models/v0_2_48/Qwen3-0.6B-q4f16_1-ctx4k_cs1k-webgpu.wasm".

(** The text-processing fields of an instance; the engine fields follow in
    [Engines]. *)
Record TextConfig : Type := {
  splitPascalCase : bool;
  defaultPostProcessRules : list PostProcessRule;
  customPostProcessRules : list PostProcessRule
}.

(** The constructor's part for these fields: [options.splitPascalCase ||
    false], the built-in rules, the split rules pushed after them when the
    flag is set, and [options.postProcessRules || []]. *)
Definition construct_text (opt_splitPascalCase : option bool)
           (opt_postProcessRules : option (list PostProcessRule)) : TextConfig :=
  let split := match opt_splitPascalCase with Some b => b | None => false end in
  {| splitPascalCase := split;
     defaultPostProcessRules :=
       if split then builtinRules ++ splitRules else builtinRules;
     customPostProcessRules :=
       match opt_postProcessRules with Some rs => rs | None => [] end |}.

(** [rule.find] is truthy: always for a RegExp, for a string when it is not
    empty. *)
Definition find_truthy (f : find_t) : bool :=
  match f with
  | FindRegExp _ => true
  | FindString [] => false
  | FindString (_ :: _) => true
  end.

(** One turn of the loop of [_postProcessText]. *)
Definition apply_rule (cleanedText : jsstring) (rule : PostProcessRule) : jsstring :=
  if find_truthy (find rule) then
    match find rule with
    | FindRegExp r => Regex.replace r (replace rule) cleanedText
    | FindString p => Regex.replace_string p (replace rule) cleanedText
    end
  else cleanedText.

Definition run_rules (rules : list PostProcessRule) (text : jsstring) : jsstring :=
  fold_left apply_rule rules text.

Definition _postProcessText (this : TextConfig) (text : jsstring)
           (additionalRules : list PostProcessRule) : jsstring :=
  match text with
  | [] => []
  | _ :: _ =>
      let rules := defaultPostProcessRules this ++
                   customPostProcessRules this ++ additionalRules in
      trim (run_rules rules text)
  end.

End Converter.

Import Converter.

(* ================================================================== *)
(** ** The structural reconstruction: [_convertToMarkdownLogic] *)

Module Markdown.

(** The blocks of the specification's data model. The source only pushes
    lines; the loop below records, at each place where it pushes the lines of
    a block, the block as well (a ghost field the lines do not depend on). *)
Inductive MarkdownBlock : Type :=
| Heading (text : jsstring)
| Paragraph (text : jsstring)
| FencedBlock (lines : list jsstring).

Record state : Type := State {
  markdownOutputLines : list jsstring;
  currentParagraphCollector : list jsstring;
  inPotentialTableBlock : bool;
  potentialTableBlockLines : list jsstring;
  blocks : list MarkdownBlock
}.

Definition initial : state := State [] [] false [] [].

Definition fence : jsstring := lit "```".

Definition is_empty {A : Type} (s : list A) : bool :=
  match s with [] => true | _ :: _ => false end.

Definition flushCurrentParagraph (st : state) : state :=
  match currentParagraphCollector st with
  | [] => st
  | _ :: _ =>
      let text := trim (join [SP] (currentParagraphCollector st)) in
      State (markdownOutputLines st ++ [text; []])
            []
            (inPotentialTableBlock st)
            (potentialTableBlockLines st)
            (blocks st ++ [Paragraph text])
  end.

Definition flushPotentialTableBlock (st : state) : state :=
  match potentialTableBlockLines st with
  | [] =>
      State (markdownOutputLines st) (currentParagraphCollector st) false
            (potentialTableBlockLines st) (blocks st)
  | _ :: _ =>
      let ls := potentialTableBlockLines st in
      if (2 <=? List.length ls)%nat then
        State (markdownOutputLines st ++ [fence] ++ map trimEnd ls ++ [fence] ++ [[]])
              (currentParagraphCollector st) false []
              (blocks st ++ [FencedBlock (map trimEnd ls)])
      else
        State (markdownOutputLines st ++ [trim (join [SP] ls)] ++ [[]])
              (currentParagraphCollector st) false []
              (blocks st ++ [Paragraph (trim (join [SP] ls))])
  end.

(** [if (inPotentialTableBlock) flushPotentialTableBlock();] *)
Definition flushTableIfIn (st : state) : state :=
  if inPotentialTableBlock st then flushPotentialTableBlock st else st.

(** [/[.,;:!?]$/] *)
Definition punctuation_end : regex :=
  RegExp false [one [Ch 46; Ch 44; Ch 59; Ch 58; Ch 33; Ch 63]] true [] false.

(** [/^[A-Z\s\d\W]*[A-Z][A-Z\s\d\W]*$/] *)
Definition caps_line : regex :=
  RegExp true [star [Rg 65 90; Ws; Dg; NotWord]; one [Rg 65 90];
               star [Rg 65 90; Ws; Dg; NotWord]] true [] false.

(** [/[A-Z]/] *)
Definition some_upper : regex := RegExp false [one [Rg 65 90]] false [] false.

(** [/^\d+$/] *)
Definition only_digits : regex := RegExp true [plus [Dg]] true [] false.

(** [/\S\s{2,}\S/] *)
Definition spaced_words : regex :=
  RegExp false [one [NotWs]; atleast 2 [Ws]; one [NotWs]] false [] false.

(** [/\s{2,}/] *)
Definition wide_gap : regex := RegExp false [atleast 2 [Ws]] false [] false.

(** [/\n/] *)
Definition newline : regex := RegExp false [one [Ch 10]] false [] false.

(** [/\n{3,}/g] *)
Definition blank_lines : regex := RegExp false [atleast 3 [Ch 10]] false [] true.

Definition isShortLine (trimmedLine : jsstring) : bool :=
  ((0 <? List.length trimmedLine) && (List.length trimmedLine <? 80))%nat.

Definition noPunctuationEnd (trimmedLine : jsstring) : bool :=
  isShortLine trimmedLine && negb (test punctuation_end trimmedLine).

Definition isAllCapsLine (trimmedLine : jsstring) : bool :=
  ((2 <? List.length trimmedLine) && (List.length trimmedLine <? 80))%nat
  && test caps_line trimmedLine && test some_upper trimmedLine
  && negb (test only_digits trimmedLine).

(** [i + 1 === inputLines.length || inputLines[i + 1].trim() === ''], on the
    lines after line [i]. *)
Definition nextLineIsBlankOrEndOfFile (rest : list jsstring) : bool :=
  match rest with
  | [] => true
  | next :: _ => is_empty (trim next)
  end.

(** The condition of the heading branch. *)
Definition isHeading (trimmedLine : jsstring) (rest : list jsstring) : bool :=
  isAllCapsLine trimmedLine
  || (isShortLine trimmedLine && noPunctuationEnd trimmedLine
      && nextLineIsBlankOrEndOfFile rest
      && (1 <? List.length trimmedLine)%nat).

Definition hasMultipleSpacesBetweenWords (originalLine : jsstring) : bool :=
  test spaced_words originalLine.

Definition hasMultipleColumnsBySpaces (originalLine : jsstring) : bool :=
  ((2 <? List.length (Regex.split wide_gap originalLine))
   && (10 <? List.length originalLine))%nat.

Definition isTabular (originalLine : jsstring) : bool :=
  hasMultipleSpacesBetweenWords originalLine
  || hasMultipleColumnsBySpaces originalLine.

Definition pushHeading (trimmedLine : jsstring) (st : state) : state :=
  State (markdownOutputLines st ++ [lit "# " ++ trimmedLine; []])
        (currentParagraphCollector st)
        (inPotentialTableBlock st)
        (potentialTableBlockLines st)
        (blocks st ++ [Heading trimmedLine]).

Definition pushTableLine (originalLine : jsstring) (st : state) : state :=
  State (markdownOutputLines st) (currentParagraphCollector st) true
        (potentialTableBlockLines st ++ [originalLine]) (blocks st).

(** [if (trimmedLine) currentParagraphCollector.push(trimmedLine);] *)
Definition pushParagraphLine (trimmedLine : jsstring) (st : state) : state :=
  if is_empty trimmedLine then st
  else State (markdownOutputLines st)
             (currentParagraphCollector st ++ [trimmedLine])
             (inPotentialTableBlock st) (potentialTableBlockLines st) (blocks st).

(** The [for] loop, on the lines from index [i] on. The extra [i++] of the
    heading branch needs [inputLines[i+1]] truthy, that is present and not
    the empty string, and blank after trimming. *)
Fixpoint loop (st : state) (inputLines : list jsstring) : state :=
  match inputLines with
  | [] => st
  | originalLine :: rest =>
      let trimmedLine := trim originalLine in
      if is_empty trimmedLine then
        loop (flushCurrentParagraph (flushTableIfIn st)) rest
      else if isHeading trimmedLine rest then
        let st' := pushHeading trimmedLine
                     (flushCurrentParagraph (flushTableIfIn st)) in
        match rest with
        | next :: rest' =>
            if nextLineIsBlankOrEndOfFile rest && negb (is_empty next)
               && is_empty (trim next)
            then loop st' rest'
            else loop st' rest
        | [] => loop st' rest
        end
      else if isTabular originalLine then
        loop (pushTableLine originalLine (flushCurrentParagraph st)) rest
      else
        loop (pushParagraphLine trimmedLine (flushTableIfIn st)) rest
  end.

(** The state when the function reaches its last three statements. *)
Definition run (rawText : jsstring) : state :=
  flushCurrentParagraph
    (flushTableIfIn (loop initial (Regex.split newline rawText))).

Definition serialize (outputLines : list jsstring) : jsstring :=
  trim (Regex.replace blank_lines [LF; LF] (join [LF] (map trimEnd outputLines))).

Definition _convertToMarkdownLogic (rawText : jsstring) : jsstring :=
  serialize (markdownOutputLines (run rawText)).

(** The blocks recorded along the way. *)
Definition reconstruct (rawText : jsstring) : list MarkdownBlock :=
  blocks (run rawText).

(** The lines the source pushes for a block. *)
Definition block_lines (b : MarkdownBlock) : list jsstring :=
  match b with
  | Heading t => [lit "# " ++ t; []]
  | Paragraph t => [t; []]
  | FencedBlock ls => [fence] ++ ls ++ [fence] ++ [[]]
  end.

End Markdown.

Import Markdown.

(* ================================================================== *)
(** ** The external engines and the orchestration *)

Module Engines.

Local Open Scope string_scope.
Local Open Scope list_scope.

(** What an awaited call of an external engine does: it resolves, or it
    rejects with an error whose [message] is kept. *)
Inductive outcome (A : Type) : Type :=
| Returns (a : A)
| Throws (message : string).

Arguments Returns {A} a.
Arguments Throws {A} message.

(** [ProgressReport] without its display [message] (derived from the same
    data) and without the numeric [progress] (passed through unchanged). *)
Record ProgressReport : Type := Report {
  stage : string;
  currentPage : option nat;
  totalPages : option nat;
  error : option string
}.

Definition at_stage (s : string) : ProgressReport := Report s None None None.

Definition at_page (s : string) (pageNum numPages : nat) : ProgressReport :=
  Report s (Some pageNum) (Some numPages) None.

(** A report with [error: err]; [message] is [err.message]. *)
Definition failed (s : string) (message : string) : ProgressReport :=
  Report s None None (Some message).

(** Everything observable from outside the instance, in the order it
    happens: the progress reports and the calls into pdf.js, Tesseract and
    WebLLM. *)
Inductive event : Type :=
| Progress (r : ProgressReport)
| FileArrayBuffer
| PdfGetDocument
| PdfGetPage (pageNum : nat)
| PdfGetTextContent (pageNum : nat)
| PdfRender (pageNum : nat) (scale : Q)
| TessCreateWorker (lang : string)
| TessRecognize (pageNum : nat)
| TessTerminate
| LlmCreateMLCEngine (modelId model_lib : string) (shader_f16 : bool)
| LlmNewChat
| LlmReload (modelId : string)
| LlmUnload
| LlmCompletionsCreate (model : string) (prompt : jsstring)
| LlmGenerate (prompt : jsstring).

(** A text item of pdf.js: [str], [hasEOL], [transform[4]], [transform[5]],
    [width], [height]; the numbers as rationals. The two numeric tests of
    the item loop are thus computed exactly where the source computes them
    in doubles: they can differ from it where rounding decides the
    comparison. *)
Record text_item : Type := Item {
  str : jsstring;
  hasEOL : bool;
  transform4 : Q;
  transform5 : Q;
  width : Q;
  height : Q
}.

Record pdf_page : Type := Page {
  getPage : outcome unit;                          (* pdfDoc.getPage(n) *)
  getTextContent : outcome (option (list text_item)); (* its [items], if any *)
  render : outcome unit;                           (* page.render(...).promise *)
  recognize : outcome jsstring                     (* worker.recognize(canvas) *)
}.

Record File : Type := MkFile {
  arrayBuffer : outcome (list Z)
}.

(** What a caller can pass as [pdfFile]. *)
Inductive jsvalue : Type :=
| JUndefined
| JNull
| JBoolean (b : bool)
| JNumber (n : Z)
| JString (s : jsstring)
| JObject (fields : list (string * jsstring))
| JFile (f : File).

(** [chatModule.chat]: absent, present without [completions] (reading
    [completions.create] then throws), or present with [completions], whose
    [create] is a function or not. *)
Inductive chat_shape : Type :=
| NoChat
| ChatWithoutCompletions
| ChatCompletions (create_is_function : bool).

(** A WebLLM engine object as the source inspects it. *)
Record engine : Type := Engine {
  modelId : option string;
  config_model_id : option string;
  unload_is_function : bool;
  reload_is_function : bool;
  generate_is_function : bool;
  chat : chat_shape
}.

(** The libraries as loaded in the page, and how they answer. *)
Record host : Type := Host {
  pdfjs_loaded : bool;                 (* pdfjsLib with getDocument *)
  Tesseract_loaded : bool;
  getDocument : list Z -> outcome (list pdf_page);
  createWorker : string -> outcome unit;
  terminate : outcome unit;
  CreateMLCEngine : string -> outcome (option engine);
  load_reports : string -> nat;        (* how many init progress reports *)
  newChat : engine;
  reload : string -> outcome unit;
  unload : outcome unit;
  completions_create : string -> jsstring -> outcome (option jsstring);
  generate : jsstring -> outcome jsstring
}.

(** The instance: the text configuration and the fields of the engines.
    The asset paths, the Tesseract options and [chatOpts] are handed to the
    libraries as they are and are not modelled; what [progressCallback]
    receives is recorded in the trace. *)
Record instance : Type := Instance {
  text_cfg : TextConfig;
  tesseractLanguage : string;
  llmModel : string;
  llmModelLibUrl : option string;
  chatModule : option engine;
  llmInitialized : bool;
  WebLLMCreateEngine : bool;       (* a constructor function was found *)
  WebLLMChatConstructor : bool
}.

(** [a || b] on strings: the empty string is falsy. *)
Definition or_default (a : option string) (b : string) : string :=
  match a with
  | Some EmptyString | None => b
  | Some s => s
  end.

(** How the constructor finds WebLLM: the imported module, then
    [window.webLLM], then the two named imports. *)
Record webllm_probe : Type := Probe {
  module_CreateMLCEngine : bool;
  module_Chat : bool;
  window_CreateMLCEngine : bool;
  window_Chat : bool;
  imported_CreateMLCEngine : bool;
  imported_Chat : bool
}.

Record Extract2MDOptions : Type := Options {
  opt_tesseractLanguage : option string;
  opt_splitPascalCase : option bool;
  opt_postProcessRules : option (list PostProcessRule);
  opt_llmModel : option string;
  opt_llmModelLibUrl : option string
}.

Definition constructor (w : webllm_probe) (options : Extract2MDOptions) : instance :=
  let create :=
    if module_CreateMLCEngine w then true
    else if window_CreateMLCEngine w then true
    else if imported_CreateMLCEngine w then true
    else window_CreateMLCEngine w in
  let chatc :=
    if module_CreateMLCEngine w then module_Chat w
    else if window_CreateMLCEngine w then window_Chat w
    else if imported_Chat w then true
    else window_Chat w in
  {| text_cfg := construct_text (opt_splitPascalCase options)
                                (opt_postProcessRules options);
     tesseractLanguage := or_default (opt_tesseractLanguage options) "eng";
     llmModel := or_default (opt_llmModel options) DEFAULT_LLM_MODEL;
     llmModelLibUrl :=
       match opt_llmModelLibUrl options with
       | Some EmptyString | None => None
       | Some u => Some u
       end;
     chatModule := None;
     llmInitialized := false;
     WebLLMCreateEngine := create;
     WebLLMChatConstructor := chatc |}.

(** *** A monad for the async methods: instance state, the trace of
    events, exceptions. *)

Definition M (A : Type) : Type :=
  instance -> list event -> outcome A * instance * list event.

Definition ret {A} (a : A) : M A := fun i tr => (Returns a, i, tr).

Definition bind {A B} (m : M A) (f : A -> M B) : M B :=
  fun i tr =>
    match m i tr with
    | (Returns a, i', tr') => f a i' tr'
    | (Throws msg, i', tr') => (Throws msg, i', tr')
    end.

Definition throw {A} (message : string) : M A :=
  fun i tr => (Throws message, i, tr).

Definition emit (e : event) : M unit := fun i tr => (Returns tt, i, tr ++ [e]).

Definition this : M instance := fun i tr => (Returns i, i, tr).

Definition assign (f : instance -> instance) : M unit :=
  fun i tr => (Returns tt, f i, tr).

(** [try { body } catch (err) { handler(err.message) }] *)
Definition try_catch {A} (body : M A) (handler : string -> M A) : M A :=
  fun i tr =>
    match body i tr with
    | (Returns a, i', tr') => (Returns a, i', tr')
    | (Throws msg, i', tr') => handler msg i' tr'
    end.

(** [await] of an external call: the call is observed, then it resolves or
    rejects. *)
Definition await {A} (e : event) (o : outcome A) : M A :=
  fun i tr =>
    match o with
    | Returns a => (Returns a, i, tr ++ [e])
    | Throws msg => (Throws msg, i, tr ++ [e])
    end.

Definition progressCallback (r : ProgressReport) : M unit := emit (Progress r).

Notation "x <- m ;; k" := (bind m (fun x => k))
  (at level 61, m at next level, right associativity).
Notation "m ;;; k" := (bind m (fun _ => k))
  (at level 61, right associativity).

Definition Qltb (a b : Q) : bool := negb (Qle_bool b a).

(** [/\r\n/g] and [/\n{2,}/g] *)
Definition crlf : regex := RegExp false [one [Ch 13]; one [Ch 10]] false [] true.
Definition newlines2 : regex := RegExp false [atleast 2 [Ch 10]] false [] true.

(** [cleanedText.replace(/\r\n/g, '\n').replace(/\n{2,}/g, '\n\n').trim()] *)
Definition tidy_newlines (cleanedText : jsstring) : jsstring :=
  trim (Regex.replace newlines2 [LF; LF] (Regex.replace crlf [LF] cleanedText)).

Definition invalid_input : string :=
  "Invalid input: pdfFile must be a File object.".

Definition pdfjs_missing : string :=
  "pdf.js library (pdfjsLib) is not loaded or not fully initialized.".

Section Methods.

Variable h : host.

(** *** Direct extraction *)

(** The test for an inferred space between two items on one line. *)
Definition sameLine (item nextItem : text_item) : bool :=
  negb (is_empty (str item)) && negb (endsWith [SP] (str item))
  && negb (is_empty (str nextItem)) && negb (startsWith [SP] (str nextItem))
  && Qltb (Qabs (transform5 item - transform5 nextItem)) (height item * (1 # 2)).

Definition gapNotNegative (item nextItem : text_item) : bool :=
  Qltb (- (1 # 2)) (transform4 nextItem - (transform4 item + width item)).

(** The loop over the items of one page. *)
Fixpoint pageText (pageTextBuffer : jsstring) (items : list text_item) : jsstring :=
  match items with
  | [] => pageTextBuffer
  | item :: rest =>
      let buf := pageTextBuffer ++ str item in
      let buf' :=
        if hasEOL item then
          if endsWith [LF] buf then buf else buf ++ [LF]
        else
          match rest with
          | nextItem :: _ =>
              if sameLine item nextItem && gapNotNegative item nextItem
              then buf ++ [SP] else buf
          | [] => buf
          end in
      pageText buf' rest
  end.

Fixpoint extractPages (numPages pageNum : nat) (pages : list pdf_page)
         (fullText : jsstring) : M jsstring :=
  match pages with
  | [] => ret fullText
  | pg :: rest =>
      progressCallback (at_page "pdfjs_page" pageNum numPages) ;;;
      _ <- await (PdfGetPage pageNum) (getPage pg) ;;
      textContent <- await (PdfGetTextContent pageNum) (getTextContent pg) ;;
      let pageTextBuffer :=
        match textContent with
        | Some items => pageText [] items
        | None => []
        end in
      let fullText' := fullText ++ pageTextBuffer in
      extractPages numPages (S pageNum) rest
        (if negb (is_empty (trim pageTextBuffer))
            && negb (endsWith [LF] pageTextBuffer)
         then fullText' ++ [LF] else fullText')
  end.

Definition _extractTextWithPdfJs (fileArrayBuffer : list Z) : M jsstring :=
  if negb (pdfjs_loaded h) then throw pdfjs_missing
  else
    progressCallback (at_stage "pdfjs_load") ;;;
    pdfDoc <- await PdfGetDocument (getDocument h fileArrayBuffer) ;;
    fullText <- extractPages (List.length pdfDoc) 1 pdfDoc [] ;;
    progressCallback (at_stage "pdfjs_extract_complete") ;;;
    ret fullText.

(** [options.postProcessRules], absent or given. *)
Definition rules_or_none (r : option (list PostProcessRule)) : list PostProcessRule :=
  match r with Some rs => rs | None => [] end.

Definition quickConvert (pdfFile : jsvalue)
           (postProcessRules : option (list PostProcessRule)) : M jsstring :=
  match pdfFile with
  | JFile f =>
      progressCallback (at_stage "start_quick") ;;;
      buf <- await FileArrayBuffer (arrayBuffer f) ;;
      rawText <- _extractTextWithPdfJs buf ;;
      progressCallback (at_stage "postprocess_quick") ;;;
      i <- this ;;
      let cleanedText :=
        tidy_newlines (_postProcessText (text_cfg i) rawText
                                        (rules_or_none postProcessRules)) in
      progressCallback (at_stage "markdown_quick") ;;;
      let markdown := _convertToMarkdownLogic cleanedText in
      progressCallback (at_stage "complete_quick") ;;;
      ret markdown
  | _ => throw invalid_input
  end.

(** *** OCR *)

Record HighAccuracyConvertOptions : Type := OcrOptions {
  ocr_postProcessRules : option (list PostProcessRule);
  ocr_tesseractLanguage : option string;
  pdfRenderScale : option Q
}.

(** [options.pdfRenderScale || 2.5] *)
Definition renderScale (o : option Q) : Q :=
  match o with
  | Some q => if Qeq_bool q 0 then 5 # 2 else q
  | None => 5 # 2
  end.

(** The page loop of [highAccuracyConvert]. *)
Fixpoint ocrPages (scale : Q) (numPages pageNum : nat) (pages : list pdf_page)
         (fullTextAccumulator : jsstring) : M jsstring :=
  match pages with
  | [] => ret fullTextAccumulator
  | pg :: rest =>
      progressCallback (at_page "ocr_render_page" pageNum numPages) ;;;
      _ <- await (PdfGetPage pageNum) (getPage pg) ;;
      _ <- await (PdfRender pageNum scale) (render pg) ;;
      progressCallback (at_page "ocr_recognize_page" pageNum numPages) ;;;
      ocrPageText <- await (TessRecognize pageNum) (recognize pg) ;;
      ocrPages scale numPages (S pageNum) rest
               (fullTextAccumulator ++ ocrPageText ++ [LF])
  end.

Definition highAccuracyConvert (pdfFile : jsvalue)
           (options : HighAccuracyConvertOptions) : M jsstring :=
  match pdfFile with
  | JFile f =>
      if negb (pdfjs_loaded h) then throw pdfjs_missing
      else if negb (Tesseract_loaded h)
      then throw "Tesseract.js library is not loaded."
      else
        progressCallback (at_stage "start_ocr") ;;;
        i <- this ;;
        let tesseractLang :=
          or_default (ocr_tesseractLanguage options) (tesseractLanguage i) in
        let scale := renderScale (pdfRenderScale options) in
        _ <- try_catch
               (progressCallback (at_stage "ocr_worker_init") ;;;
                await (TessCreateWorker tesseractLang) (createWorker h tesseractLang))
               (fun message =>
                  progressCallback (failed "ocr_worker_error" message) ;;;
                  throw ("Failed to initialize Tesseract worker: " ++ message)%string) ;;
        buf <- await FileArrayBuffer (arrayBuffer f) ;;
        pdfDoc <- await PdfGetDocument (getDocument h buf) ;;
        fullTextAccumulator <- ocrPages scale (List.length pdfDoc) 1 pdfDoc [] ;;
        progressCallback (at_stage "ocr_terminate_worker") ;;;
        _ <- await TessTerminate (terminate h) ;;
        progressCallback (at_stage "postprocess_ocr") ;;;
        let cleanedText :=
          tidy_newlines
            (_postProcessText (text_cfg i) fullTextAccumulator
                              (rules_or_none (ocr_postProcessRules options))) in
        progressCallback (at_stage "markdown_ocr") ;;;
        let markdown := _convertToMarkdownLogic cleanedText in
        progressCallback (at_stage "complete_ocr") ;;;
        ret markdown
  | _ => throw invalid_input
  end.

(** *** The generative engine *)

Fixpoint includes (sub s : string) : bool :=
  if String.prefix sub s then true
  else match s with
       | EmptyString => false
       | String _ s' => includes sub s'
       end.

(** [chatModule.modelId || (chatModule.config && chatModule.config.model_id)] *)
Definition currentModelId (i : instance) : option string :=
  match chatModule i with
  | Some e =>
      match modelId e with
      | Some EmptyString | None => config_model_id e
      | Some m => Some m
      end
  | None => None
  end.

Definition same_model (cur : option string) (m : string) : bool :=
  match cur with
  | Some c => String.eqb c m
  | None => false
  end.

Definition set_chatModule (c : option engine) (i : instance) : instance :=
  Instance (text_cfg i) (tesseractLanguage i) (llmModel i) (llmModelLibUrl i)
           c (llmInitialized i) (WebLLMCreateEngine i) (WebLLMChatConstructor i).

Definition set_llmInitialized (b : bool) (i : instance) : instance :=
  Instance (text_cfg i) (tesseractLanguage i) (llmModel i) (llmModelLibUrl i)
           (chatModule i) b (WebLLMCreateEngine i) (WebLLMChatConstructor i).

(** [chatModule.modelId = modelId] *)
Definition with_modelId (m : string) (e : engine) : engine :=
  Engine (Some m) (config_model_id e) (unload_is_function e)
         (reload_is_function e) (generate_is_function e) (chat e).

(** The reports [initProgressCallback] forwards while the engine loads. *)
Fixpoint loadProgress (n : nat) : M unit :=
  match n with
  | O => ret tt
  | S n' => progressCallback (at_stage "llm_load_progress") ;;; loadProgress n'
  end.

(** An engine call that streams its load progress before it settles. *)
Definition await_loading {A} (e : event) (reports : nat) (o : outcome A) : M A :=
  emit e ;;; loadProgress reports ;;;
  match o with
  | Returns a => ret a
  | Throws message => throw message
  end.

Definition webllm_missing : string :=
  "WebLLM (CreateMLCEngine or Chat) module is not loaded. Ensure @mlc-ai/web-llm is correctly imported/bundled, or webLLM is globally available.".

Definition model_lib_missing (m : string) : string :=
  ("Extract2MD Error: 'model_lib' URL not specified for model '" ++ m ++
   "'. Please provide it via the 'llmModelLibUrl' constructor option, or use the default model ('"
   ++ DEFAULT_LLM_MODEL ++ "').")%string.

(** The model library for [m]: the configured URL, else the built-in one for
    the default model, else an error. *)
Definition modelLibToUse (i : instance) (m : string) : M string :=
  match llmModelLibUrl i with
  | Some (String c u) => ret (String c u)
  | Some EmptyString | None =>
      if String.eqb m DEFAULT_LLM_MODEL then ret DEFAULT_LLM_MODEL_LIB_URL
      else throw (model_lib_missing m)
  end.

Definition _initializeLLM (m : string) : M unit :=
  i <- this ;;
  if negb (WebLLMCreateEngine i) && negb (WebLLMChatConstructor i)
  then throw webllm_missing
  else if llmInitialized i
          && match chatModule i with Some _ => true | None => false end
          && same_model (currentModelId i) m
  then progressCallback (at_stage "llm_ready")
  else
    progressCallback (at_stage "llm_init") ;;;
    match chatModule i with
    | Some e =>
        if unload_is_function e
        then _ <- await LlmUnload (unload h) ;; assign (set_chatModule None)
        else ret tt
    | None => ret tt
    end ;;;
    assign (set_llmInitialized false) ;;;
    try_catch
      ((if WebLLMCreateEngine i then
          lib <- modelLibToUse i m ;;
          c <- await_loading (LlmCreateMLCEngine m lib (includes "f16" m))
                             (load_reports h m) (CreateMLCEngine h m) ;;
          assign (set_chatModule (option_map (with_modelId m) c))
        else if WebLLMChatConstructor i then
          emit LlmNewChat ;;;
          assign (set_chatModule (Some (with_modelId m (newChat h)))) ;;;
          if negb (reload_is_function (newChat h))
          then throw "this.chatModule.reload is not a function (Chat fallback path)."
          else await_loading (LlmReload m) (load_reports h m) (reload h m)
        else throw "No valid WebLLM constructor found.") ;;;
       assign (set_llmInitialized true) ;;;
       progressCallback (at_stage "llm_init_complete"))
      (fun message =>
         assign (set_llmInitialized false) ;;;
         progressCallback (failed "llm_init_error" message) ;;;
         throw ("LLM initialization failed: " ++ message)%string).

Record LLMRewriteOptions : Type := RewriteOptions {
  rw_llmModel : option string;
  llmPromptTemplate : option (jsstring -> jsstring)
}.

Definition defaultPromptTemplate (text : jsstring) : jsstring :=
  lit "Please rewrite the following text, which was extracted from a PDF. Aim to improve its clarity, correct grammatical errors, and enhance its flow and professional tone, while preserving the original meaning, information, details, context and structure. Correct spelling errors in common words (do not change spelling in uncommon words like names, places, brands, etc.). Output only the rewritten text."
  ++ [LF; LF] ++ lit "Original Text:" ++ [LF] ++ text ++ [LF; LF]
  ++ lit "Rewritten Text:".

(** The [else if] and [else] of the [try] block of [llmRewrite]:
    [chatModule.generate] when it is a function. *)
Definition viaGenerate (e : engine) (prompt : jsstring) : M jsstring :=
  if generate_is_function e
  then await (LlmGenerate prompt) (generate h prompt)
  else throw "LLM module does not support generate or chat.completions.create".

(** The [try] block of [llmRewrite]. *)
Definition generateReply (i : instance) (e : engine) (model : string)
           (prompt : jsstring) : M jsstring :=
  replyContent <-
    (if WebLLMCreateEngine i then
       match chat e with
       | NoChat => viaGenerate e prompt
       | ChatWithoutCompletions =>
           throw "Cannot read properties of undefined (reading 'create')"
       | ChatCompletions true =>
           chatCompletion <- await (LlmCompletionsCreate model prompt)
                                   (completions_create h model prompt) ;;
           ret (match chatCompletion with Some content => content | None => [] end)
       | ChatCompletions false => viaGenerate e prompt
       end
     else viaGenerate e prompt) ;;
  progressCallback (at_stage "llm_generate_complete") ;;;
  ret replyContent.

Definition llmRewrite (textToRewrite : jsstring) (options : LLMRewriteOptions)
  : M jsstring :=
  i0 <- this ;;
  let model := or_default (rw_llmModel options) (llmModel i0) in
  let promptTemplate :=
    match llmPromptTemplate options with
    | Some f => f
    | None => defaultPromptTemplate
    end in
  _initializeLLM model ;;;
  i <- this ;;
  match llmInitialized i, chatModule i with
  | true, Some e =>
      let prompt := promptTemplate textToRewrite in
      progressCallback (at_stage "llm_generate_start") ;;;
      try_catch (generateReply i e model prompt)
        (fun message =>
           progressCallback (failed "llm_generate_error" message) ;;;
           throw ("LLM generation failed: " ++ message)%string)
  | _, _ => throw "LLM could not be initialized or is not ready."
  end.

Definition unloadLLM : M unit :=
  i <- this ;;
  match chatModule i with
  | Some e =>
      progressCallback (at_stage "llm_unload") ;;;
      (if unload_is_function e then await LlmUnload (unload h)
       else throw "this.chatModule.unload is not a function") ;;;
      assign (set_chatModule None) ;;;
      assign (set_llmInitialized false) ;;;
      progressCallback (at_stage "llm_unload_complete")
  | None => ret tt
  end.

End Methods.

End Engines.

Import Engines.

(* ================================================================== *)
(** ** Concrete pages, hosts and instances used in the examples *)

Module Fixtures.

Local Open Scope string_scope.
Local Open Scope list_scope.

Definition good_page (text : string) : pdf_page :=
  Page (Returns tt) (Returns None) (Returns tt) (Returns (lit text)).

(** A page whose rendering is rejected. *)
Definition unrenderable_page : pdf_page :=
  Page (Returns tt) (Returns None) (Throws "render failed") (Returns []).

Definition mlc_engine : engine :=
  Engine None None true true false (ChatCompletions true).

(** Everything loaded; every document has a first page that is recognized
    and a second page that cannot be rendered. *)
Definition page_host : host :=
  Host true true
       (fun _ => Returns [good_page "Page one"; unrenderable_page])
       (fun _ => Returns tt) (Returns tt)
       (fun _ => Returns (Some mlc_engine)) (fun _ => 0%nat) mlc_engine
       (fun _ => Returns tt) (Returns tt)
       (fun _ _ => Returns (Some (lit "rewritten")))
       (fun _ => Returns (lit "rewritten")).

Definition some_file : File := MkFile (Returns [37; 80; 68; 70]).

Definition no_options : Extract2MDOptions := Options None None None None None.

Definition bundled : webllm_probe := Probe true true false false true true.

(** [new Extract2MDConverter()] where the WebLLM module is bundled. *)
Definition fresh : instance := constructor bundled no_options.

Definition ocr_defaults : HighAccuracyConvertOptions := OcrOptions None None None.

(** The same with the [llmModelLibUrl] option given. *)
Definition configured : instance :=
  constructor bundled
    (Options None None None None (Some "https://example.org/model-webgpu.wasm")).

Definition other_model : string := "Llama-3-8B-Instruct-q4f16_1-MLC".

End Fixtures.

(* ================================================================== *)
(** ** The page that uses the converter:
    src/components/PdfConverterClient.tsx

    The component keeps its state in [useState] cells and its converter in
    a ref. A handler reads the state of the render it was made in and
    queues its writes; what is embedded is the state once the handler has
    run to its end, with the writes applied in the order they are made.
    The [progressCallback] the page constructs its converter with writes
    every report it receives to [progressMessage]. What goes to the
    console is not part of the model. *)

Module Client.

Local Open Scope string_scope.
Local Open Scope list_scope.

(** [s.lastIndexOf(c)] for a one-character [c]; [None] is -1. *)
Fixpoint lastIndexOf (c : Z) (s : jsstring) : option nat :=
  match s with
  | [] => None
  | x :: s' =>
      match lastIndexOf c s' with
      | Some k => Some (S k)
      | None => if (x =? c)%Z then Some 0%nat else None
      end
  end.

(** [s.substring(0, e)]: a negative end counts as 0. *)
Definition substring0 (s : jsstring) (e : option nat) : jsstring :=
  match e with
  | Some k => firstn k s
  | None => []
  end.

(** [file.name.substring(0, file.name.lastIndexOf('.')) || 'converted'] *)
Definition stem (name : jsstring) : jsstring :=
  match substring0 name (lastIndexOf 46 name) with
  | [] => lit "converted"
  | c :: t => c :: t
  end.

(** A file picked in the file input: its name and the File object. *)
Record upload : Type := Upload {
  name : jsstring;
  file : File
}.

(** What the page shows as a message: a text of the page's own, the text
    [File selected: ${file.name}. Ready to process.], or the message of a
    progress report of the converter (with its percentage, if any). *)
Inductive message : Type :=
| Text (s : string)
| FileSelected (name : jsstring)
| OfReport (r : ProgressReport).

(** The React state of the component and the converter its ref holds. *)
Record page : Type := MkPage {
  pdfFile : option upload;
  ocrLanguage : string;
  markdownOutput : jsstring;
  isProcessing : bool;
  progressMessage : message;
  staticProgressMessage : message;
  originalFileName : jsstring;
  converterRef : option instance;
  converterInitialized : bool;
  initializationError : string
}.

(** What the user gets besides the state: alerts, the timer the handler
    starts, the download of a file with its name and content. *)
Inductive ui_event : Type :=
| Alert (s : string)
| SetTimeout (ms : nat)
| Download (name content : jsstring).

Definition setPdfFile (v : option upload) (p : page) : page :=
  MkPage v (ocrLanguage p) (markdownOutput p) (isProcessing p)
         (progressMessage p) (staticProgressMessage p) (originalFileName p)
         (converterRef p) (converterInitialized p) (initializationError p).

Definition setMarkdownOutput (v : jsstring) (p : page) : page :=
  MkPage (pdfFile p) (ocrLanguage p) v (isProcessing p)
         (progressMessage p) (staticProgressMessage p) (originalFileName p)
         (converterRef p) (converterInitialized p) (initializationError p).

Definition setIsProcessing (v : bool) (p : page) : page :=
  MkPage (pdfFile p) (ocrLanguage p) (markdownOutput p) v
         (progressMessage p) (staticProgressMessage p) (originalFileName p)
         (converterRef p) (converterInitialized p) (initializationError p).

Definition setProgressMessage (v : message) (p : page) : page :=
  MkPage (pdfFile p) (ocrLanguage p) (markdownOutput p) (isProcessing p)
         v (staticProgressMessage p) (originalFileName p)
         (converterRef p) (converterInitialized p) (initializationError p).

Definition setStaticProgressMessage (v : message) (p : page) : page :=
  MkPage (pdfFile p) (ocrLanguage p) (markdownOutput p) (isProcessing p)
         (progressMessage p) v (originalFileName p)
         (converterRef p) (converterInitialized p) (initializationError p).

Definition setOriginalFileName (v : jsstring) (p : page) : page :=
  MkPage (pdfFile p) (ocrLanguage p) (markdownOutput p) (isProcessing p)
         (progressMessage p) (staticProgressMessage p) v
         (converterRef p) (converterInitialized p) (initializationError p).

(** The converter object behind [converterRef.current] after a method ran. *)
Definition setConverter (v : instance) (p : page) : page :=
  MkPage (pdfFile p) (ocrLanguage p) (markdownOutput p) (isProcessing p)
         (progressMessage p) (staticProgressMessage p) (originalFileName p)
         (Some v) (converterInitialized p) (initializationError p).

Definition setConverterInitialized (v : bool) (p : page) : page :=
  MkPage (pdfFile p) (ocrLanguage p) (markdownOutput p) (isProcessing p)
         (progressMessage p) (staticProgressMessage p) (originalFileName p)
         (converterRef p) v (initializationError p).

(** The options the page constructs its converter with (the asset paths
    are not modelled). *)
Definition page_options : Extract2MDOptions :=
  Options None (Some false) None (Some DEFAULT_LLM_MODEL) None.

(** The effect that runs once when the component is mounted. *)
Definition mount (w : webllm_probe) (p : page) : page :=
  setConverterInitialized true (setConverter (constructor w page_options) p).

(** [handleFileChange], on the files of the input. *)
Definition handleFileChange (files : list upload) (p : page) : page :=
  match files with
  | f :: _ =>
      setProgressMessage (Text EmptyString)
        (setStaticProgressMessage (FileSelected (name f))
           (setMarkdownOutput []
              (setOriginalFileName (stem (name f))
                 (setPdfFile (Some f) p))))
  | [] =>
      setStaticProgressMessage
        (Text "No file selected. Please select a PDF file.")
        (setPdfFile None p)
  end.

(** The page's [progressCallback]: every report the converter makes
    becomes the progress message. *)
Fixpoint reported (evs : list event) (p : page) : page :=
  match evs with
  | [] => p
  | Progress r :: rest => reported rest (setProgressMessage (OfReport r) p)
  | _ :: rest => reported rest p
  end.

(** The state after an awaited method of the converter: the converter as
    the method left it, the reports it made since trace [before]. *)
Definition after_call (c : instance) (before now : list event) (p : page) : page :=
  reported (skipn (List.length before) now) (setConverter c p).

(** The [catch] and [finally] of [handleProcessPdf]. *)
Definition processing_failed (errorMessage : string) (p : page) : page :=
  setIsProcessing false
    (setStaticProgressMessage
       (Text ("An error occurred. Details: " ++ errorMessage))
       (setProgressMessage (Text "Error during processing.")
          (setMarkdownOutput
             (lit ("An error occurred: " ++ errorMessage)) p))).

(** [handleProcessPdf]: the state when the handler has run to its end, the
    trace of the converter and what the user was shown meanwhile. *)
Definition handleProcessPdf (h : host) (p : page) (tr : list event)
  : page * list event * list ui_event :=
  match pdfFile p with
  | None => (p, tr, [Alert "Please select a PDF file first."])
  | Some pdf =>
      match converterRef p, converterInitialized p with
      | Some converter, true =>
          let p1 :=
            setProgressMessage
              (Text ("Extracting text using high-accuracy OCR (lang: "
                     ++ ocrLanguage p ++ ")..."))
              (setProgressMessage (Text "Starting processing...")
                 (setStaticProgressMessage (Text EmptyString)
                    (setMarkdownOutput [] (setIsProcessing true p)))) in
          match highAccuracyConvert h (JFile (file pdf))
                  (OcrOptions None (Some (ocrLanguage p)) None) converter tr with
          | (Returns highAccuracyText, c1, tr1) =>
              let p2 :=
                setProgressMessage
                  (Text "Text extracted. Now rewriting with LLM...")
                  (after_call c1 tr tr1 p1) in
              let '(rewritten, c2, tr2) :=
                llmRewrite h highAccuracyText
                  (RewriteOptions (Some DEFAULT_LLM_MODEL) None) c1 tr1 in
              let p3 :=
                match rewritten with
                | Returns finalMarkdown =>
                    setMarkdownOutput finalMarkdown (after_call c2 tr1 tr2 p2)
                | Throws _ =>
                    setProgressMessage
                      (Text "LLM rewrite failed, using OCR text directly.")
                      (setMarkdownOutput highAccuracyText
                         (after_call c2 tr1 tr2 p2))
                end in
              let p4 := setProgressMessage (Text "Processing complete!") p3 in
              match unloadLLM h c2 tr2 with
              | (Returns _, c3, tr3) =>
                  (setIsProcessing false
                     (setProgressMessage
                        (Text "Processing complete! LLM resources released.")
                        (after_call c3 tr2 tr3 p4)),
                   tr3, [SetTimeout 2000])
              | (Throws errorMessage, c3, tr3) =>
                  (processing_failed errorMessage (after_call c3 tr2 tr3 p4),
                   tr3, [])
              end
          | (Throws errorMessage, c1, tr1) =>
              (processing_failed errorMessage (after_call c1 tr tr1 p1), tr1, [])
          end
      | _, _ =>
          (p, tr,
           [Alert ("Converter not initialized. "
                   ++ match initializationError p with
                      | EmptyString => "Please wait or check console for errors."
                      | String c e => String c e
                      end)])
      end
  end.

(** What the timer of [handleProcessPdf] does when it fires. *)
Definition timer_fires (p : page) : page :=
  setProgressMessage (Text EmptyString)
    (setStaticProgressMessage
       (Text "Processing complete. View or download the Markdown.") p).

(** [handleDownloadMarkdown] *)
Definition handleDownloadMarkdown (p : page) : list ui_event :=
  match markdownOutput p with
  | [] => [Alert "No Markdown content to download."]
  | c :: t => [Download (originalFileName p ++ lit ".md") (c :: t)]
  end.

End Client.

(* ================================================================== *)
(** ** Notions the statements use *)

Definition is_File (v : jsvalue) : bool :=
  match v with JFile _ => true | _ => false end.

Definition settled {A} (o : outcome A) : bool :=
  match o with Returns _ => true | Throws _ => false end.

(** Page [pg] goes through the OCR loop without an error. *)
Definition ocr_page_ok (pg : pdf_page) : bool :=
  settled (getPage pg) && settled (render pg) && settled (recognize pg).

Definition is_terminate (e : event) : bool :=
  match e with TessTerminate => true | _ => false end.

Definition is_create_worker (e : event) : bool :=
  match e with TessCreateWorker _ => true | _ => false end.

(** A call that asks the external engine to load a model. *)
Definition is_init_call (e : event) : bool :=
  match e with
  | LlmCreateMLCEngine _ _ _ | LlmReload _ => true
  | _ => false
  end.

Definition init_calls (tr : list event) : nat :=
  List.length (filter is_init_call tr).

(** The model library of [m] is known to instance [i]. *)
Definition lib_known (i : instance) (m : string) : bool :=
  match llmModelLibUrl i with
  | Some (String _ _) => true
  | Some EmptyString | None => String.eqb m DEFAULT_LLM_MODEL
  end.

Definition the_lib (i : instance) : string :=
  match llmModelLibUrl i with
  | Some (String c u) => String c u
  | Some EmptyString | None => DEFAULT_LLM_MODEL_LIB_URL
  end.

(** Instance [i] with engine [e] loaded and marked initialized. *)
Definition ready (e : engine) (i : instance) : instance :=
  set_llmInitialized true (set_chatModule (Some e) i).




(** The text of the end-to-end scenario. *)
Definition scenario : jsstring :=
  (lit "TOTAL DUE" ++ [LF; LF] ++ lit "Please   pay    within 30 days."
   ++ [LF] ++ lit "Amount:   100   USD" ++ [LF])%list.

(** The text has a character that is not whitespace. *)
Definition nonblank (s : jsstring) : bool :=
  existsb (fun c => negb (is_ws c)) s.

(** No dollar sign in a replacement template: it stands for itself. *)
Definition plain (template : jsstring) : bool :=
  forallb (fun c => negb (c =? 36)) template.

(** *** Notions for the occurrences of a pattern *)

(** A rule whose [find] is a RegExp with the g flag. *)
Definition global_rule (rule : PostProcessRule) : bool :=
  match find rule with
  | FindRegExp r => r_global r
  | FindString _ => false
  end.

(** No match of [r] starts at [s], which begins [pos] characters into the
    text. *)
Definition no_match (r : regex) (pos : nat) (s : jsstring) : bool :=
  match match_here r (Nat.eqb pos 0) s with
  | Some _ => false
  | None => true
  end.

(** The same list of numbers. *)
Fixpoint same_lengths (a b : list nat) : bool :=
  match a, b with
  | [], [] => true
  | x :: a', y :: b' => Nat.eqb x y && same_lengths a' b'
  | _, _ => false
  end.

(** The match of [r] that starts at [s] is the one whose atoms took [ns]. *)
Definition match_is (r : regex) (pos : nat) (s : jsstring) (ns : list nat) : bool :=
  match match_here r (Nat.eqb pos 0) s with
  | Some ms => same_lengths ms ns
  | None => false
  end.

(** What a scan of a text for a pattern finds, from left to right: a
    character that is kept, or an occurrence of the pattern, given by the
    number of characters each of its atoms took. *)
Inductive piece : Type :=
| Kept (c : Z)
| Occurrence (ns : list nat).

(** The pieces [ps] are ALL the occurrences of [r] in [s], which begins
    [pos] characters into the text, and the characters between them: an
    occurrence is the match of [r] that starts where the scan stands, and
    the scan goes on where the occurrence ends; a character is kept, and
    the text ends, only where no match starts. [after_empty] says that the
    empty occurrence at this very place was found already: the next
    character is then kept, and the scan goes on behind it. *)
Fixpoint all_occurrences (r : regex) (pos : nat) (after_empty : bool)
         (s : jsstring) (ps : list piece) : bool :=
  match ps with
  | [] => is_empty s && (after_empty || no_match r pos s)
  | Kept c :: ps' =>
      match s with
      | [] => false
      | c' :: s' =>
          (c =? c') && (after_empty || no_match r pos s)
          && all_occurrences r (S pos) false s' ps'
      end
  | Occurrence ns :: ps' =>
      negb after_empty && match_is r pos s ns
      && all_occurrences r (pos + total ns) (Nat.eqb (total ns) 0)
                         (skipn (total ns) s) ps'
  end.

(** The pieces of [s] put together again with every occurrence replaced by
    what the template makes of it. *)
Fixpoint replace_occurrences (r : regex) (template whole : jsstring)
         (pos : nat) (s : jsstring) (ps : list piece) : jsstring :=
  match ps with
  | [] => []
  | Kept c :: ps' => c :: replace_occurrences r template whole (S pos) (tl s) ps'
  | Occurrence ns :: ps' =>
      substitute r template whole pos ns s
      ++ replace_occurrences r template whole (pos + total ns)
                             (skipn (total ns) s) ps'
  end.

(** The first match of [r] in [s] starts at [pos], with its atoms taking
    [ns]: no match starts before. *)
Definition first_match (r : regex) (s : jsstring) (pos : nat) (ns : list nat)
  : bool :=
  (pos <=? List.length s)%nat
  && forallb (fun q => no_match r q (skipn q s)) (seq 0 pos)
  && match_is r pos (skipn pos s) ns.

(** Every character of class [cl] replaced by [repl]. *)
Definition replace_each (cl : charclass) (repl s : jsstring) : jsstring :=
  flat_map (fun c => if in_class cl c then repl else [c]) s.

(** Every maximal run of characters of class [cl] replaced by one [repl];
    [in_run] says the previous character was of the class. *)
Fixpoint collapse_runs (cl : charclass) (repl : jsstring) (in_run : bool)
         (s : jsstring) : jsstring :=
  match s with
  | [] => []
  | c :: s' =>
      if in_class cl c then
        if in_run then collapse_runs cl repl true s'
        else repl ++ collapse_runs cl repl true s'
      else c :: collapse_runs cl repl false s'
  end.

(** The length of the longest prefix of [s] in class [cl]. *)
Fixpoint runlen (cl : charclass) (s : jsstring) : nat :=
  match s with
  | [] => O
  | c :: s' => if in_class cl c then S (runlen cl s') else O
  end.

(** The class of the whitespace rule. *)
Definition whitespace_class : charclass :=
  [Ws; Ch 0x00A0; Rg 0x2000 0x200A; Ch 0x202F; Ch 0x205F; Ch 0x3000].

(** The ten built-in rules that replace single characters. *)
Definition characterRules : list PostProcessRule := firstn 10 builtinRules.

(** The characters those ten rules replace. *)
Definition special (c : Z) : bool :=
  in_class [Ch 0xFB00; Ch 0xFB01; Ch 0xFB02; Ch 0xFB03; Ch 0xFB04;
            Ch 0x2018; Ch 0x2019; Ch 0x201C; Ch 0x201D;
            Ch 0x2022; Ch 0x2023; Ch 0x25E6; Ch 0x2043; Ch 0x2219;
            Ch 0x25CF; Ch 0x25CB; Ch 0x2981; Ch 0x2619; Ch 0x2765;
            Ch 0x2013; Ch 0x2014; Ch 0x00AD] c.

(** What the ten rules make of one character. *)
Definition norm_char (c : Z) : jsstring :=
  if c =? 0xFB00 then lit "ff"
  else if c =? 0xFB01 then lit "fi"
  else if c =? 0xFB02 then lit "fl"
  else if c =? 0xFB03 then lit "ffi"
  else if c =? 0xFB04 then lit "ffl"
  else if (c =? 0x2018) || (c =? 0x2019) then lit "'"
  else if (c =? 0x201C) || (c =? 0x201D) then [34]
  else if (c =? 0x2022) || (c =? 0x2023) || (c =? 0x25E6) || (c =? 0x2043)
          || (c =? 0x2219) || (c =? 0x25CF) || (c =? 0x25CB) || (c =? 0x2981)
          || (c =? 0x2619) || (c =? 0x2765) then lit "-"
  else if (c =? 0x2013) || (c =? 0x2014) then lit "-"
  else if c =? 0x00AD then []
  else [c].

(** A table of classes and replacements as rules [/[...]/g], and what
    such rules do one after the other. *)
Definition class_rules (table : list (charclass * jsstring)) : list PostProcessRule :=
  map (fun e => Rule (class_g (fst e)) (snd e)) table.

Definition replace_classes (table : list (charclass * jsstring)) (s : jsstring)
  : jsstring :=
  fold_left (fun acc e => replace_each (fst e) (snd e) acc) table s.

Definition characterTable : list (charclass * jsstring) :=
  [ ([Ch 0xFB00], lit "ff"); ([Ch 0xFB01], lit "fi"); ([Ch 0xFB02], lit "fl");
    ([Ch 0xFB03], lit "ffi"); ([Ch 0xFB04], lit "ffl");
    ([Ch 0x2018; Ch 0x2019], lit "'");
    ([Ch 0x201C; Ch 0x201D], [34]);
    ([Ch 0x2022; Ch 0x2023; Ch 0x25E6; Ch 0x2043; Ch 0x2219;
      Ch 0x25CF; Ch 0x25CB; Ch 0x2981; Ch 0x2619; Ch 0x2765], lit "-");
    ([Ch 0x2013; Ch 0x2014], lit "-");
    ([Ch 0x00AD], []) ].

(** The normalization with the eleven built-in rules, as the specification
    words it: every special character replaced, every run of whitespace
    collapsed to one space, the ends trimmed. *)
Definition normalize_spec (text : jsstring) : jsstring :=
  trim (collapse_runs whitespace_class [SP] false (flat_map norm_char text)).

(** A capitalized word starts here: an uppercase letter, then a lowercase
    one. *)
Definition capw (s : jsstring) : bool :=
  match s with
  | u :: l :: _ => is_upper u && is_lower l
  | _ => false
  end.

(** Somewhere a lowercase letter is followed by a capitalized word: the
    places where the split rules insert a space. *)
Fixpoint hump (s : jsstring) : bool :=
  match s with
  | [] => false
  | x :: s' => (is_lower x && capw s') || hump s'
  end.

Definition lrun (s : jsstring) : nat := runlen lower s.

(** [/([A-Z][a-z]+)([A-Z][a-z]+)/] matches here. *)
Definition pascal_at (s : jsstring) : bool :=
  match s with
  | u :: s' => is_upper u && (1 <=? lrun s')%nat && capw (skipn (lrun s') s')
  | [] => false
  end.

(** [/([a-z])([A-Z][a-z]+)/] matches here. *)
Definition camel_at (s : jsstring) : bool :=
  match s with
  | x :: s' => is_lower x && capw s'
  | [] => false
  end.

(** Somewhere a lowercase letter is followed by two capitalized words. *)
Fixpoint danger (s : jsstring) : bool :=
  match s with
  | [] => false
  | x :: s' => (is_lower x && pascal_at s') || danger s'
  end.

(** [o] is [s] with spaces put between some lowercase letters and the
    uppercase letters that follow them. *)
Inductive spaced : jsstring -> jsstring -> Prop :=
| spaced_nil : spaced [] []
| spaced_copy (c : Z) (s o : jsstring) :
    spaced s o -> spaced (c :: s) (c :: o)
| spaced_insert (l u : Z) (s o : jsstring) :
    is_lower l = true -> is_upper u = true ->
    spaced (u :: s) o -> spaced (l :: u :: s) (l :: SP :: o).

(** The two passes of the split rules, as [String.prototype.replace] runs
    them. *)
Definition pascal_pass (s : jsstring) : jsstring :=
  Regex.replace pascal_words (lit "$1 $2") s.

Definition camel_pass (s : jsstring) : jsstring :=
  Regex.replace camel_hump (lit "$1 $2") s.

(** Whitespace as the whitespace rule leaves it: single spaces only;
    [prev] says the previous character was whitespace. *)
Fixpoint tidy (prev : bool) (s : jsstring) : bool :=
  match s with
  | [] => true
  | c :: s' =>
      if is_ws c then negb prev && (c =? SP) && tidy true s'
      else tidy false s'
  end.

(** The lines of a text, cut at every line feed; [cur] is the line being
    read, reversed. *)
Fixpoint lines_acc (cur s : jsstring) : list jsstring :=
  match s with
  | [] => [rev cur]
  | c :: s' =>
      if c =? LF then rev cur :: lines_acc [] s'
      else lines_acc (c :: cur) s'
  end.

Definition has_LF (s : jsstring) : bool := existsb (fun c => c =? LF) s.

(** The first character, if any, is not whitespace. *)
Definition clean_head (s : jsstring) : bool :=
  match s with
  | [] => true
  | c :: _ => negb (is_ws c)
  end.

(** The last three statements before the serialization: the final flushes. *)
Definition finish (st : state) : state :=
  flushCurrentParagraph (flushTableIfIn st).

(** A state with output lines [o] and blocks [b] put in front. *)
Definition frame (o : list jsstring) (b : list MarkdownBlock) (st : state) : state :=
  State (o ++ markdownOutputLines st) (currentParagraphCollector st)
        (inPotentialTableBlock st) (potentialTableBlockLines st)
        (b ++ blocks st).

(** The emitted lines are those of the recorded blocks. *)
Definition consistent (st : state) : Prop :=
  markdownOutputLines st = flat_map block_lines (blocks st).

(** At least one of the block's lines shows something. *)
Definition visible (b : MarkdownBlock) : bool :=
  existsb nonblank (block_lines b).

(** What the loop keeps true of its state: collected lines are not blank,
    table lines are only held in table mode, emitted blocks are visible. *)
Definition well_formed (st : state) : bool :=
  forallb nonblank (currentParagraphCollector st)
  && forallb nonblank (potentialTableBlockLines st)
  && (is_empty (potentialTableBlockLines st) || inPotentialTableBlock st)
  && forallb visible (blocks st).

(** Something was emitted or is waiting to be. *)
Definition productive (st : state) : bool :=
  negb (is_empty (blocks st))
  || negb (is_empty (currentParagraphCollector st))
  || negb (is_empty (potentialTableBlockLines st)).

(** *** Notions for the text a document carries *)

(** The characters of [s] that are not whitespace, in order. *)
Definition ink (s : jsstring) : jsstring := filter (fun c => negb (is_ws c)) s.

(** The text a block carries. *)
Definition block_text (b : MarkdownBlock) : jsstring :=
  match b with
  | Heading t => t
  | Paragraph t => t
  | FencedBlock ls => List.concat ls
  end.

(** The text the loop holds back: the table lines and the paragraph lines
    not yet emitted. *)
Definition pending (st : state) : jsstring :=
  List.concat (potentialTableBlockLines st)
  ++ List.concat (currentParagraphCollector st).

(** All the text of a state: emitted and held back. *)
Definition content (st : state) : jsstring :=
  flat_map block_text (blocks st) ++ pending st.

(** Table lines and paragraph lines are never held at the same time, and
    table lines only in table mode. *)
Definition exclusive (st : state) : bool :=
  (is_empty (potentialTableBlockLines st) || is_empty (currentParagraphCollector st))
  && (is_empty (potentialTableBlockLines st) || inPotentialTableBlock st).

(** The last character, if any, is not whitespace. *)
Definition clean_last (s : jsstring) : bool := clean_head (rev s).

(** A line as the loop emits it: with something to show, without a line
    feed, without whitespace at its end. *)
Definition solid (l : jsstring) : bool :=
  nonblank l && negb (has_LF l) && clean_last l.

(** A block as the loop emits it: a heading or a paragraph is one solid line
    that starts with a visible character, a fenced block has at least two
    solid lines. *)
Definition block_ok (b : MarkdownBlock) : bool :=
  match b with
  | Heading t => solid t && clean_head t
  | Paragraph t => solid t && clean_head t
  | FencedBlock ls => (2 <=? List.length ls)%nat && forallb solid ls
  end.

(** What the loop holds back is fit to be emitted. *)
Definition held_ok (st : state) : bool :=
  forallb (fun l => nonblank l && negb (has_LF l)) (currentParagraphCollector st)
  && forallb (fun l => nonblank l && negb (has_LF l)) (potentialTableBlockLines st)
  && forallb block_ok (blocks st).

(** A block as Markdown text: its lines without the empty line that closes
    it, joined by line feeds. *)
Definition render_block (b : MarkdownBlock) : jsstring :=
  join [LF] (removelast (block_lines b)).

(** Nowhere in [s] do [n] characters of class [cl] follow one another. *)
Fixpoint quiet (cl : charclass) (n : nat) (s : jsstring) : bool :=
  match s with
  | [] => true
  | _ :: s' => (runlen cl s <? n)%nat && quiet cl n s'
  end.

(** Nowhere three line feeds in a row. *)
Definition calm (s : jsstring) : bool := quiet [Ch 10] 3 s.

(** Lines that the loop takes for paragraph text where they stand: with
    something to show, not a heading given the lines after them, not
    tabular. *)
Fixpoint plain_lines (ls : list jsstring) : bool :=
  match ls with
  | [] => true
  | l :: rest =>
      nonblank l && negb (has_LF l) && negb (isHeading (trim l) rest)
      && negb (isTabular l) && plain_lines rest
  end.

(** *** Notions for the conversions and the engine *)

(** Page [pg] goes through the text extraction without an error. *)
Definition extract_page_ok (pg : pdf_page) : bool :=
  settled (getPage pg) && settled (getTextContent pg).

(** The text items of a page, none when the page has no [items]. *)
Definition page_items (pg : pdf_page) : list text_item :=
  match getTextContent pg with
  | Returns (Some items) => items
  | _ => []
  end.

(** The text [_extractTextWithPdfJs] adds for a page: the text of its
    items, closed by a line feed when it shows something and does not end
    with one. *)
Definition page_chunk (pg : pdf_page) : jsstring :=
  let pageTextBuffer :=
    match getTextContent pg with
    | Returns (Some items) => pageText [] items
    | _ => []
    end in
  if negb (is_empty (trim pageTextBuffer)) && negb (endsWith [LF] pageTextBuffer)
  then pageTextBuffer ++ [LF] else pageTextBuffer.

(** What happens for the pages from number [pageNum] on when none fails:
    in the text extraction and in the OCR loop. *)
Fixpoint extract_events (numPages pageNum : nat) (pages : list pdf_page)
  : list event :=
  match pages with
  | [] => []
  | _ :: rest =>
      [Progress (at_page "pdfjs_page" pageNum numPages);
       PdfGetPage pageNum; PdfGetTextContent pageNum]
      ++ extract_events numPages (S pageNum) rest
  end.

Fixpoint ocr_events (scale : Q) (numPages pageNum : nat) (pages : list pdf_page)
  : list event :=
  match pages with
  | [] => []
  | _ :: rest =>
      [Progress (at_page "ocr_render_page" pageNum numPages);
       PdfGetPage pageNum; PdfRender pageNum scale;
       Progress (at_page "ocr_recognize_page" pageNum numPages);
       TessRecognize pageNum]
      ++ ocr_events scale numPages (S pageNum) rest
  end.

(** The text the OCR loop adds for a page. *)
Definition ocr_chunk (pg : pdf_page) : jsstring :=
  match recognize pg with
  | Returns ocrPageText => ocrPageText ++ [LF]
  | Throws _ => []
  end.

(** A call into WebLLM. *)
Definition is_llm_call (e : event) : bool :=
  match e with
  | LlmCreateMLCEngine _ _ _ | LlmNewChat | LlmReload _ | LlmUnload
  | LlmCompletionsCreate _ _ | LlmGenerate _ => true
  | _ => false
  end.

(** A read of the file or a call into pdf.js or Tesseract. *)
Definition is_document_call (e : event) : bool :=
  match e with
  | FileArrayBuffer | PdfGetDocument | PdfGetPage _ | PdfGetTextContent _
  | PdfRender _ _ | TessCreateWorker _ | TessRecognize _ | TessTerminate => true
  | _ => false
  end.

(** A report of stage [s] is in the trace. *)
Definition reports (s : string) (tr : list event) : bool :=
  existsb (fun e => match e with
                    | Progress r => String.eqb (stage r) s
                    | _ => false
                    end) tr.

(** The prompt [llmRewrite] builds. *)
Definition prompt_of (tpl : option (jsstring -> jsstring)) (text : jsstring)
  : jsstring :=
  match tpl with
  | Some f => f text
  | None => defaultPromptTemplate text
  end.

(** The fields of the instance that only the constructor writes. *)
Definition same_configuration (i j : instance) : Prop :=
  text_cfg j = text_cfg i
  /\ tesseractLanguage j = tesseractLanguage i
  /\ llmModel j = llmModel i
  /\ llmModelLibUrl j = llmModelLibUrl i
  /\ WebLLMCreateEngine j = WebLLMCreateEngine i
  /\ WebLLMChatConstructor j = WebLLMChatConstructor i.

(** The name has a dot. *)
Definition has_dot (s : jsstring) : bool := existsb (fun c => c =? 46) s.

(** *** More pages, hosts and instances for the examples *)

Module Scenes.

Local Open Scope string_scope.
Local Open Scope list_scope.

(** A text item that ends its line. *)
Definition line_item (s : string) : text_item := Item (lit s) true 0 0 0 0.

(** A page with two lines of text, which OCR reads as [seen]. *)
Definition text_page (first second seen : string) : pdf_page :=
  Page (Returns tt) (Returns (Some [line_item first; line_item second]))
       (Returns tt) (Returns (lit seen)).

Definition two_pages : list pdf_page :=
  [ text_page "Annual Report" "Revenue grew." "Annual Report Revenue grew.";
    Fixtures.good_page "Thank you." ].

(** An object as [new Chat()] gives it: with [reload], [generate] and
    [unload], without the [chat.completions] API. *)
Definition chat_engine : engine := Engine None None true true true NoChat.

(** Everything loaded and every page fine; the worker, the creation of the
    engine and its unloading answer as given. *)
Definition host_with (worker : outcome unit)
           (created : outcome (option engine)) (unloaded : outcome unit) : host :=
  Host true true
       (fun _ => Returns two_pages)
       (fun _ => worker) (Returns tt)
       (fun _ => created) (fun _ => 2%nat) chat_engine
       (fun _ => Returns tt) unloaded
       (fun _ _ => Returns (Some (lit "Rewritten.")))
       (fun _ => Returns (lit "Rewritten.")).

Definition good_host : host :=
  host_with (Returns tt) (Returns (Some Fixtures.mlc_engine)) (Returns tt).

(** The same page and engines with pdf.js missing, and with Tesseract
    missing. *)
Definition without_pdfjs : host :=
  Host false true
       (fun _ => Returns two_pages) (fun _ => Returns tt) (Returns tt)
       (fun _ => Returns (Some Fixtures.mlc_engine)) (fun _ => 2%nat) chat_engine
       (fun _ => Returns tt) (Returns tt)
       (fun _ _ => Returns (Some (lit "Rewritten.")))
       (fun _ => Returns (lit "Rewritten.")).

Definition without_Tesseract : host :=
  Host true false
       (fun _ => Returns two_pages) (fun _ => Returns tt) (Returns tt)
       (fun _ => Returns (Some Fixtures.mlc_engine)) (fun _ => 2%nat) chat_engine
       (fun _ => Returns tt) (Returns tt)
       (fun _ _ => Returns (Some (lit "Rewritten.")))
       (fun _ => Returns (lit "Rewritten.")).

(** Nothing of WebLLM is found; only the Chat constructor is found. *)
Definition nothing_found : webllm_probe := Probe false true false false false false.

Definition chat_only : webllm_probe := Probe false false false false false true.

(** The page with a file picked and the converter of [Client.mount]. *)
Definition ready_page : Client.page :=
  Client.handleFileChange
    [Client.Upload (lit "report.final.pdf") Fixtures.some_file]
    (Client.mount Fixtures.bundled
       (Client.MkPage None "eng" [] false (Client.Text EmptyString)
                      (Client.Text EmptyString) (lit "converted") None false
                      EmptyString)).

(** The run the last example is about: the OCR conversion and the rewrite
    succeed, the unloading of the engine is rejected. *)
Definition unload_fails : host :=
  host_with (Returns tt) (Returns (Some Fixtures.mlc_engine)) (Throws "device lost").

Definition page_converter : instance :=
  constructor Fixtures.bundled Client.page_options.

Definition ocr_run : outcome jsstring * instance * list event :=
  highAccuracyConvert unload_fails (JFile Fixtures.some_file)
                      (OcrOptions None (Some "eng") None) page_converter [].

Definition ocr_markdown : jsstring :=
  match fst (fst ocr_run) with
  | Returns markdown => markdown
  | Throws _ => []
  end.

Definition ocr_trace : list event := snd ocr_run.

Definition rewrite_run : outcome jsstring * instance * list event :=
  llmRewrite unload_fails ocr_markdown
             (RewriteOptions (Some DEFAULT_LLM_MODEL) None) page_converter
             ocr_trace.

Definition rewrite_instance : instance := snd (fst rewrite_run).

Definition rewrite_trace : list event := snd rewrite_run.

End Scenes.

(* ================================================================== *)
(** ** Properties of the orchestration *)

Section Orchestration.

Local Open Scope list_scope.

Ltac run_M :=
  unfold bind, await, emit, progressCallback, ret, throw, this, assign,
         try_catch in *; simpl in *.

(** The page loop never terminates the worker; it returns when every page is
    fine and throws at the first page that is not. *)
Lemma ocrPages_trace (pages : list pdf_page) :
  forall scale numPages pageNum acc i tr,
  exists o evs,
    ocrPages scale numPages pageNum pages acc i tr = (o, i, tr ++ evs)
    /\ existsb is_terminate evs = false
    /\ settled o = forallb ocr_page_ok pages.
Proof.
  induction pages as [|pg rest IH]; intros; simpl.
  - exists (Returns acc), []. rewrite app_nil_r. repeat split; reflexivity.
  - run_M. unfold ocr_page_ok.
    destruct (getPage pg) as [[]|m1]; simpl.
    2:{ exists (Throws m1). eexists. rewrite <- !app_assoc. simpl.
        repeat split; reflexivity. }
    destruct (render pg) as [[]|m2]; simpl.
    2:{ exists (Throws m2). eexists. rewrite <- !app_assoc. simpl.
        repeat split; reflexivity. }
    destruct (recognize pg) as [text|m3]; simpl.
    2:{ exists (Throws m3). eexists. rewrite <- !app_assoc. simpl.
        repeat split; reflexivity. }
    match goal with
    | |- context [ocrPages ?s ?n ?p rest ?a ?i0 ?t] =>
        destruct (IH s n p a i0 t) as (o & evs & E & T & St)
    end.
    rewrite E. exists o. eexists. rewrite <- !app_assoc. simpl.
    split; [reflexivity|]. split; [exact T | exact St].
Qed.

(** C9, the path the source misses: when the worker was created and a page
    fails to load, render or be recognized, [highAccuracyConvert] rejects
    with the worker created and never terminated. *)
Theorem ocr_worker_leaks_on_page_failure
        (h : host) (f : File) (options : HighAccuracyConvertOptions)
        (i : instance) (tr : list event) (buf : list Z) (doc : list pdf_page) :
  pdfjs_loaded h = true ->
  Tesseract_loaded h = true ->
  createWorker h (or_default (ocr_tesseractLanguage options) (tesseractLanguage i))
    = Returns tt ->
  arrayBuffer f = Returns buf ->
  getDocument h buf = Returns doc ->
  forallb ocr_page_ok doc = false ->
  exists message evs,
    highAccuracyConvert h (JFile f) options i tr = (Throws message, i, tr ++ evs)
    /\ existsb is_create_worker evs = true
    /\ existsb is_terminate evs = false.
Proof.
  intros Hp Ht Hw Hb Hd Hbad.
  unfold highAccuracyConvert. rewrite Hp, Ht. simpl.
  run_M. rewrite Hw, Hb, Hd.
  match goal with
  | |- context [ocrPages ?s ?n ?p doc ?a ?i0 ?t] =>
      destruct (ocrPages_trace doc s n p a i0 t) as (o & evs & E & T & St)
  end.
  rewrite E. rewrite Hbad in St. destruct o as [a|message]; [discriminate|].
  exists message. eexists. rewrite <- !app_assoc. simpl.
  split; [reflexivity|]. split; [reflexivity | exact T].
Qed.

Lemma ocr_worker_leaks_on_page_failure_witness :
  exists message evs,
    highAccuracyConvert Fixtures.page_host (JFile Fixtures.some_file)
                        Fixtures.ocr_defaults Fixtures.fresh []
      = (Throws message, Fixtures.fresh, [] ++ evs)
    /\ existsb is_create_worker evs = true
    /\ existsb is_terminate evs = false.
Proof.
  apply (ocr_worker_leaks_on_page_failure
           Fixtures.page_host Fixtures.some_file Fixtures.ocr_defaults
           Fixtures.fresh [] [37; 80; 68; 70]
           [Fixtures.good_page "Page one"; Fixtures.unrenderable_page]);
    reflexivity.
Defined.

(** The same run, event by event: the second page's render is the last
    thing that happens. *)
Example ocr_leak_trace :
  highAccuracyConvert Fixtures.page_host (JFile Fixtures.some_file)
                      Fixtures.ocr_defaults Fixtures.fresh []
  = (Throws "render failed", Fixtures.fresh,
     [ Progress (at_stage "start_ocr");
       Progress (at_stage "ocr_worker_init");
       TessCreateWorker "eng";
       FileArrayBuffer;
       PdfGetDocument;
       Progress (at_page "ocr_render_page" 1 2);
       PdfGetPage 1;
       PdfRender 1 (5 # 2);
       Progress (at_page "ocr_recognize_page" 1 2);
       TessRecognize 1;
       Progress (at_page "ocr_render_page" 2 2);
       PdfGetPage 2;
       PdfRender 2 (5 # 2) ]).
Proof. reflexivity. Qed.

(** The success path: with every page fine the worker is terminated, once,
    after the page loop. *)
Theorem ocr_worker_terminated_after_last_page
        (h : host) (f : File) (options : HighAccuracyConvertOptions)
        (i : instance) (tr : list event) (buf : list Z) (doc : list pdf_page) :
  pdfjs_loaded h = true ->
  Tesseract_loaded h = true ->
  createWorker h (or_default (ocr_tesseractLanguage options) (tesseractLanguage i))
    = Returns tt ->
  arrayBuffer f = Returns buf ->
  getDocument h buf = Returns doc ->
  forallb ocr_page_ok doc = true ->
  exists o before after,
    highAccuracyConvert h (JFile f) options i tr
      = (o, i, tr ++ before ++ TessTerminate :: after)
    /\ existsb is_terminate before = false
    /\ existsb is_terminate after = false.
Proof.
  intros Hp Ht Hw Hb Hd Hok.
  unfold highAccuracyConvert. rewrite Hp, Ht. simpl.
  run_M. rewrite Hw, Hb, Hd.
  match goal with
  | |- context [ocrPages ?s ?n ?p doc ?a ?i0 ?t] =>
      destruct (ocrPages_trace doc s n p a i0 t) as (o & evs & E & T & St)
  end.
  rewrite E. rewrite Hok in St. destruct o as [a|message]; [|discriminate].
  destruct (terminate h) as [[]|m].
  - eexists. exists ([Progress (at_stage "start_ocr");
                      Progress (at_stage "ocr_worker_init");
                      TessCreateWorker
                        (or_default (ocr_tesseractLanguage options)
                                    (tesseractLanguage i));
                      FileArrayBuffer; PdfGetDocument]
                     ++ evs ++ [Progress (at_stage "ocr_terminate_worker")]).
    eexists. rewrite <- !app_assoc. simpl.
    split; [reflexivity|].
    rewrite existsb_app, T. simpl. split; reflexivity.
  - eexists. exists ([Progress (at_stage "start_ocr");
                      Progress (at_stage "ocr_worker_init");
                      TessCreateWorker
                        (or_default (ocr_tesseractLanguage options)
                                    (tesseractLanguage i));
                      FileArrayBuffer; PdfGetDocument]
                     ++ evs ++ [Progress (at_stage "ocr_terminate_worker")]).
    exists []. rewrite <- !app_assoc. simpl.
    split; [reflexivity|].
    rewrite existsb_app, T. simpl. split; reflexivity.
Qed.

(** C10: an argument that is not a File makes both conversions throw the
    'Invalid input' error at once: no event (no progress report, no engine
    call) is added to the trace and the instance is unchanged. *)
Theorem not_a_File_is_rejected
        (h : host) (pdfFile : jsvalue)
        (rules : option (list PostProcessRule))
        (options : HighAccuracyConvertOptions)
        (i : instance) (tr : list event) :
  is_File pdfFile = false ->
  quickConvert h pdfFile rules i tr = (Throws invalid_input, i, tr)
  /\ highAccuracyConvert h pdfFile options i tr = (Throws invalid_input, i, tr).
Proof.
  intros H. destruct pdfFile; try discriminate H; split; reflexivity.
Qed.

Lemma not_a_File_is_rejected_witness :
  quickConvert Fixtures.page_host (JString (lit "report.pdf")) None
               Fixtures.fresh []
    = (Throws invalid_input, Fixtures.fresh, [])
  /\ highAccuracyConvert Fixtures.page_host (JString (lit "report.pdf"))
                         Fixtures.ocr_defaults Fixtures.fresh []
    = (Throws invalid_input, Fixtures.fresh, []).
Proof.
  apply (not_a_File_is_rejected Fixtures.page_host (JString (lit "report.pdf"))
           None Fixtures.ocr_defaults Fixtures.fresh []).
  reflexivity.
Defined.

(** *** The generative engine's lifecycle *)

Lemma init_calls_app (a b : list event) :
  init_calls (a ++ b) = (init_calls a + init_calls b)%nat.
Proof. unfold init_calls. rewrite filter_app, length_app. reflexivity. Qed.

Lemma loadProgress_trace (n : nat) (i : instance) (tr : list event) :
  loadProgress n i tr
  = (Returns tt, i, tr ++ repeat (Progress (at_stage "llm_load_progress")) n).
Proof.
  revert tr. induction n as [|n IH]; intros tr; simpl.
  - rewrite app_nil_r. reflexivity.
  - run_M. rewrite IH. rewrite <- app_assoc. reflexivity.
Qed.

Lemma init_calls_load (n : nat) :
  init_calls (repeat (Progress (at_stage "llm_load_progress")) n) = 0%nat.
Proof. induction n as [|n IH]; [reflexivity | exact IH]. Qed.

Lemma modelLibToUse_known (i j : instance) (m : string) (tr : list event) :
  lib_known i m = true ->
  modelLibToUse i m j tr = (Returns (the_lib i), j, tr).
Proof.
  unfold lib_known, modelLibToUse, the_lib.
  destruct (llmModelLibUrl i) as [[|c u]|]; intros H; try rewrite H; reflexivity.
Qed.


(** First initialization: no engine loaded yet. *)
Lemma initializeLLM_fresh (h : host) (i : instance) (m : string) (e : engine)
      (tr : list event) :
  WebLLMCreateEngine i = true ->
  chatModule i = None ->
  lib_known i m = true ->
  CreateMLCEngine h m = Returns (Some e) ->
  _initializeLLM h m i tr
  = (Returns tt, ready (with_modelId m e) i,
     tr ++ [Progress (at_stage "llm_init");
            LlmCreateMLCEngine m (the_lib i) (includes "f16" m)]
        ++ repeat (Progress (at_stage "llm_load_progress")) (load_reports h m)
        ++ [Progress (at_stage "llm_init_complete")]).
Proof.
  intros Hc Hn Hl He.
  unfold _initializeLLM, await_loading. run_M.
  rewrite Hc, Hn. simpl. rewrite ?andb_false_r. simpl.
  rewrite ?Hc.
  rewrite (modelLibToUse_known i _ m _) by exact Hl.
  rewrite loadProgress_trace, He.
  unfold ready, set_llmInitialized, set_chatModule. simpl.
  rewrite ?Hn, ?Hc. rewrite <- !app_assoc. reflexivity.
Qed.

(** The engine for [m] is loaded: nothing is asked of the external engine. *)
Lemma initializeLLM_ready (h : host) (i : instance) (m : string) (e : engine)
      (tr : list event) :
  WebLLMCreateEngine i = true ->
  m <> EmptyString ->
  _initializeLLM h m (ready (with_modelId m e) i) tr
  = (Returns tt, ready (with_modelId m e) i, tr ++ [Progress (at_stage "llm_ready")]).
Proof.
  intros Hc Hm.
  unfold _initializeLLM. run_M. rewrite Hc. simpl.
  unfold currentModelId. simpl.
  destruct m as [|c m']; [contradiction|].
  simpl. rewrite Ascii.eqb_refl, String.eqb_refl. reflexivity.
Qed.


Lemma viaGenerate_trace (h : host) (i : instance) (e : engine)
      (prompt : jsstring) (tr : list event) :
  exists o evs,
    viaGenerate h e prompt i tr = (o, i, tr ++ evs) /\ init_calls evs = 0%nat.
Proof.
  unfold viaGenerate. run_M. destruct (generate_is_function e).
  - destruct (generate h prompt); do 2 eexists; split; reflexivity.
  - eexists. exists []. rewrite app_nil_r. split; reflexivity.
Qed.

(** Generating the reply asks for no initialization and leaves the instance
    as it is. *)
Lemma generateReply_trace (h : host) (i j : instance) (e : engine)
      (model : string) (prompt : jsstring) (tr : list event) :
  exists o evs,
    generateReply h j e model prompt i tr = (o, i, tr ++ evs)
    /\ init_calls evs = 0%nat.
Proof.
  destruct (viaGenerate_trace h i e prompt tr) as (o & evs & G & Gi).
  assert (V : exists o' evs',
             (replyContent <- viaGenerate h e prompt ;;
              progressCallback (at_stage "llm_generate_complete") ;;;
              ret replyContent) i tr = (o', i, tr ++ evs')
             /\ init_calls evs' = 0%nat).
  { unfold bind at 1. rewrite G. destruct o as [a|msg].
    - run_M. do 2 eexists. rewrite <- app_assoc. split; [reflexivity|].
      rewrite init_calls_app, Gi. reflexivity.
    - do 2 eexists. split; [reflexivity | exact Gi]. }
  unfold generateReply.
  destruct (WebLLMCreateEngine j); [destruct (chat e) as [| |[|]]|];
    try exact V.
  - run_M. eexists. exists []. rewrite app_nil_r. split; reflexivity.
  - run_M. destruct (completions_create h model prompt) as [c|msg];
      do 2 eexists; rewrite <- ?app_assoc; split; reflexivity.
Qed.

(** [llmRewrite] after its call of [_initializeLLM]: whatever follows
    keeps the instance and asks for no initialization. *)
Lemma llmRewrite_after_init (h : host) (i i' : instance) (m : string)
      (text : jsstring) (tpl : option (jsstring -> jsstring))
      (tr tr' : list event) (o0 : outcome unit) :
  m <> EmptyString ->
  _initializeLLM h m i tr = (o0, i', tr') ->
  exists o evs,
    llmRewrite h text (RewriteOptions (Some m) tpl) i tr = (o, i', tr' ++ evs)
    /\ init_calls evs = 0%nat
    /\ (forall msg, o0 = Throws msg -> o = Throws msg /\ evs = []).
Proof.
  intros Hm Hi.
  unfold llmRewrite. run_M.
  destruct m as [|c m0]; [contradiction|]. simpl.
  rewrite Hi. destruct o0 as [[]|msg0].
  2:{ eexists. exists []. rewrite app_nil_r.
      split; [reflexivity|]. split; [reflexivity|].
      intros msg1 E. injection E as <-. split; reflexivity. }
  destruct (llmInitialized i') eqn:Hinit; [destruct (chatModule i') as [e|] eqn:Hch|].
  - match goal with
    | |- context [generateReply h ?j ?e0 ?mo ?p ?i0 ?t0] =>
        destruct (generateReply_trace h i0 j e0 mo p t0) as (o & evs & G & Gi)
    end.
    rewrite G. destruct o as [a|msg].
    + do 2 eexists. rewrite <- !app_assoc. simpl.
      split; [reflexivity|]. split; [exact Gi | intros; discriminate].
    + do 2 eexists. rewrite <- !app_assoc. simpl. split; [reflexivity|].
      split; [|intros; discriminate].
      change (init_calls (evs ++ [Progress (failed "llm_generate_error" msg)])
              = 0%nat).
      rewrite init_calls_app, Gi. reflexivity.
  - eexists. exists []. rewrite app_nil_r.
    split; [reflexivity|]. split; [reflexivity|]. intros; discriminate.
  - eexists. exists []. rewrite app_nil_r.
    split; [reflexivity|]. split; [reflexivity|]. intros; discriminate.
Qed.

(** The configuration that fails fast: where CreateMLCEngine was found and
    no [llmModelLibUrl] was given, the library of a model other than the
    default one is not known. After two rewrites with the default model
    (one engine creation), a third call for another model unloads the
    engine and throws at the guard of [_initializeLLM], before any
    initialization call, leaving the instance without an engine. *)
Lemma llm_switch_without_model_lib :
  let twice :=
    let '(_, i1, tr1) :=
      llmRewrite Fixtures.page_host (lit "first") (RewriteOptions None None)
                 Fixtures.fresh [] in
    llmRewrite Fixtures.page_host (lit "second") (RewriteOptions None None)
               i1 tr1 in
  let '(_, i2, tr2) := twice in
  let '(o3, i3, tr3) :=
    llmRewrite Fixtures.page_host (lit "third")
               (RewriteOptions (Some Fixtures.other_model) None) i2 tr2 in
  init_calls tr2 = 1%nat
  /\ skipn (List.length tr2) tr3
     = [ Progress (at_stage "llm_init"); LlmUnload;
         Progress (failed "llm_init_error"
                          (model_lib_missing Fixtures.other_model)) ]
  /\ init_calls (skipn (List.length tr2) tr3) = 0%nat
  /\ o3 = Throws ("LLM initialization failed: "
                  ++ model_lib_missing Fixtures.other_model)%string
  /\ chatModule i3 = None.
Proof. vm_compute. repeat split. Qed.

(** [unloadLLM] with no engine loaded does nothing; with one, it unloads it
    and clears the instance. *)
Lemma unloadLLM_effect (h : host) (i : instance) (tr : list event) :
  match chatModule i with
  | None => unloadLLM h i tr = (Returns tt, i, tr)
  | Some e =>
      unload_is_function e = true -> unload h = Returns tt ->
      unloadLLM h i tr
      = (Returns tt, set_llmInitialized false (set_chatModule None i),
         tr ++ [Progress (at_stage "llm_unload"); LlmUnload;
                Progress (at_stage "llm_unload_complete")])
  end.
Proof.
  unfold unloadLLM. run_M. destruct (chatModule i) as [e|]; [|reflexivity].
  intros Hu Hun. rewrite Hu, Hun. run_M. rewrite <- !app_assoc. reflexivity.
Qed.

End Orchestration.

(* ================================================================== *)
(** ** Facts about strings and the matcher *)

Section StringFacts.

Local Open Scope list_scope.

Lemma nonblank_app (a b : jsstring) :
  nonblank (a ++ b) = nonblank a || nonblank b.
Proof. apply existsb_app. Qed.

Lemma nonblank_rev (s : jsstring) : nonblank (rev s) = nonblank s.
Proof.
  induction s as [|c s IH]; [reflexivity|].
  simpl. rewrite nonblank_app, IH. simpl. rewrite orb_false_r. apply orb_comm.
Qed.

Lemma trimStart_nonblank (s : jsstring) : nonblank (trimStart s) = nonblank s.
Proof.
  induction s as [|c s IH]; [reflexivity|].
  simpl. destruct (is_ws c) eqn:E; simpl; [exact IH | rewrite E; reflexivity].
Qed.

Lemma trimEnd_nonblank (s : jsstring) : nonblank (trimEnd s) = nonblank s.
Proof.
  unfold trimEnd. rewrite nonblank_rev, trimStart_nonblank. apply nonblank_rev.
Qed.

Lemma trim_nonblank (s : jsstring) : nonblank (trim s) = nonblank s.
Proof. unfold trim. rewrite trimEnd_nonblank. apply trimStart_nonblank. Qed.

Lemma blank_trimStart (s : jsstring) : nonblank s = false -> trimStart s = [].
Proof.
  induction s as [|c s IH]; [reflexivity|].
  simpl. destruct (is_ws c); simpl; [exact IH | discriminate].
Qed.

Lemma trim_is_empty (s : jsstring) : is_empty (trim s) = negb (nonblank s).
Proof.
  destruct (nonblank s) eqn:E.
  - pose proof (trim_nonblank s) as T. rewrite E in T.
    destruct (trim s); [discriminate T | reflexivity].
  - unfold trim. rewrite (blank_trimStart s E). reflexivity.
Qed.

Lemma trimStart_app (a b : jsstring) :
  trimStart (a ++ b)
  = match trimStart a with
    | [] => trimStart b
    | x :: t => (x :: t) ++ b
    end.
Proof.
  induction a as [|c a IH]; [reflexivity|].
  simpl. destruct (is_ws c); [exact IH | reflexivity].
Qed.

(** [trimEnd] by recursion from the front. *)
Lemma trimEnd_cons (c : Z) (s : jsstring) :
  trimEnd (c :: s)
  = match trimEnd s with
    | [] => if is_ws c then [] else [c]
    | x :: t => c :: x :: t
    end.
Proof.
  unfold trimEnd. simpl rev at 1. rewrite trimStart_app.
  destruct (trimStart (rev s)) as [|x t] eqn:E.
  - simpl. destruct (is_ws c); reflexivity.
  - rewrite rev_app_distr. simpl.
    destruct (rev t ++ [x]) eqn:E'; [|reflexivity].
    destruct (rev t); discriminate.
Qed.

Lemma clean_head_trimStart (s : jsstring) : clean_head (trimStart s) = true.
Proof.
  induction s as [|c s IH]; [reflexivity|].
  simpl. destruct (is_ws c) eqn:E; [exact IH | simpl; rewrite E; reflexivity].
Qed.

Lemma trimStart_clean (s : jsstring) : clean_head s = true -> trimStart s = s.
Proof.
  destruct s as [|c s]; [reflexivity|]. simpl.
  destruct (is_ws c); [discriminate | reflexivity].
Qed.

Lemma clean_head_trimEnd (s : jsstring) :
  clean_head s = true -> clean_head (trimEnd s) = true.
Proof.
  destruct s as [|c s]; [reflexivity|]. simpl. intros H.
  rewrite trimEnd_cons. destruct (trimEnd s); simpl.
  - destruct (is_ws c) eqn:E; [discriminate H | simpl].
    rewrite E. reflexivity.
  - exact H.
Qed.

Lemma trimEnd_idem (s : jsstring) : trimEnd (trimEnd s) = trimEnd s.
Proof.
  unfold trimEnd. rewrite rev_involutive.
  rewrite (trimStart_clean _ (clean_head_trimStart (rev s))). reflexivity.
Qed.

Lemma trim_idem (s : jsstring) : trim (trim s) = trim s.
Proof.
  unfold trim.
  rewrite (trimStart_clean (trimEnd (trimStart s))).
  - apply trimEnd_idem.
  - apply clean_head_trimEnd, clean_head_trimStart.
Qed.

(** A template without a dollar sign is its own substitution. *)
Lemma subst_go_plain (m b a : jsstring) (caps : list jsstring) (t : jsstring) :
  plain t = true -> subst_go m b a caps O t = t.
Proof.
  induction t as [|c t IH]; [reflexivity|].
  simpl. intros H. apply andb_prop in H as [Hc Ht].
  rewrite Hc. rewrite (IH Ht). reflexivity.
Qed.

Lemma GetSubstitution_plain (m b a : jsstring) (caps : list jsstring)
      (t : jsstring) :
  plain t = true -> GetSubstitution m b a caps t = t.
Proof. apply subst_go_plain. Qed.

(** What a greedy atom took is in its class. *)
Lemma greedy_took {R : Type} (cl : charclass) (k : jsstring -> option R)
      (s : jsstring) :
  forall min n r,
    greedy cl k min s = Some (n, r) ->
    forallb (in_class cl) (firstn n s) = true /\ k (skipn n s) = Some r
    /\ (min <= n)%nat.
Proof.
  induction s as [|c s IH]; intros min n r H; simpl in H.
  - destruct min; [|discriminate].
    destruct (k []) eqn:K; [|discriminate]. injection H as <- <-.
    simpl. repeat split; [exact K | lia].
  - destruct (in_class cl c) eqn:C.
    + destruct (greedy cl k (pred min) s) as [[n' r']|] eqn:G.
      * injection H as <- <-. apply IH in G as (F & K & L).
        simpl. rewrite C, F. repeat split; [exact K | lia].
      * destruct min; [|discriminate].
        destruct (k (c :: s)) eqn:K; [|discriminate]. injection H as <- <-.
        simpl. repeat split; [exact K | lia].
    + destruct min; [|discriminate].
      destruct (k (c :: s)) eqn:K; [|discriminate]. injection H as <- <-.
      simpl. repeat split; [exact K | lia].
Qed.

(** The lines of a text as [split(/\n/)] gives them. *)
Lemma split_go_newline (s : jsstring) :
  forall pos cur, split_go newline pos cur 0 s = lines_acc cur s.
Proof.
  induction s as [|c s IH]; intros pos cur; [reflexivity|].
  simpl. unfold match_here. simpl.
  destruct (c =? 10) eqn:E; simpl.
  - rewrite Z.eqb_eq in E. subst c. simpl.
    destruct cur; simpl; rewrite IH; reflexivity.
  - unfold LF. rewrite E. apply IH.
Qed.

Lemma split_newline (s : jsstring) : Regex.split newline s = lines_acc [] s.
Proof.
  destruct s as [|c s]; [reflexivity|]. unfold Regex.split.
  apply split_go_newline.
Qed.

Lemma lines_acc_line (l : jsstring) :
  forall cur, has_LF l = false -> lines_acc cur l = [rev cur ++ l].
Proof.
  induction l as [|c l IH]; intros cur H; simpl.
  - rewrite app_nil_r. reflexivity.
  - simpl in H. apply orb_false_elim in H as [Hc Hl]. rewrite Hc.
    rewrite (IH _ Hl). simpl. rewrite <- app_assoc. reflexivity.
Qed.

Lemma lines_acc_cut (l t : jsstring) :
  forall cur,
    has_LF l = false ->
    lines_acc cur (l ++ LF :: t) = (rev cur ++ l) :: lines_acc [] t.
Proof.
  induction l as [|c l IH]; intros cur H; simpl.
  - rewrite app_nil_r. reflexivity.
  - simpl in H. apply orb_false_elim in H as [Hc Hl]. rewrite Hc.
    rewrite (IH _ Hl). simpl. rewrite <- app_assoc. reflexivity.
Qed.

Lemma lines_acc_nonblank (s : jsstring) :
  forall cur,
    existsb nonblank (lines_acc cur s) = nonblank cur || nonblank s.
Proof.
  induction s as [|c s IH]; intros cur; simpl.
  - rewrite nonblank_rev, !orb_false_r. reflexivity.
  - destruct (c =? LF) eqn:E.
    + rewrite Z.eqb_eq in E. subst c. simpl. rewrite IH, nonblank_rev.
      reflexivity.
    + rewrite IH. simpl. destruct (is_ws c); simpl.
      * reflexivity.
      * rewrite orb_true_r. reflexivity.
Qed.

End StringFacts.

(* ================================================================== *)
(** ** Properties of the normalization *)

Section Normalization.

Local Open Scope list_scope.

Lemma run_rules_app (a b : list PostProcessRule) (t : jsstring) :
  run_rules (a ++ b) t = run_rules b (run_rules a t).
Proof. apply fold_left_app. Qed.

(** A global rule on a single class replaces every character of the class. *)
Lemma replace_go_class (cl : charclass) (repl whole s : jsstring) :
  plain repl = true ->
  forall pos,
    replace_go (RegExp false [one cl] false [] true) repl whole pos 0 s
    = replace_each cl repl s.
Proof.
  intros P. induction s as [|c s IH]; intros pos; [reflexivity|].
  cbn [replace_go]. unfold match_here. simpl.
  destruct (in_class cl c) eqn:C; simpl.
  - unfold substitute. rewrite GetSubstitution_plain by exact P.
    rewrite IH. reflexivity.
  - rewrite IH. reflexivity.
Qed.

Lemma apply_class_rule (cl : charclass) (repl s : jsstring) :
  plain repl = true ->
  apply_rule s (Rule (class_g cl) repl) = replace_each cl repl s.
Proof.
  intros P. unfold apply_rule, Regex.replace. simpl.
  apply replace_go_class, P.
Qed.

Lemma greedy_run (cl : charclass) (s : jsstring) :
  forall min,
    greedy cl (fun _ => Some (@nil nat)) min s
    = if (min <=? runlen cl s)%nat then Some (runlen cl s, []) else None.
Proof.
  induction s as [|c s IH]; intros min; simpl.
  - destruct min; reflexivity.
  - destruct (in_class cl c).
    + rewrite IH. destruct min as [|m]; simpl.
      * reflexivity.
      * destruct (m <=? runlen cl s)%nat; reflexivity.
    + destruct min; reflexivity.
Qed.

(** A global rule on runs of a class replaces every maximal run. *)
Lemma replace_go_runs (cl : charclass) (repl whole s : jsstring) :
  plain repl = true ->
  forall pos,
    replace_go (RegExp false [plus cl] false [] true) repl whole pos
               (runlen cl s) s
    = collapse_runs cl repl true s
    /\ replace_go (RegExp false [plus cl] false [] true) repl whole pos 0 s
      = collapse_runs cl repl false s.
Proof.
  intros P. induction s as [|c s IH]; intros pos.
  - split; reflexivity.
  - destruct (IH (S pos)) as [IH1 IH2].
    assert (M : match_here (RegExp false [plus cl] false [] true)
                           (Nat.eqb pos 0) (c :: s)
                = if in_class cl c then Some [S (runlen cl s)] else None).
    { unfold match_here. cbn [r_bol andb r_atoms r_eol m_atoms plus a_many
                               a_cls a_min].
      rewrite greedy_run. simpl. destruct (in_class cl c); reflexivity. }
    split.
    + simpl runlen. simpl collapse_runs. destruct (in_class cl c) eqn:C.
      * cbn [replace_go]. exact IH1.
      * cbn [replace_go]. rewrite M, ?C. rewrite IH2. reflexivity.
    + cbn [replace_go]. rewrite M. simpl collapse_runs.
      destruct (in_class cl c) eqn:C.
      * unfold substitute. rewrite GetSubstitution_plain by exact P.
        cbn [total fold_right]. rewrite Nat.add_0_r. rewrite IH1.
        reflexivity.
      * rewrite IH2. reflexivity.
Qed.

Lemma apply_run_rule (cl : charclass) (repl s : jsstring) :
  plain repl = true ->
  apply_rule s (Rule (FindRegExp (RegExp false [plus cl] false [] true)) repl)
  = collapse_runs cl repl false s.
Proof.
  intros P. unfold apply_rule, Regex.replace. simpl.
  apply (replace_go_runs cl repl s s P 0%nat).
Qed.

(** A rule whose [find] is a string replaces the first occurrence. *)
Lemma apply_string_rule (p repl pre post : jsstring) :
  plain repl = true ->
  p <> [] ->
  indexOf p (pre ++ p ++ post) = Some (List.length pre) ->
  apply_rule (pre ++ p ++ post) (Rule (FindString p) repl)
  = pre ++ repl ++ post.
Proof.
  intros P N I. unfold apply_rule. simpl.
  destruct p as [|x p]; [contradiction|].
  unfold replace_string. rewrite I.
  rewrite GetSubstitution_plain by exact P.
  rewrite firstn_app, firstn_all, Nat.sub_diag. simpl firstn.
  rewrite app_nil_r.
  rewrite skipn_app.
  rewrite (skipn_all2 pre) by lia.
  replace (List.length pre + List.length (x :: p) - List.length pre)%nat
    with (List.length (x :: p)) by lia.
  rewrite skipn_app, skipn_all, Nat.sub_diag. reflexivity.
Qed.

(** *** The built-in rules, character by character *)

Lemma run_class_rules (table : list (charclass * jsstring)) :
  forallb (fun e => plain (snd e)) table = true ->
  forall s, run_rules (class_rules table) s = replace_classes table s.
Proof.
  induction table as [|[cl repl] table IH]; intros P s; [reflexivity|].
  simpl in P. apply andb_prop in P as [Pr Pt].
  unfold run_rules, replace_classes in *. simpl.
  rewrite (apply_class_rule cl repl s Pr). apply IH, Pt.
Qed.

Lemma flat_map_twice (f g : Z -> jsstring) (s : jsstring) :
  flat_map g (flat_map f s) = flat_map (fun c => flat_map g (f c)) s.
Proof.
  induction s as [|c s IH]; [reflexivity|].
  simpl. rewrite flat_map_app, IH. reflexivity.
Qed.

Lemma replace_classes_pointwise (table : list (charclass * jsstring)) :
  forall s,
    replace_classes table s = flat_map (fun c => replace_classes table [c]) s.
Proof.
  induction table as [|[cl repl] table IH]; intros s.
  - unfold replace_classes. simpl. induction s as [|c s IHs]; [reflexivity|].
    simpl. rewrite <- IHs. reflexivity.
  - change (replace_classes ((cl, repl) :: table) s)
      with (replace_classes table (replace_each cl repl s)).
    rewrite IH. unfold replace_each at 1. rewrite flat_map_twice.
    apply flat_map_ext. intros c.
    change (replace_classes ((cl, repl) :: table) [c])
      with (replace_classes table (replace_each cl repl [c])).
    rewrite (IH (replace_each cl repl [c])).
    unfold replace_each. simpl. rewrite app_nil_r. reflexivity.
Qed.

Ltac by_character c :=
  repeat match goal with
         | |- context [c =? ?k] =>
             let E := fresh "E" in
             destruct (c =? k) eqn:E;
             [ apply Z.eqb_eq in E; subst c; vm_compute;
               try reflexivity; intros; discriminate
             | simpl ]
         end.

Lemma replace_classes_char (c : Z) :
  replace_classes characterTable [c] = norm_char c.
Proof.
  unfold replace_classes, characterTable, norm_char, replace_each. simpl.
  by_character c. reflexivity.
Qed.

(** The ten character rules at work on a whole text. *)
Lemma run_characterRules (s : jsstring) :
  run_rules characterRules s = flat_map norm_char s.
Proof.
  change characterRules with (class_rules characterTable).
  rewrite run_class_rules by reflexivity.
  rewrite replace_classes_pointwise.
  apply flat_map_ext. intros c. apply replace_classes_char.
Qed.

Lemma norm_char_plain (c : Z) : special c = false -> norm_char c = [c].
Proof.
  unfold special, norm_char, in_class, existsb, cc_mem.
  by_character c. reflexivity.
Qed.

Lemma norm_char_clean (c : Z) :
  forallb (fun x => negb (special x)) (norm_char c) = true.
Proof.
  unfold special, norm_char, in_class, existsb, cc_mem.
  by_character c. reflexivity.
Qed.

Lemma whitespace_class_is_ws (c : Z) : in_class whitespace_class c = is_ws c.
Proof.
  unfold whitespace_class, in_class, existsb, cc_mem.
  destruct (is_ws c) eqn:E; [reflexivity|].
  unfold is_ws in E.
  repeat match type of E with
         | _ || _ = false => apply orb_false_elim in E as [E ?]
         end.
  repeat match goal with
         | H : _ = false |- _ => rewrite H; clear H
         end.
  reflexivity.
Qed.

(** The built-in rules are the ten character rules and the whitespace rule,
    and together they do what [normalize_spec] says. *)
Lemma run_builtinRules (s : jsstring) :
  run_rules builtinRules s
  = collapse_runs whitespace_class [SP] false (flat_map norm_char s).
Proof.
  change builtinRules
    with (characterRules ++ [Rule (FindRegExp whitespace_run) (lit " ")]).
  rewrite run_rules_app, run_characterRules. unfold run_rules. simpl fold_left.
  apply (apply_run_rule whitespace_class (lit " ")). reflexivity.
Qed.

(** *** The whitespace rule and the trimming *)

Local Arguments in_class : simpl never.

Lemma tidy_weaken (s : jsstring) : tidy true s = true -> tidy false s = true.
Proof.
  destruct s as [|c s]; [trivial|]. simpl.
  destruct (is_ws c); [discriminate | trivial].
Qed.

Lemma collapse_is_tidy (s : jsstring) :
  forall b, tidy b (collapse_runs whitespace_class [SP] b s) = true.
Proof.
  induction s as [|c s IH]; intros b; [reflexivity|].
  simpl. rewrite whitespace_class_is_ws.
  destruct (is_ws c) eqn:W.
  - destruct b; [apply IH|]. simpl. apply IH.
  - simpl. rewrite W. apply IH.
Qed.

Lemma collapse_of_tidy (s : jsstring) :
  forall b, tidy b s = true -> collapse_runs whitespace_class [SP] b s = s.
Proof.
  induction s as [|c s IH]; intros b H; [reflexivity|].
  simpl in *. rewrite whitespace_class_is_ws.
  destruct (is_ws c).
  - apply andb_prop in H as [H Ht]. apply andb_prop in H as [Hb Hc].
    destruct b; [discriminate Hb|]. rewrite Z.eqb_eq in Hc. subst c.
    simpl. rewrite (IH true Ht). reflexivity.
  - rewrite (IH false H). reflexivity.
Qed.

Lemma tidy_trimStart (s : jsstring) :
  tidy false s = true -> tidy false (trimStart s) = true.
Proof.
  induction s as [|c s IH]; [trivial|]. simpl.
  destruct (is_ws c) eqn:W.
  - intros H. apply andb_prop in H as [_ Ht]. apply IH, tidy_weaken, Ht.
  - intros H. simpl. rewrite W. exact H.
Qed.

Lemma tidy_trimEnd (s : jsstring) :
  forall b, tidy b s = true -> tidy b (trimEnd s) = true.
Proof.
  induction s as [|c s IH]; intros b H; [reflexivity|].
  rewrite trimEnd_cons. simpl in H.
  destruct (trimEnd s) as [|x t] eqn:E.
  - destruct (is_ws c) eqn:W; [reflexivity|]. simpl. rewrite W. reflexivity.
  - simpl tidy at 1. destruct (is_ws c).
    + apply andb_prop in H as [H Ht]. rewrite H. apply (IH true Ht).
    + apply (IH false H).
Qed.

Lemma tidy_trim (s : jsstring) : tidy false s = true -> tidy false (trim s) = true.
Proof. intros H. unfold trim. apply tidy_trimEnd, tidy_trimStart, H. Qed.

Lemma forallb_trimStart (P : Z -> bool) (s : jsstring) :
  forallb P s = true -> forallb P (trimStart s) = true.
Proof.
  induction s as [|c s IH]; [trivial|]. simpl. intros H.
  destruct (is_ws c); [|exact H].
  apply andb_prop in H as [_ H]. exact (IH H).
Qed.

Lemma forallb_trimEnd (P : Z -> bool) (s : jsstring) :
  forallb P s = true -> forallb P (trimEnd s) = true.
Proof.
  induction s as [|c s IH]; [trivial|]. intros H.
  rewrite trimEnd_cons. simpl in H. apply andb_prop in H as [Hc Hs].
  specialize (IH Hs). destruct (trimEnd s) as [|x t].
  - destruct (is_ws c); [reflexivity|]. simpl. rewrite Hc. reflexivity.
  - simpl. simpl in IH. rewrite Hc, IH. reflexivity.
Qed.

Lemma forallb_collapse (P : Z -> bool) (s : jsstring) :
  P SP = true -> forallb P s = true ->
  forall b, forallb P (collapse_runs whitespace_class [SP] b s) = true.
Proof.
  intros Hsp. induction s as [|c s IH]; intros H b; [reflexivity|].
  simpl in *. apply andb_prop in H as [Hc Hs].
  destruct (in_class whitespace_class c).
  - destruct b; [apply IH, Hs|]. simpl. rewrite Hsp. apply IH, Hs.
  - simpl. rewrite Hc. apply IH, Hs.
Qed.

Lemma flat_map_norm_clean (s : jsstring) :
  forallb (fun x => negb (special x)) (flat_map norm_char s) = true.
Proof.
  induction s as [|c s IH]; [reflexivity|].
  simpl. rewrite forallb_app, norm_char_clean, IH. reflexivity.
Qed.

Lemma flat_map_norm_of_clean (s : jsstring) :
  forallb (fun x => negb (special x)) s = true -> flat_map norm_char s = s.
Proof.
  induction s as [|c s IH]; [reflexivity|]. simpl. intros H.
  apply andb_prop in H as [Hc Hs]. rewrite (IH Hs).
  rewrite norm_char_plain; [reflexivity|].
  destruct (special c); [discriminate Hc | reflexivity].
Qed.

(** [_postProcessText] with the built-in rules only is [normalize_spec]. *)
Lemma postProcessText_builtin (text : jsstring) :
  _postProcessText (construct_text None None) text [] = normalize_spec text.
Proof.
  destruct text as [|c text]; [reflexivity|].
  unfold _postProcessText, construct_text. simpl defaultPostProcessRules.
  simpl customPostProcessRules. rewrite !app_nil_r.
  rewrite run_builtinRules. reflexivity.
Qed.

Lemma normalize_spec_fixed (text : jsstring) :
  normalize_spec (normalize_spec text) = normalize_spec text.
Proof.
  unfold normalize_spec.
  set (y := collapse_runs whitespace_class [SP] false (flat_map norm_char text)).
  assert (C : forallb (fun x => negb (special x)) (trim y) = true).
  { unfold trim. apply forallb_trimEnd, forallb_trimStart.
    apply forallb_collapse; [reflexivity | apply flat_map_norm_clean]. }
  assert (T : tidy false (trim y) = true)
    by (apply tidy_trim, collapse_is_tidy).
  rewrite (flat_map_norm_of_clean _ C), (collapse_of_tidy _ _ T).
  apply trim_idem.
Qed.

(** *** The split rules *)

Lemma in_class_upper (c : Z) : in_class upper c = is_upper c.
Proof. unfold in_class, upper, is_upper. simpl. apply orb_false_r. Qed.

Lemma in_class_lower (c : Z) : in_class lower c = is_lower c.
Proof. unfold in_class, lower, is_lower. simpl. apply orb_false_r. Qed.

Lemma upper_not_lower (c : Z) : is_upper c = true -> is_lower c = false.
Proof. unfold is_upper, is_lower. lia. Qed.

Lemma lower_not_upper (c : Z) : is_lower c = true -> is_upper c = false.
Proof. unfold is_upper, is_lower. lia. Qed.

(** A greedy atom followed by something that cannot start inside the run
    takes the whole run or fails: backtracking never helps. *)
Lemma greedy_whole_run {R : Type} (cl : charclass) (k : jsstring -> option R)
      (s : jsstring) :
  (forall c t, in_class cl c = true -> k (c :: t) = None) ->
  forall min,
    greedy cl k min s
    = if (min <=? runlen cl s)%nat
      then match k (skipn (runlen cl s) s) with
           | Some r => Some (runlen cl s, r)
           | None => None
           end
      else None.
Proof.
  intros D. induction s as [|c s IH]; intros min.
  - simpl. destruct min; reflexivity.
  - cbn [greedy runlen]. destruct (in_class cl c) eqn:C.
    + rewrite IH. cbn [skipn].
      destruct min as [|m]; cbn [pred Nat.leb].
      * destruct (k (skipn (runlen cl s) s)); [reflexivity|].
        rewrite (D c s C). reflexivity.
      * destruct (m <=? runlen cl s)%nat; [|reflexivity].
        destruct (k (skipn (runlen cl s) s)); reflexivity.
    + destruct min; reflexivity.
Qed.

Lemma camel_match (b : bool) (s : jsstring) :
  match_here camel_hump b s
  = if camel_at s then Some [1; 1; lrun (tl (tl s))]%nat else None.
Proof.
  unfold match_here, camel_hump, camel_at, capw. simpl r_bol. cbv iota.
  cbn [r_atoms r_eol m_atoms one plus a_many a_cls a_min exactly andb].
  destruct s as [|x [|u s']]; cbn [exactly tl].
  - reflexivity.
  - rewrite in_class_lower. destruct (is_lower x); reflexivity.
  - rewrite in_class_lower, in_class_upper.
    destruct (is_lower x); [|reflexivity].
    destruct (is_upper u); [|destruct s'; reflexivity]. cbn [andb].
    rewrite greedy_run. unfold lrun.
    destruct s' as [|l s'']; [reflexivity|]. cbn [runlen].
    rewrite in_class_lower. destruct (is_lower l); reflexivity.
Qed.

Lemma pascal_match (b : bool) (s : jsstring) :
  match_here pascal_words b s
  = if pascal_at s
    then Some [1; lrun (tl s); 1; lrun (tl (skipn (lrun (tl s)) (tl s)))]%nat
    else None.
Proof.
  unfold match_here, pascal_words, pascal_at. simpl r_bol. cbv iota.
  cbn [r_atoms r_eol m_atoms one plus a_many a_cls a_min andb].
  destruct s as [|u s']; [reflexivity|]. cbn [exactly tl].
  rewrite in_class_upper. destruct (is_upper u); [|reflexivity]. cbn [andb].
  rewrite greedy_whole_run.
  2:{ intros c t C. cbn [exactly]. rewrite in_class_upper.
      rewrite in_class_lower in C. rewrite (lower_not_upper c C). reflexivity. }
  fold (lrun s'). destruct (1 <=? lrun s')%nat; [|reflexivity]. cbn [andb].
  unfold capw.
  destruct (skipn (lrun s') s') as [|u2 [|l2 s'']]; cbn [exactly tl].
  - reflexivity.
  - rewrite in_class_upper. destruct (is_upper u2); reflexivity.
  - rewrite in_class_upper. destruct (is_upper u2); [|reflexivity]. cbn [andb].
    rewrite greedy_run. unfold lrun. cbn [runlen].
    rewrite in_class_lower. destruct (is_lower l2); reflexivity.
Qed.

Lemma replace_go_skip (r : regex) (tpl whole : jsstring) :
  forall k s pos,
    (k <= List.length s)%nat ->
    exists pos',
      replace_go r tpl whole pos k s = replace_go r tpl whole pos' 0 (skipn k s).
Proof.
  induction k as [|k IH]; intros s pos L.
  - exists pos. reflexivity.
  - destruct s as [|c s]; [simpl in L; lia|]. simpl in L.
    destruct (IH s (S pos)) as [pos' E]; [lia|].
    exists pos'. cbn [replace_go skipn]. exact E.
Qed.

Lemma replace_go_here (r : regex) (tpl whole : jsstring) (pos k : nat)
      (c : Z) (s : jsstring) (ns : list nat) :
  match_here r (Nat.eqb pos 0) (c :: s) = Some ns ->
  total ns = S k ->
  replace_go r tpl whole pos 0 (c :: s)
  = substitute r tpl whole pos ns (c :: s) ++ replace_go r tpl whole (S pos) k s.
Proof. intros M T. cbn [replace_go]. rewrite M, T. reflexivity. Qed.

Lemma subst_two_groups (m b a c1 c2 : jsstring) :
  GetSubstitution m b a [c1; c2] (lit "$1 $2") = c1 ++ SP :: c2.
Proof.
  transitivity (c1 ++ SP :: c2 ++ []); [vm_compute; reflexivity|].
  rewrite app_nil_r. reflexivity.
Qed.

Lemma runlen_le (cl : charclass) (s : jsstring) :
  (runlen cl s <= List.length s)%nat.
Proof.
  induction s as [|c s IH]; simpl; [lia|].
  destruct (in_class cl c); simpl; lia.
Qed.

Lemma run_all_lower (s : jsstring) :
  forallb is_lower (firstn (lrun s) s) = true.
Proof.
  unfold lrun. induction s as [|c s IH]; [reflexivity|].
  cbn [runlen]. rewrite in_class_lower.
  destruct (is_lower c) eqn:E; [|reflexivity].
  cbn [firstn forallb]. rewrite E, IH. reflexivity.
Qed.

Lemma run_stops (s : jsstring) :
  match skipn (lrun s) s with
  | c :: _ => is_lower c = false
  | [] => True
  end.
Proof.
  unfold lrun. induction s as [|c s IH]; [exact I|].
  cbn [runlen]. rewrite in_class_lower.
  destruct (is_lower c) eqn:E; [exact IH | exact E].
Qed.

Lemma lrun_after_lowers (ls r : jsstring) :
  forallb is_lower ls = true -> lrun (ls ++ r) = (List.length ls + lrun r)%nat.
Proof.
  unfold lrun. induction ls as [|l ls IH]; [reflexivity|].
  cbn [forallb]. intros H. apply andb_prop in H as [Hl Hs].
  cbn [app runlen]. rewrite in_class_lower, Hl, (IH Hs). reflexivity.
Qed.

Lemma lrun_not_lower (c : Z) (s : jsstring) :
  is_lower c = false -> lrun (c :: s) = 0%nat.
Proof.
  intros H. unfold lrun. cbn [runlen]. rewrite in_class_lower, H. reflexivity.
Qed.

(** The pascal pass where the pattern matches: the two words are copied
    with a space between them and the scan resumes after the second. *)
Lemma pascal_step_match (whole : jsstring) (pos : nat) (u : Z) (s : jsstring) :
  pascal_at (u :: s) = true ->
  exists u2 s2 pos',
    skipn (lrun s) s = u2 :: s2
    /\ is_upper u = true /\ is_upper u2 = true
    /\ (1 <= lrun s)%nat /\ (1 <= lrun s2)%nat
    /\ replace_go pascal_words (lit "$1 $2") whole pos 0 (u :: s)
       = u :: firstn (lrun s) s ++ SP :: u2 :: firstn (lrun s2) s2
           ++ replace_go pascal_words (lit "$1 $2") whole pos' 0
                         (skipn (lrun s2) s2).
Proof.
  intros M. pose proof M as M'. unfold pascal_at in M'.
  apply andb_prop in M' as [M' Hc]. apply andb_prop in M' as [Hu Ha].
  apply Nat.leb_le in Ha.
  destruct (skipn (lrun s) s) as [|u2 [|l2 s3]] eqn:E; try discriminate Hc.
  cbn [capw] in Hc. apply andb_prop in Hc as [Hu2 Hl2].
  assert (Hb : (1 <= lrun (l2 :: s3))%nat).
  { unfold lrun. cbn [runlen]. rewrite in_class_lower, Hl2. lia. }
  pose proof (firstn_skipn (lrun s) s) as Fs. rewrite E in Fs.
  pose proof (run_all_lower s) as La.
  assert (Ls : List.length s
               = (lrun s + S (List.length (l2 :: s3)))%nat).
  { rewrite <- Fs at 1. rewrite length_app, length_firstn.
    pose proof (runlen_le lower s) as Q. fold (lrun s) in Q.
    cbn [List.length]. lia. }
  pose proof (runlen_le lower (l2 :: s3)) as Lb. fold (lrun (l2 :: s3)) in Lb.
  remember (lrun s) as a eqn:Ea. remember (lrun (l2 :: s3)) as b eqn:Eb.
  destruct (replace_go_skip pascal_words (lit "$1 $2") whole
              (a + S b)%nat s (S pos))
    as [pos' Sk]; [lia|].
  exists u2, (l2 :: s3), pos'. rewrite <- Eb.
  repeat (split; [assumption || reflexivity|]).
  rewrite (replace_go_here _ _ _ _ (a + S b) _ _ [1; a; 1; b]%nat).
  2:{ rewrite pascal_match, M. cbn [tl]. rewrite <- Ea, E. cbn [tl].
      rewrite <- Eb. reflexivity. }
  2:{ cbn [total fold_right]. lia. }
  rewrite Sk. unfold substitute, captures.
  cbn [r_groups pascal_words map]. rewrite subst_two_groups.
  unfold capture. cbn [fst snd firstn skipn total fold_right].
  rewrite !Nat.add_0_r. cbn [Nat.add firstn skipn].
  rewrite E. cbn [firstn].
  replace (a + S b)%nat with (S b + a)%nat by lia.
  rewrite <- skipn_skipn, E. cbn [skipn].
  rewrite <- app_assoc. reflexivity.
Qed.

Lemma pascal_step_copy (whole : jsstring) (pos : nat) (c : Z) (s : jsstring) :
  pascal_at (c :: s) = false ->
  replace_go pascal_words (lit "$1 $2") whole pos 0 (c :: s)
  = c :: replace_go pascal_words (lit "$1 $2") whole (S pos) 0 s.
Proof. intros M. cbn [replace_go]. rewrite pascal_match, M. reflexivity. Qed.

(** The camel pass where the pattern matches. *)
Lemma camel_step_match (whole : jsstring) (pos : nat) (x : Z) (s : jsstring) :
  camel_at (x :: s) = true ->
  exists u s2 pos',
    s = u :: s2
    /\ is_lower x = true /\ is_upper u = true /\ (1 <= lrun s2)%nat
    /\ replace_go camel_hump (lit "$1 $2") whole pos 0 (x :: s)
       = x :: SP :: u :: firstn (lrun s2) s2
           ++ replace_go camel_hump (lit "$1 $2") whole pos' 0
                         (skipn (lrun s2) s2).
Proof.
  intros M. pose proof M as M'. unfold camel_at in M'.
  apply andb_prop in M' as [Hx Hc].
  destruct s as [|u [|l2 s3]]; try discriminate Hc.
  cbn [capw] in Hc. apply andb_prop in Hc as [Hu Hl2].
  assert (Hb : (1 <= lrun (l2 :: s3))%nat).
  { unfold lrun. cbn [runlen]. rewrite in_class_lower, Hl2. lia. }
  pose proof (runlen_le lower (l2 :: s3)) as Lb. fold (lrun (l2 :: s3)) in Lb.
  remember (lrun (l2 :: s3)) as b eqn:Eb.
  destruct (replace_go_skip camel_hump (lit "$1 $2") whole
              (S b) (u :: l2 :: s3) (S pos))
    as [pos' Sk]; [cbn [List.length] in *; lia|].
  exists u, (l2 :: s3), pos'. rewrite <- Eb.
  repeat (split; [assumption || reflexivity|]).
  rewrite (replace_go_here _ _ _ _ (S b) _ _ [1; 1; b]%nat).
  2:{ rewrite camel_match, M. cbn [tl]. rewrite <- Eb. reflexivity. }
  2:{ cbn [total fold_right]. lia. }
  rewrite Sk. unfold substitute, captures.
  cbn [r_groups camel_hump map]. rewrite subst_two_groups.
  unfold capture. cbn [fst snd firstn skipn total fold_right].
  rewrite !Nat.add_0_r. cbn [Nat.add firstn skipn app]. reflexivity.
Qed.

Lemma camel_step_copy (whole : jsstring) (pos : nat) (c : Z) (s : jsstring) :
  camel_at (c :: s) = false ->
  replace_go camel_hump (lit "$1 $2") whole pos 0 (c :: s)
  = c :: replace_go camel_hump (lit "$1 $2") whole (S pos) 0 s.
Proof. intros M. cbn [replace_go]. rewrite camel_match, M. reflexivity. Qed.

Local Abbreviation P1 w pos s :=
  (replace_go pascal_words (lit "$1 $2") w pos 0 s) (only parsing).
Local Abbreviation C1 w pos s :=
  (replace_go camel_hump (lit "$1 $2") w pos 0 s) (only parsing).

Lemma length_induction (P : jsstring -> Prop) :
  (forall s, (forall t, (List.length t < List.length s)%nat -> P t) -> P s) ->
  forall s, P s.
Proof.
  intros H s.
  assert (G : forall n t, (List.length t < n)%nat -> P t).
  { induction n as [|n IH]; intros t L; [lia|].
    apply H. intros t' L'. apply IH. lia. }
  apply (G (S (List.length s))). lia.
Qed.

Lemma pascal_head (w : jsstring) (pos : nat) (s : jsstring) :
  hd_error (P1 w pos s) = hd_error s.
Proof.
  destruct s as [|c s]; [reflexivity|].
  destruct (pascal_at (c :: s)) eqn:M.
  - destruct (pascal_step_match w pos c s M) as (u2 & s2 & pos' & _ & _ & _ & _ & _ & E).
    rewrite E. reflexivity.
  - rewrite pascal_step_copy by exact M. reflexivity.
Qed.

Lemma camel_head (w : jsstring) (pos : nat) (s : jsstring) :
  hd_error (C1 w pos s) = hd_error s.
Proof.
  destruct s as [|c s]; [reflexivity|].
  destruct (camel_at (c :: s)) eqn:M.
  - destruct (camel_step_match w pos c s M) as (u & s2 & pos' & _ & _ & _ & _ & E).
    rewrite E. reflexivity.
  - rewrite camel_step_copy by exact M. reflexivity.
Qed.

Lemma capw_heads (c : Z) (a b : jsstring) :
  hd_error a = hd_error b -> capw (c :: a) = capw (c :: b).
Proof. destruct a, b; simpl; intros H; try discriminate H; congruence. Qed.

Lemma pascal_at_capw (s : jsstring) : pascal_at s = true -> capw s = true.
Proof.
  destruct s as [|u s]; [discriminate|]. unfold pascal_at. intros H.
  apply andb_prop in H as [H _]. apply andb_prop in H as [Hu Ha].
  apply Nat.leb_le in Ha. unfold lrun in Ha.
  destruct s as [|l s]; [simpl in Ha; lia|]. cbn [runlen] in Ha.
  rewrite in_class_lower in Ha. cbn [capw]. rewrite Hu.
  destruct (is_lower l); [reflexivity | lia].
Qed.

(** The passes do not make a capitalized word start where none did. *)
Lemma capw_pascal (w : jsstring) (pos : nat) (s : jsstring) :
  capw (P1 w pos s) = true -> capw s = true.
Proof.
  destruct s as [|c s]; [discriminate|].
  destruct (pascal_at (c :: s)) eqn:M; [intros _; apply pascal_at_capw, M|].
  rewrite pascal_step_copy by exact M.
  rewrite (capw_heads c _ s (pascal_head w (S pos) s)). trivial.
Qed.

Lemma capw_camel (w : jsstring) (pos : nat) (s : jsstring) :
  capw (C1 w pos s) = true -> capw s = true.
Proof.
  destruct s as [|c s]; [discriminate|].
  destruct (camel_at (c :: s)) eqn:M.
  - destruct (camel_step_match w pos c s M) as (u & s2 & pos' & _ & Hx & _ & _ & E).
    rewrite E. cbn [capw]. rewrite (lower_not_upper c Hx). discriminate.
  - rewrite camel_step_copy by exact M.
    rewrite (capw_heads c _ s (camel_head w (S pos) s)). trivial.
Qed.

Lemma pascal_at_lower (l : Z) (s : jsstring) :
  is_lower l = true -> pascal_at (l :: s) = false.
Proof. intros H. unfold pascal_at. rewrite (lower_not_upper l H). reflexivity. Qed.

Lemma capw_lower (l : Z) (s : jsstring) :
  is_lower l = true -> capw (l :: s) = false.
Proof.
  intros H. unfold capw. rewrite (lower_not_upper l H). destruct s; reflexivity.
Qed.

(** Lowercase letters are copied by the pascal pass. *)
Lemma pascal_lowers (ls r : jsstring) :
  forallb is_lower ls = true ->
  forall w pos, exists pos', P1 w pos (ls ++ r) = ls ++ P1 w pos' r.
Proof.
  induction ls as [|l ls IH]; intros H w pos; [exists pos; reflexivity|].
  cbn [forallb] in H. apply andb_prop in H as [Hl Hs].
  destruct (IH Hs w (S pos)) as [pos' E]. exists pos'.
  cbn [app]. rewrite pascal_step_copy by (apply pascal_at_lower, Hl).
  rewrite E. reflexivity.
Qed.

Lemma hump_lowers (ls r : jsstring) :
  forallb is_lower ls = true ->
  hump (ls ++ r) = (negb (is_empty ls) && capw r) || hump r.
Proof.
  induction ls as [|l ls IH]; [reflexivity|].
  cbn [forallb]. intros H. apply andb_prop in H as [Hl Hs].
  cbn [app hump]. rewrite Hl, (IH Hs). cbn [andb is_empty negb].
  destruct ls as [|l2 ls]; [reflexivity|].
  cbn [forallb] in Hs. apply andb_prop in Hs as [Hl2 _].
  cbn [app]. rewrite (capw_lower l2 _ Hl2). reflexivity.
Qed.

Lemma danger_lowers (ls r : jsstring) :
  forallb is_lower ls = true ->
  danger (ls ++ r) = (negb (is_empty ls) && pascal_at r) || danger r.
Proof.
  induction ls as [|l ls IH]; [reflexivity|].
  cbn [forallb]. intros H. apply andb_prop in H as [Hl Hs].
  cbn [app danger]. rewrite Hl, (IH Hs). cbn [andb is_empty negb].
  destruct ls as [|l2 ls]; [reflexivity|].
  cbn [forallb] in Hs. apply andb_prop in Hs as [Hl2 _].
  cbn [app]. rewrite (pascal_at_lower l2 _ Hl2). reflexivity.
Qed.

Lemma skipn_after (ls r : jsstring) : skipn (List.length ls) (ls ++ r) = r.
Proof. induction ls as [|l ls IH]; [reflexivity | exact IH]. Qed.

Lemma lrun_of_head (a b : jsstring) :
  hd_error a = hd_error b -> lrun b = 0%nat -> lrun a = 0%nat.
Proof.
  unfold lrun. destruct a as [|x a], b as [|y b]; simpl; intros H;
    try discriminate H; try reflexivity.
  injection H as <-. destruct (in_class lower x); [discriminate | reflexivity].
Qed.

Lemma lrun_after_run (s : jsstring) : lrun (skipn (lrun s) s) = 0%nat.
Proof.
  pose proof (run_stops s) as H. destruct (skipn (lrun s) s) as [|c t].
  - reflexivity.
  - apply lrun_not_lower, H.
Qed.

(** The output of the pascal pass never starts with two capitalized words. *)
Lemma pascal_not_at_output (s : jsstring) :
  forall w pos, pascal_at (P1 w pos s) = false.
Proof.
  intros w pos. destruct s as [|c s]; [reflexivity|].
  destruct (pascal_at (c :: s)) eqn:M.
  - destruct (pascal_step_match w pos c s M)
      as (u2 & s2 & pos' & Es & Hu & Hu2 & Ha & Hb & E).
    rewrite E. unfold pascal_at.
    rewrite (lrun_after_lowers _ _ (run_all_lower s)).
    rewrite (lrun_not_lower SP) by reflexivity. rewrite Nat.add_0_r.
    rewrite skipn_after. cbn [capw]. rewrite !andb_false_r. reflexivity.
  - rewrite pascal_step_copy by exact M.
    destruct (pascal_at (c :: P1 w (S pos) s)) eqn:M'; [|reflexivity].
    exfalso. unfold pascal_at in M, M'.
    apply andb_prop in M' as [M' Hc]. apply andb_prop in M' as [Hu Ha].
    rewrite Hu in M. cbn [andb] in M.
    destruct (pascal_lowers (firstn (lrun s) s) (skipn (lrun s) s)
                (run_all_lower s) w (S pos)) as [pos' E].
    rewrite firstn_skipn in E. rewrite E in Ha, Hc.
    assert (Z0 : lrun (P1 w pos' (skipn (lrun s) s)) = 0%nat).
    { apply (lrun_of_head _ _ (pascal_head w pos' _)), lrun_after_run. }
    rewrite (lrun_after_lowers _ _ (run_all_lower s)), Z0, Nat.add_0_r in Ha, Hc.
    rewrite skipn_after in Hc. apply capw_pascal in Hc.
    assert (Ll : List.length (firstn (lrun s) s) = lrun s).
    { apply firstn_length_le, runlen_le. }
    rewrite Ll in Ha. rewrite Ha, Hc in M. discriminate M.
Qed.

(** After the pascal pass no lowercase letter is followed by two
    capitalized words. *)
Lemma pascal_no_danger :
  forall s w pos, danger (P1 w pos s) = false.
Proof.
  apply (length_induction (fun s => forall w pos, danger (P1 w pos s) = false)).
  intros s IH w pos. destruct s as [|c s]; [reflexivity|].
  destruct (pascal_at (c :: s)) eqn:M.
  - destruct (pascal_step_match w pos c s M)
      as (u2 & s2 & pos' & Es & Hu & Hu2 & Ha & Hb & E).
    rewrite E. cbn [danger]. rewrite (upper_not_lower c Hu). cbn [andb orb].
    rewrite (danger_lowers _ _ (run_all_lower s)).
    cbn [danger pascal_at]. rewrite (upper_not_lower u2 Hu2).
    change (is_upper SP) with false. change (is_lower SP) with false.
    cbn [andb orb]. rewrite andb_false_r. cbn [orb].
    rewrite (danger_lowers _ _ (run_all_lower s2)).
    rewrite pascal_not_at_output, andb_false_r. cbn [orb].
    apply IH.
    pose proof (firstn_skipn (lrun s) s) as F. rewrite Es in F.
    rewrite <- F. rewrite length_skipn. cbn [List.length].
    rewrite length_app. cbn [List.length]. lia.
  - rewrite pascal_step_copy by exact M. cbn [danger].
    rewrite pascal_not_at_output, andb_false_r. cbn [orb].
    apply IH. cbn [List.length]. lia.
Qed.

Lemma danger_tail (c : Z) (s : jsstring) :
  danger (c :: s) = false -> danger s = false.
Proof. cbn [danger]. intros H. apply orb_false_elim in H as [_ H]. exact H. Qed.

Lemma danger_skipn (n : nat) :
  forall s, danger s = false -> danger (skipn n s) = false.
Proof.
  induction n as [|n IH]; intros s H; [exact H|].
  destruct s as [|c s]; [reflexivity|]. cbn [skipn].
  apply IH, (danger_tail c), H.
Qed.

(** After the camel pass of a text without danger no lowercase letter is
    followed by a capitalized word. *)
Lemma camel_no_hump :
  forall z w pos, danger z = false -> hump (C1 w pos z) = false.
Proof.
  apply (length_induction
           (fun z => forall w pos, danger z = false -> hump (C1 w pos z) = false)).
  intros z IH w pos D. destruct z as [|x s]; [reflexivity|].
  destruct (camel_at (x :: s)) eqn:M.
  - destruct (camel_step_match w pos x s M)
      as (u & s2 & pos' & Es & Hx & Hu & Hb & E).
    rewrite E. subst s. cbn [hump capw].
    change (is_upper SP) with false. change (is_lower SP) with false.
    rewrite (upper_not_lower u Hu). cbn [andb orb]. rewrite andb_false_r.
    cbn [orb].
    rewrite (hump_lowers _ _ (run_all_lower s2)).
    assert (Ne : is_empty (firstn (lrun s2) s2) = false).
    { destruct s2 as [|l s2]; [unfold lrun in Hb; simpl in Hb; lia|].
      destruct (lrun (l :: s2)); [lia | reflexivity]. }
    rewrite Ne. cbn [negb andb].
    assert (D2 : danger (skipn (lrun s2) s2) = false).
    { apply danger_skipn, (danger_tail u), (danger_tail x), D. }
    rewrite (IH (skipn (lrun s2) s2)); [| |exact D2].
    2:{ rewrite length_skipn. cbn [List.length]. lia. }
    rewrite orb_false_r.
    destruct (capw (C1 w pos' (skipn (lrun s2) s2))) eqn:Cw; [|reflexivity].
    exfalso. apply capw_camel in Cw.
    cbn [danger] in D. apply orb_false_elim in D as [D _].
    rewrite Hx in D. cbn [andb] in D. unfold pascal_at in D.
    rewrite Hu, Cw in D. apply Nat.leb_le in Hb. rewrite Hb in D.
    discriminate D.
  - rewrite camel_step_copy by exact M. cbn [hump].
    rewrite (IH s); [|cbn [List.length]; lia | exact (danger_tail x s D)].
    rewrite orb_false_r.
    destruct (capw (C1 w (S pos) s)) eqn:Cw; [|apply andb_false_r].
    apply capw_camel in Cw. unfold camel_at in M. rewrite Cw in M.
    rewrite andb_true_r in M. rewrite M. reflexivity.
Qed.

Lemma pascal_at_hump (s : jsstring) : pascal_at s = true -> hump s = true.
Proof.
  destruct s as [|u s]; [discriminate|]. unfold pascal_at. intros H.
  apply andb_prop in H as [H Hc]. apply andb_prop in H as [Hu Ha].
  apply Nat.leb_le in Ha. cbn [hump].
  rewrite <- (firstn_skipn (lrun s) s).
  rewrite (hump_lowers _ _ (run_all_lower s)), Hc.
  assert (Ne : is_empty (firstn (lrun s) s) = false).
  { destruct s as [|l s]; [unfold lrun in Ha; simpl in Ha; lia|].
    destruct (lrun (l :: s)); [lia | reflexivity]. }
  rewrite Ne. cbn [negb andb orb]. apply orb_true_r.
Qed.

(** Where no lowercase letter is followed by a capitalized word the split
    rules change nothing. *)
Lemma pascal_of_humpless (z : jsstring) :
  hump z = false -> forall w pos, P1 w pos z = z.
Proof.
  induction z as [|c z IH]; intros H w pos; [reflexivity|].
  assert (M : pascal_at (c :: z) = false).
  { destruct (pascal_at (c :: z)) eqn:M; [|reflexivity].
    rewrite (pascal_at_hump _ M) in H. discriminate H. }
  rewrite pascal_step_copy by exact M.
  cbn [hump] in H. apply orb_false_elim in H as [_ H].
  rewrite (IH H). reflexivity.
Qed.

Lemma camel_of_humpless (z : jsstring) :
  hump z = false -> forall w pos, C1 w pos z = z.
Proof.
  induction z as [|c z IH]; intros H w pos; [reflexivity|].
  cbn [hump] in H. apply orb_false_elim in H as [M H].
  rewrite camel_step_copy by exact M. rewrite (IH H). reflexivity.
Qed.

Lemma hump_trimStart (s : jsstring) : hump s = false -> hump (trimStart s) = false.
Proof.
  induction s as [|c s IH]; [trivial|]. intros H. cbn [trimStart].
  destruct (is_ws c); [|exact H].
  cbn [hump] in H. apply orb_false_elim in H as [_ H]. exact (IH H).
Qed.

Lemma capw_trimEnd (s : jsstring) : capw (trimEnd s) = true -> capw s = true.
Proof.
  destruct s as [|u s]; [discriminate|]. rewrite trimEnd_cons.
  destruct s as [|l s].
  - change (trimEnd []) with (@nil Z). destruct (is_ws u); discriminate.
  - rewrite trimEnd_cons.
    destruct (trimEnd s); [destruct (is_ws l)|]; try discriminate; trivial.
    destruct (is_ws u); discriminate.
Qed.

Lemma hump_trimEnd (s : jsstring) : hump s = false -> hump (trimEnd s) = false.
Proof.
  induction s as [|c s IH]; [trivial|]. intros H.
  cbn [hump] in H. apply orb_false_elim in H as [Hc Hs].
  specialize (IH Hs). rewrite trimEnd_cons.
  destruct (trimEnd s) as [|x t] eqn:E.
  - destruct (is_ws c); [reflexivity|]. cbn [hump capw].
    rewrite andb_false_r. reflexivity.
  - change (hump (c :: x :: t))
      with ((is_lower c && capw (x :: t)) || hump (x :: t)).
    rewrite IH, orb_false_r.
    destruct (capw (x :: t)) eqn:Cw; [|apply andb_false_r].
    rewrite <- E in Cw. apply capw_trimEnd in Cw. rewrite Cw in Hc.
    rewrite andb_true_r in Hc. rewrite Hc. reflexivity.
Qed.

Lemma spaced_prefix (pre s o : jsstring) :
  spaced s o -> spaced (pre ++ s) (pre ++ o).
Proof.
  intros H. induction pre as [|c pre IH]; [exact H|].
  cbn [app]. apply spaced_copy, IH.
Qed.

Lemma spaced_after_lowers (ls : jsstring) (u : Z) (s o : jsstring) :
  forallb is_lower ls = true -> is_empty ls = false -> is_upper u = true ->
  spaced (u :: s) o ->
  spaced (ls ++ u :: s) (ls ++ SP :: o).
Proof.
  intros Hl Hn Hu H. induction ls as [|l ls IH]; [discriminate Hn|].
  cbn [forallb] in Hl. apply andb_prop in Hl as [Hl Hs].
  destruct ls as [|l2 ls].
  - cbn [app]. apply spaced_insert; assumption.
  - change ((l :: l2 :: ls) ++ u :: s) with (l :: ((l2 :: ls) ++ u :: s)).
    change ((l :: l2 :: ls) ++ SP :: o) with (l :: ((l2 :: ls) ++ SP :: o)).
    apply spaced_copy, IH; [exact Hs | reflexivity].
Qed.

Lemma run_not_empty (s : jsstring) :
  (1 <= lrun s)%nat -> is_empty (firstn (lrun s) s) = false.
Proof.
  intros H. destruct s as [|l s]; [unfold lrun in H; simpl in H; lia|].
  destruct (lrun (l :: s)); [lia | reflexivity].
Qed.

Lemma pascal_spaced :
  forall s w pos, spaced s (P1 w pos s).
Proof.
  apply (length_induction (fun s => forall w pos, spaced s (P1 w pos s))).
  intros s IH w pos. destruct s as [|c s]; [apply spaced_nil|].
  destruct (pascal_at (c :: s)) eqn:M.
  - destruct (pascal_step_match w pos c s M)
      as (u2 & s2 & pos' & Es & Hu & Hu2 & Ha & Hb & E).
    rewrite E. apply spaced_copy.
    rewrite <- (firstn_skipn (lrun s) s) at 1. rewrite Es.
    apply spaced_after_lowers;
      [apply run_all_lower | apply run_not_empty, Ha | exact Hu2 |].
    apply spaced_copy.
    rewrite <- (firstn_skipn (lrun s2) s2) at 1.
    apply spaced_prefix, IH.
    pose proof (firstn_skipn (lrun s) s) as F. rewrite Es in F.
    rewrite <- F. rewrite length_skipn. cbn [List.length].
    rewrite length_app. cbn [List.length]. lia.
  - rewrite pascal_step_copy by exact M.
    apply spaced_copy, IH. cbn [List.length]. lia.
Qed.

Lemma camel_spaced :
  forall s w pos, spaced s (C1 w pos s).
Proof.
  apply (length_induction (fun s => forall w pos, spaced s (C1 w pos s))).
  intros s IH w pos. destruct s as [|c s]; [apply spaced_nil|].
  destruct (camel_at (c :: s)) eqn:M.
  - destruct (camel_step_match w pos c s M)
      as (u & s2 & pos' & Es & Hx & Hu & Hb & E).
    rewrite E. subst s. apply spaced_insert; [exact Hx | exact Hu |].
    apply spaced_copy.
    rewrite <- (firstn_skipn (lrun s2) s2) at 1.
    apply spaced_prefix, IH.
    rewrite length_skipn. cbn [List.length]. lia.
  - rewrite camel_step_copy by exact M.
    apply spaced_copy, IH. cbn [List.length]. lia.
Qed.

Lemma spaced_forallb (Q : Z -> bool) (s o : jsstring) :
  Q SP = true -> spaced s o -> forallb Q s = true -> forallb Q o = true.
Proof.
  intros Hsp H. induction H as [|c s o H IH|l u s o Hl Hu H IH]; intros F.
  - reflexivity.
  - cbn [forallb] in *. apply andb_prop in F as [Fc Fs].
    rewrite Fc, (IH Fs). reflexivity.
  - cbn [forallb] in F. apply andb_prop in F as [Fl Fs].
    cbn [forallb]. rewrite Fl, Hsp. exact (IH Fs).
Qed.

Lemma letter_not_ws (c : Z) :
  is_lower c || is_upper c = true -> is_ws c = false.
Proof. unfold is_lower, is_upper, is_ws. lia. Qed.

Lemma spaced_tidy (s o : jsstring) :
  spaced s o -> forall b, tidy b s = true -> tidy b o = true.
Proof.
  intros H. induction H as [|c s o H IH|l u s o Hl Hu H IH]; intros b T.
  - reflexivity.
  - cbn [tidy] in *. destruct (is_ws c).
    + apply andb_prop in T as [T Ts]. rewrite T. exact (IH true Ts).
    + exact (IH false T).
  - assert (Wl : is_ws l = false) by (apply letter_not_ws; rewrite Hl; reflexivity).
    assert (Wu : is_ws u = false)
      by (apply letter_not_ws; rewrite Hu; apply orb_true_r).
    cbn [tidy] in T. rewrite Wl, Wu in T.
    cbn [tidy]. rewrite Wl. change (is_ws SP) with true. cbv iota.
    change (negb false && (SP =? SP)) with true. cbn [andb].
    apply IH. cbn [tidy]. rewrite Wu. exact T.
Qed.

(** The three split rules amount to the pascal pass followed by the camel
    pass, and leave no place where they would insert a space. *)
Lemma run_splitRules (y : jsstring) :
  run_rules splitRules y = camel_pass (pascal_pass y)
  /\ hump (run_rules splitRules y) = false
  /\ spaced y (pascal_pass y)
  /\ spaced (pascal_pass y) (camel_pass (pascal_pass y)).
Proof.
  assert (H : hump (camel_pass (pascal_pass y)) = false)
    by (apply camel_no_hump, pascal_no_danger).
  assert (E : run_rules splitRules y = camel_pass (pascal_pass y)).
  { unfold run_rules, splitRules. cbn [fold_left].
    change (apply_rule y (Rule (FindRegExp pascal_words) (lit "$1 $2")))
      with (pascal_pass y).
    change (apply_rule (pascal_pass y)
                       (Rule (FindRegExp camel_hump) (lit "$1 $2")))
      with (camel_pass (pascal_pass y)).
    unfold apply_rule. cbn [find find_truthy replace].
    unfold Regex.replace at 1. cbn [r_global pascal_words].
    apply pascal_of_humpless, H. }
  rewrite E. repeat split.
  - exact H.
  - apply pascal_spaced.
  - apply camel_spaced.
Qed.

Lemma split_rules_fixed (z : jsstring) :
  hump z = false -> run_rules splitRules z = z.
Proof.
  intros H. destruct (run_splitRules z) as (E & _). rewrite E.
  unfold camel_pass, pascal_pass, Regex.replace. cbn [r_global pascal_words camel_hump].
  rewrite (pascal_of_humpless z H). apply camel_of_humpless, H.
Qed.

(** *** Idempotence *)

Lemma builtin_rules_fixed (z : jsstring) :
  forallb (fun x => negb (special x)) z = true -> tidy false z = true ->
  run_rules builtinRules z = z.
Proof.
  intros C T. rewrite run_builtinRules, (flat_map_norm_of_clean z C).
  apply collapse_of_tidy, T.
Qed.

Lemma postProcessText_split (text : jsstring) :
  _postProcessText (construct_text (Some true) None) text []
  = match text with
    | [] => []
    | _ :: _ => trim (run_rules splitRules (run_rules builtinRules text))
    end.
Proof.
  destruct text as [|c text]; [reflexivity|].
  unfold _postProcessText, construct_text. cbn [defaultPostProcessRules
    customPostProcessRules]. rewrite !app_nil_r, run_rules_app. reflexivity.
Qed.

Lemma split_normal_form_fixed (text : jsstring) :
  let o := trim (run_rules splitRules (run_rules builtinRules text)) in
  trim (run_rules splitRules (run_rules builtinRules o)) = o.
Proof.
  intros o. set (y := run_rules builtinRules text) in *.
  destruct (run_splitRules y) as (E & H & S1 & S2).
  assert (Cy : forallb (fun x => negb (special x)) y = true).
  { unfold y. rewrite run_builtinRules.
    apply forallb_collapse; [reflexivity | apply flat_map_norm_clean]. }
  assert (Ty : tidy false y = true)
    by (unfold y; rewrite run_builtinRules; apply collapse_is_tidy).
  assert (Cz : forallb (fun x => negb (special x)) (run_rules splitRules y) = true).
  { rewrite E.
    apply (spaced_forallb _ _ _ eq_refl S2), (spaced_forallb _ _ _ eq_refl S1), Cy. }
  assert (Tz : tidy false (run_rules splitRules y) = true).
  { rewrite E. apply (spaced_tidy _ _ S2), (spaced_tidy _ _ S1), Ty. }
  assert (Co : forallb (fun x => negb (special x)) o = true)
    by (unfold o, trim; apply forallb_trimEnd, forallb_trimStart, Cz).
  assert (To : tidy false o = true) by (apply tidy_trim, Tz).
  assert (Ho : hump o = false)
    by (unfold o, trim; apply hump_trimEnd, hump_trimStart, H).
  rewrite (builtin_rules_fixed o Co To), (split_rules_fixed o Ho).
  apply trim_idem.
Qed.

(** C7: with the built-in rules and no custom rule, normalizing a second
    time changes nothing; so it is with the eleven rules alone and also
    with the split rules that [splitPascalCase] adds to them. *)
Theorem postProcessText_idempotent (splitPascalCase : option bool)
        (text : jsstring) :
  _postProcessText (construct_text splitPascalCase None)
    (_postProcessText (construct_text splitPascalCase None) text []) []
  = _postProcessText (construct_text splitPascalCase None) text [].
Proof.
  destruct splitPascalCase as [[|]|].
  - rewrite !postProcessText_split.
    destruct text as [|c text]; [reflexivity|].
    pose proof (split_normal_form_fixed (c :: text)) as F. cbv zeta in F.
    destruct (trim (run_rules splitRules (run_rules builtinRules (c :: text))));
      [reflexivity | exact F].
  - change (construct_text (Some false) None) with (construct_text None None).
    rewrite !postProcessText_builtin. apply normalize_spec_fixed.
  - rewrite !postProcessText_builtin. apply normalize_spec_fixed.
Qed.

(** *** Line feeds do not survive the built-in rules *)

Lemma tidy_no_LF (s : jsstring) :
  forall b, tidy b s = true -> has_LF s = false.
Proof.
  induction s as [|c s IH]; intros b T; [reflexivity|].
  cbn [tidy] in T. unfold has_LF. cbn [existsb]. fold (has_LF s).
  destruct (is_ws c) eqn:W.
  - apply andb_prop in T as [T Ts]. apply andb_prop in T as [_ Tc].
    rewrite Z.eqb_eq in Tc. subst c. exact (IH true Ts).
  - rewrite (IH false T), orb_false_r.
    destruct (c =? LF) eqn:E; [|reflexivity].
    rewrite Z.eqb_eq in E. subst c. discriminate W.
Qed.

(** The whitespace rule takes the line feed for whitespace: what the
    built-in rules return is always a single line. *)
Lemma normalized_text_is_one_line (text : jsstring) :
  has_LF (_postProcessText (construct_text None None) text []) = false.
Proof.
  rewrite postProcessText_builtin. unfold normalize_spec.
  apply (tidy_no_LF _ false), tidy_trim, collapse_is_tidy.
Qed.

(** *** The order of the rules *)

(** *** All the occurrences of a pattern *)

Lemma same_lengths_eq (a : list nat) :
  forall b, same_lengths a b = true -> a = b.
Proof.
  induction a as [|x a IH]; intros [|y b] H; try discriminate H.
  - reflexivity.
  - simpl in H. apply andb_prop in H as [E H].
    apply Nat.eqb_eq in E. subst y. rewrite (IH b H). reflexivity.
Qed.

Lemma match_is_eq (r : regex) (pos : nat) (s : jsstring) (ns : list nat) :
  match_is r pos s ns = true -> match_here r (Nat.eqb pos 0) s = Some ns.
Proof.
  unfold match_is. destruct (match_here r (Nat.eqb pos 0) s) as [ms|];
    [|discriminate].
  intros H. rewrite (same_lengths_eq ms ns H). reflexivity.
Qed.

Lemma no_match_eq (r : regex) (pos : nat) (s : jsstring) :
  no_match r pos s = true -> match_here r (Nat.eqb pos 0) s = None.
Proof.
  unfold no_match. destruct (match_here r (Nat.eqb pos 0) s);
    [discriminate | reflexivity].
Qed.

Lemma same_lengths_refl (a : list nat) : same_lengths a a = true.
Proof.
  induction a as [|x a IH]; [reflexivity|].
  simpl. rewrite Nat.eqb_refl. exact IH.
Qed.

(** A match takes characters of the text only. *)
Lemma exactly_length {R : Type} (cl : charclass) (k : jsstring -> option R)
      (len : R -> nat) :
  (forall s r, k s = Some r -> (len r <= List.length s)%nat) ->
  forall n s m r, exactly cl k n s = Some (m, r) ->
                  (m + len r <= List.length s)%nat.
Proof.
  intros K. induction n as [|n IH]; intros s m r H; simpl in H.
  - destruct (k s) eqn:E; [|discriminate]. injection H as <- <-.
    apply K in E. simpl. exact E.
  - destruct s as [|c s]; [discriminate|].
    destruct (in_class cl c); [|discriminate].
    destruct (exactly cl k n s) as [[m' r']|] eqn:E; [|discriminate].
    injection H as <- <-. apply IH in E. simpl. lia.
Qed.

Lemma greedy_length {R : Type} (cl : charclass) (k : jsstring -> option R)
      (len : R -> nat) :
  (forall s r, k s = Some r -> (len r <= List.length s)%nat) ->
  forall s min m r, greedy cl k min s = Some (m, r) ->
                    (m + len r <= List.length s)%nat.
Proof.
  intros K. induction s as [|c s IH]; intros min m r H; simpl in H.
  - destruct min; [|discriminate].
    destruct (k []) eqn:E; [|discriminate]. injection H as <- <-.
    apply K in E. exact E.
  - assert (Stop : match min with
                   | O => match k (c :: s) with
                          | Some r0 => Some (O, r0)
                          | None => None
                          end
                   | S _ => None
                   end = Some (m, r) -> (m + len r <= List.length (c :: s))%nat).
    { destruct min; [|discriminate].
      destruct (k (c :: s)) eqn:E; [|discriminate]. intros H'.
      injection H' as <- <-. apply K in E. exact E. }
    destruct (in_class cl c).
    + destruct (greedy cl k (pred min) s) as [[m' r']|] eqn:E.
      * injection H as <- <-. apply IH in E. simpl. lia.
      * apply Stop, H.
    + apply Stop, H.
Qed.

Lemma m_atoms_length (ats : list atom) (eol : bool) :
  forall s ns, m_atoms ats eol s = Some ns -> (total ns <= List.length s)%nat.
Proof.
  induction ats as [|a rest IH]; intros s ns H; simpl in H.
  - destruct eol; [destruct s|]; try discriminate H;
      injection H as <-; simpl; lia.
  - destruct (a_many a).
    + destruct (greedy (a_cls a) (m_atoms rest eol) (a_min a) s)
        as [[n ms]|] eqn:E; [|discriminate].
      injection H as <-.
      apply (greedy_length _ _ total IH) in E. simpl. exact E.
    + destruct (exactly (a_cls a) (m_atoms rest eol) (a_min a) s)
        as [[n ms]|] eqn:E; [|discriminate].
      injection H as <-.
      apply (exactly_length _ _ total IH) in E. simpl. exact E.
Qed.

Lemma match_here_length (r : regex) (at0 : bool) (s : jsstring) (ns : list nat) :
  match_here r at0 s = Some ns -> (total ns <= List.length s)%nat.
Proof.
  unfold match_here. destruct (r_bol r && negb at0); [discriminate|].
  apply m_atoms_length.
Qed.

(** Dropping the rest of a match is going on behind it. *)
Lemma replace_go_behind (r : regex) (template whole : jsstring) :
  forall k pos s,
    (k <= List.length s)%nat ->
    replace_go r template whole pos k s
    = replace_go r template whole (pos + k) 0 (skipn k s).
Proof.
  induction k as [|k IH]; intros pos s L.
  - rewrite Nat.add_0_r. reflexivity.
  - destruct s as [|c s]; [simpl in L; lia|].
    simpl in L. cbn [replace_go skipn].
    rewrite IH by lia. f_equal. lia.
Qed.

(** However a text is cut at all the occurrences of [r], the global
    replacement is the pieces with every occurrence replaced. *)
Lemma replace_go_pieces (r : regex) (template whole : jsstring)
      (ps : list piece) :
  forall pos s,
    (all_occurrences r pos false s ps = true ->
     replace_go r template whole pos 0 s
     = replace_occurrences r template whole pos s ps)
    /\ (all_occurrences r pos true s ps = true ->
        match s with
        | [] => []
        | c :: s' => c :: replace_go r template whole (S pos) 0 s'
        end = replace_occurrences r template whole pos s ps).
Proof.
  induction ps as [|p ps IH]; intros pos s.
  - split; intros H; cbn [all_occurrences] in H;
      apply andb_prop in H as [E H]; destruct s; try discriminate E.
    + simpl in H. apply no_match_eq in H.
      cbn [replace_go replace_occurrences]. rewrite H. reflexivity.
    + reflexivity.
  - destruct p as [c|ns].
    + split; intros H; cbn [all_occurrences] in H;
        (destruct s as [|c' s']; [discriminate H|]);
        apply andb_prop in H as [H Hr]; apply andb_prop in H as [Hc Hn];
        apply Z.eqb_eq in Hc; subst c';
        cbn [replace_occurrences tl].
      * simpl in Hn. apply no_match_eq in Hn.
        cbn [replace_go]. rewrite Hn.
        rewrite (proj1 (IH (S pos) s') Hr). reflexivity.
      * rewrite (proj1 (IH (S pos) s') Hr). reflexivity.
    + split; intros H; cbn [all_occurrences] in H;
        apply andb_prop in H as [H Hr]; apply andb_prop in H as [Ha Hm];
        [|discriminate Ha].
      apply match_is_eq in Hm.
      pose proof (match_here_length _ _ _ _ Hm) as L.
      cbn [replace_occurrences].
      destruct s as [|c s'].
      * cbn [replace_go]. rewrite Hm.
        assert (T : total ns = 0%nat) by (simpl in L; lia).
        rewrite T in Hr |- *. rewrite Nat.add_0_r in Hr |- *.
        cbn [skipn Nat.eqb] in Hr |- *.
        rewrite <- (proj2 (IH pos []) Hr). reflexivity.
      * cbn [replace_go]. rewrite Hm. f_equal.
        destruct (total ns) as [|k] eqn:T.
        -- rewrite Nat.add_0_r in Hr |- *. cbn [skipn Nat.eqb] in Hr |- *.
           rewrite <- (proj2 (IH pos (c :: s')) Hr). reflexivity.
        -- cbn [Nat.eqb] in Hr. cbn [skipn] in Hr |- *.
           simpl in L.
           rewrite replace_go_behind by lia.
           replace (S pos + k)%nat with (pos + S k)%nat by lia.
           exact (proj1 (IH (pos + S k)%nat (skipn k s')) Hr).
Qed.

(** Every text can be cut so. *)
Lemma all_occurrences_exist (r : regex) :
  forall n s, (List.length s <= n)%nat ->
  forall pos after_empty, exists ps, all_occurrences r pos after_empty s ps = true.
Proof.
  induction n as [|n IH]; intros s L pos ae.
  - destruct s; [|simpl in L; lia].
    destruct ae.
    + exists []. reflexivity.
    + destruct (match_here r (Nat.eqb pos 0) []) as [ns|] eqn:M.
      * pose proof (match_here_length _ _ _ _ M) as T. simpl in T.
        exists [Occurrence ns]. cbn [all_occurrences negb andb].
        unfold match_is. rewrite M, same_lengths_refl.
        assert (Z0 : total ns = 0%nat) by lia. rewrite Z0. reflexivity.
      * exists []. cbn [all_occurrences is_empty andb orb].
        unfold no_match. rewrite M. reflexivity.
  - assert (Keep : forall c s' p, s = c :: s' ->
                     exists ps, all_occurrences r p true s ps = true).
    { intros c s' p ->. simpl in L.
      destruct (IH s' ltac:(lia) (S p) false) as (ps & H).
      exists (Kept c :: ps). cbn [all_occurrences orb andb].
      rewrite Z.eqb_refl, H. reflexivity. }
    destruct ae.
    + destruct s as [|c s'].
      * exists []. reflexivity.
      * exact (Keep c s' pos eq_refl).
    + destruct (match_here r (Nat.eqb pos 0) s) as [ns|] eqn:M.
      * pose proof (match_here_length _ _ _ _ M) as T.
        assert (Mi : match_is r pos s ns = true)
          by (unfold match_is; rewrite M; apply same_lengths_refl).
        destruct (total ns) as [|k] eqn:Tn.
        -- destruct s as [|c s'].
           ++ exists [Occurrence ns]. cbn [all_occurrences negb andb].
              rewrite Mi, Tn. reflexivity.
           ++ destruct (Keep c s' (pos + 0)%nat eq_refl) as (ps & H).
              exists (Occurrence ns :: ps). cbn [all_occurrences negb andb].
              rewrite Mi, Tn. cbn [skipn Nat.eqb andb]. exact H.
        -- destruct s as [|c s']; [simpl in T; lia|]. simpl in L, T.
           destruct (IH (skipn k s') ltac:(rewrite length_skipn; lia)
                        (pos + S k)%nat false) as (ps & H).
           exists (Occurrence ns :: ps). cbn [all_occurrences negb andb].
           rewrite Mi, Tn. cbn [skipn Nat.eqb andb]. exact H.
      * destruct s as [|c s'].
        -- exists []. cbn [all_occurrences is_empty andb orb].
           unfold no_match. rewrite M. reflexivity.
        -- simpl in L. destruct (IH s' ltac:(lia) (S pos) false) as (ps & H).
           exists (Kept c :: ps). cbn [all_occurrences orb].
           unfold no_match. rewrite M, Z.eqb_refl, H. reflexivity.
Qed.

(** A rule with a global RegExp replaces all the occurrences. *)
Lemma apply_global_rule (r : regex) (repl s : jsstring) (ps : list piece) :
  r_global r = true ->
  all_occurrences r 0 false s ps = true ->
  apply_rule s (Rule (FindRegExp r) repl)
  = replace_occurrences r repl s 0 s ps.
Proof.
  intros G H. unfold apply_rule. cbn [find find_truthy Converter.replace].
  unfold Regex.replace. rewrite G.
  exact (proj1 (replace_go_pieces r repl s ps 0%nat s) H).
Qed.

(** Without the g flag the first match is replaced and the rest of the
    text is kept as it is. *)
Lemma replace_first_at (r : regex) (template whole : jsstring) (ns : list nat) :
  forall k p0 s,
    (k <= List.length s)%nat ->
    forallb (fun q => no_match r (p0 + q) (skipn q s)) (seq 0 k) = true ->
    match_is r (p0 + k) (skipn k s) ns = true ->
    replace_first r template whole p0 s
    = firstn k s ++ substitute r template whole (p0 + k) ns (skipn k s)
      ++ skipn (total ns) (skipn k s).
Proof.
  induction k as [|k IH]; intros p0 s L N M.
  - rewrite Nat.add_0_r in *. cbn [skipn firstn app] in *.
    apply match_is_eq in M.
    destruct s; cbn [replace_first]; rewrite M; reflexivity.
  - destruct s as [|c s]; [simpl in L; lia|]. simpl in L.
    cbn [seq forallb] in N. apply andb_prop in N as [N0 N].
    rewrite Nat.add_0_r in N0. cbn [skipn] in N0. apply no_match_eq in N0.
    cbn [replace_first]. rewrite N0. cbn [firstn skipn app]. f_equal.
    replace (p0 + S k)%nat with (S p0 + k)%nat in * by lia.
    apply IH; [lia | | exact M].
    rewrite <- seq_shift, forallb_forall in N.
    apply forallb_forall. intros q Hq.
    specialize (N (S q) (in_map S _ _ Hq)).
    replace (p0 + S q)%nat with (S p0 + q)%nat in N by lia. exact N.
Qed.

Lemma apply_first_rule (r : regex) (repl s : jsstring) (pos : nat)
      (ns : list nat) :
  r_global r = false ->
  first_match r s pos ns = true ->
  apply_rule s (Rule (FindRegExp r) repl)
  = firstn pos s ++ substitute r repl s pos ns (skipn pos s)
    ++ skipn (pos + total ns) s.
Proof.
  intros G F. unfold first_match in F.
  apply andb_prop in F as [F M]. apply andb_prop in F as [L N].
  apply Nat.leb_le in L.
  unfold apply_rule. cbn [find find_truthy Converter.replace].
  unfold Regex.replace. rewrite G.
  rewrite (replace_first_at r repl s ns pos 0%nat s L N M).
  rewrite skipn_skipn. cbn [Nat.add].
  replace (total ns + pos)%nat with (pos + total ns)%nat by lia.
  reflexivity.
Qed.

(** A rule whose [find] is a string replaces the first occurrence, whatever
    the template. *)
Lemma apply_string_rule_any (p repl pre post : jsstring) :
  p <> [] ->
  indexOf p (pre ++ p ++ post) = Some (List.length pre) ->
  apply_rule (pre ++ p ++ post) (Rule (FindString p) repl)
  = pre ++ GetSubstitution p pre post [] repl ++ post.
Proof.
  intros N I. unfold apply_rule. simpl.
  destruct p as [|x p]; [contradiction|].
  unfold replace_string. rewrite I.
  rewrite firstn_app, firstn_all, Nat.sub_diag. simpl firstn.
  rewrite app_nil_r.
  rewrite skipn_app.
  rewrite (skipn_all2 pre) by lia.
  replace (List.length pre + List.length (x :: p) - List.length pre)%nat
    with (List.length (x :: p)) by lia.
  rewrite skipn_app, skipn_all, Nat.sub_diag. reflexivity.
Qed.

Lemma default_rules_global (splitPascalCase : option bool)
      (custom : option (list PostProcessRule)) :
  forallb global_rule
          (defaultPostProcessRules (construct_text splitPascalCase custom))
  = true.
Proof. destruct splitPascalCase as [[|]|]; reflexivity. Qed.

(** C2, as the code has it. The rules are applied in sequence, those of
    [defaultPostProcessRules], then those of the constructor, then those of
    the call, each on the whole output of the one before; the empty text
    is returned as it is. Every rule of [defaultPostProcessRules] is a
    RegExp with the g flag, and the eleven built-in ones replace every
    character they name and every maximal run of whitespace. A rule whose
    [find] is a RegExp with the g flag replaces all the occurrences of its
    pattern: its text can always
    be cut at all the occurrences, found from left to right, each search
    going on where the previous match ended, and however it is cut so, the
    result is the pieces with every occurrence replaced by what the
    template makes of it. A rule whose [find] is a RegExp without the g
    flag replaces the first match and keeps the text after it; a rule
    whose [find] is a string that is not empty replaces its first
    occurrence and keeps the text after it. *)
Theorem rules_run_in_sequence
        (this : TextConfig) (text : jsstring)
        (additionalRules : list PostProcessRule)
        (splitPascalCase : option bool) (custom : option (list PostProcessRule))
        (g r1 : regex) (repl s : jsstring) (pos : nat) (ns : list nat)
        (p pre post : jsstring) :
  r_global g = true ->
  r_global r1 = false ->
  first_match r1 s pos ns = true ->
  p <> [] ->
  indexOf p (pre ++ p ++ post) = Some (List.length pre) ->
  _postProcessText this text additionalRules
    = (if is_empty text then []
       else trim (run_rules additionalRules
                    (run_rules (customPostProcessRules this)
                       (run_rules (defaultPostProcessRules this) text))))
  /\ forallb global_rule
             (defaultPostProcessRules (construct_text splitPascalCase custom))
     = true
  /\ run_rules builtinRules s
     = collapse_runs whitespace_class [SP] false (flat_map norm_char s)
  /\ (exists ps, all_occurrences g 0 false s ps = true)
  /\ (forall ps, all_occurrences g 0 false s ps = true ->
                 apply_rule s (Rule (FindRegExp g) repl)
                 = replace_occurrences g repl s 0 s ps)
  /\ apply_rule s (Rule (FindRegExp r1) repl)
     = firstn pos s ++ substitute r1 repl s pos ns (skipn pos s)
       ++ skipn (pos + total ns) s
  /\ apply_rule (pre ++ p ++ post) (Rule (FindString p) repl)
     = pre ++ GetSubstitution p pre post [] repl ++ post.
Proof.
  intros G G1 F Hp I. split; [|split; [|split; [|split; [|split; [|split]]]]].
  - destruct text as [|c text]; [reflexivity|].
    unfold _postProcessText. rewrite !run_rules_app. reflexivity.
  - apply default_rules_global.
  - apply run_builtinRules.
  - exact (all_occurrences_exist g (List.length s) s (Nat.le_refl _) 0%nat false).
  - intros ps H. apply apply_global_rule; assumption.
  - apply apply_first_rule; assumption.
  - apply apply_string_rule_any; assumption.
Qed.

(** [/DRAFT/g], the rule of the README, and [/DRAFT/]. *)
Lemma rules_run_in_sequence_witness :
  let DRAFT := [one [Ch 68]; one [Ch 82]; one [Ch 65]; one [Ch 70]; one [Ch 84]] in
  let g := RegExp false DRAFT false [] true in
  let r1 := RegExp false DRAFT false [] false in
  let this := construct_text None (Some [Rule (FindRegExp g) (lit "FINAL")]) in
  let additionalRules := [Rule (FindString (lit "FINAL")) (lit "LAST")] in
  let text := lit "DRAFT 1, DRAFT 2" in
  _postProcessText this text additionalRules
    = (if is_empty text then []
       else trim (run_rules additionalRules
                    (run_rules (customPostProcessRules this)
                       (run_rules (defaultPostProcessRules this) text))))
  /\ forallb global_rule
             (defaultPostProcessRules
                (construct_text (Some true) (Some [Rule (FindRegExp g) (lit "FINAL")])))
     = true
  /\ run_rules builtinRules text
     = collapse_runs whitespace_class [SP] false (flat_map norm_char text)
  /\ (exists ps, all_occurrences g 0 false text ps = true)
  /\ (forall ps, all_occurrences g 0 false text ps = true ->
                 apply_rule text (Rule (FindRegExp g) (lit "FINAL"))
                 = replace_occurrences g (lit "FINAL") text 0 text ps)
  /\ apply_rule text (Rule (FindRegExp r1) (lit "FINAL"))
     = firstn 0 text
       ++ substitute r1 (lit "FINAL") text 0 [1; 1; 1; 1; 1]%nat (skipn 0 text)
       ++ skipn (0 + total [1; 1; 1; 1; 1]%nat) text
  /\ apply_rule (lit "a" ++ lit "-" ++ lit "b-c")
                (Rule (FindString (lit "-")) (lit "FINAL"))
     = lit "a" ++ GetSubstitution (lit "-") (lit "a") (lit "b-c") [] (lit "FINAL")
       ++ lit "b-c".
Proof.
  apply (rules_run_in_sequence
           (construct_text None
              (Some [Rule (FindRegExp
                             (RegExp false
                                [one [Ch 68]; one [Ch 82]; one [Ch 65];
                                 one [Ch 70]; one [Ch 84]] false [] true))
                          (lit "FINAL")]))
           (lit "DRAFT 1, DRAFT 2")
           [Rule (FindString (lit "FINAL")) (lit "LAST")]
           (Some true)
           (Some [Rule (FindRegExp
                          (RegExp false
                             [one [Ch 68]; one [Ch 82]; one [Ch 65];
                              one [Ch 70]; one [Ch 84]] false [] true))
                       (lit "FINAL")])
           (RegExp false [one [Ch 68]; one [Ch 82]; one [Ch 65];
                          one [Ch 70]; one [Ch 84]] false [] true)
           (RegExp false [one [Ch 68]; one [Ch 82]; one [Ch 65];
                          one [Ch 70]; one [Ch 84]] false [] false)
           (lit "FINAL") (lit "DRAFT 1, DRAFT 2") 0%nat [1; 1; 1; 1; 1]%nat
           (lit "-") (lit "a") (lit "b-c"));
    try reflexivity; intros H; discriminate H.
Defined.

(** The rule of the README replaces every DRAFT, the same expression
    without the g flag and the string only the first one; a rule of the
    call sees what the rule of the constructor made. *)
Example draft_rules :
  let DRAFT := [one [Ch 68]; one [Ch 82]; one [Ch 65]; one [Ch 70]; one [Ch 84]] in
  let text := lit "DRAFT 1, DRAFT 2" in
  apply_rule text (Rule (FindRegExp (RegExp false DRAFT false [] true)) (lit "FINAL"))
    = lit "FINAL 1, FINAL 2"
  /\ all_occurrences (RegExp false DRAFT false [] true) 0 false text
       ([Occurrence [1; 1; 1; 1; 1]%nat] ++ map Kept (lit " 1, ")
        ++ [Occurrence [1; 1; 1; 1; 1]%nat] ++ map Kept (lit " 2")) = true
  /\ apply_rule text (Rule (FindRegExp (RegExp false DRAFT false [] false)) (lit "FINAL"))
     = lit "FINAL 1, DRAFT 2"
  /\ apply_rule text (Rule (FindString (lit "DRAFT")) (lit "FINAL"))
     = lit "FINAL 1, DRAFT 2"
  /\ _postProcessText
       (construct_text None
          (Some [Rule (FindRegExp (RegExp false DRAFT false [] true)) (lit "FINAL")]))
       text [Rule (FindString (lit "FINAL 2")) (lit "LAST")]
     = lit "FINAL 1, LAST".
Proof. vm_compute. repeat split. Qed.

(** C2 as stated fails: a call-supplied rule whose [find] is the string "-"
    replaces the first "-" only. *)
Lemma string_rule_replaces_first_only :
  _postProcessText (construct_text None None) (lit "a-b-c")
                   [Rule (FindString (lit "-")) (lit "+")]
    = lit "a+b-c"
  /\ _postProcessText (construct_text None None) (lit "a-b-c")
                      [Rule (FindString (lit "-")) (lit "+")]
     <> lit "a+b+c".
Proof. vm_compute. split; [reflexivity | intros H; discriminate H]. Qed.

(** C6, as the code has it. With [splitPascalCase] set the three split rules
    run right after the eleven built-in rules and before the rules of the
    constructor and of the call; without it they do not run. The split
    rules only put spaces between a lowercase letter and the uppercase
    letter after it, and when they are done no lowercase letter is followed
    by a capitalized word; of "AbcDefGhi" the passes make "Abc DefGhi",
    then "Abc Def Ghi". *)
Theorem split_rules_follow_builtin
        (custom additionalRules : list PostProcessRule) (text : jsstring) :
  text <> [] ->
  _postProcessText (construct_text (Some true) (Some custom)) text additionalRules
    = trim (run_rules additionalRules
              (run_rules custom
                 (run_rules splitRules (run_rules builtinRules text))))
  /\ _postProcessText (construct_text (Some false) (Some custom)) text
                      additionalRules
     = trim (run_rules additionalRules
               (run_rules custom (run_rules builtinRules text)))
  /\ spaced text (pascal_pass text)
  /\ spaced (pascal_pass text) (run_rules splitRules text)
  /\ hump (run_rules splitRules text) = false
  /\ run_rules (firstn 1 splitRules) (lit "AbcDefGhi") = lit "Abc DefGhi"
  /\ run_rules (firstn 2 splitRules) (lit "AbcDefGhi") = lit "Abc Def Ghi"
  /\ run_rules splitRules (lit "AbcDefGhi") = lit "Abc Def Ghi"
  /\ _postProcessText (construct_text (Some true) None) (lit "AbcDefGhi") []
     = lit "Abc Def Ghi".
Proof.
  intros Ht. destruct (run_splitRules text) as (E & H & S1 & S2).
  split; [|split; [|split; [|split; [|split]]]].
  - destruct text as [|c text]; [contradiction|].
    unfold _postProcessText, construct_text. simpl defaultPostProcessRules.
    simpl customPostProcessRules. rewrite !run_rules_app. reflexivity.
  - destruct text as [|c text]; [contradiction|].
    unfold _postProcessText, construct_text. simpl defaultPostProcessRules.
    simpl customPostProcessRules. rewrite !run_rules_app. reflexivity.
  - exact S1.
  - rewrite E. exact S2.
  - exact H.
  - vm_compute. repeat split.
Qed.

(** Two passes do all the work: the third split rule never finds a match. *)
Lemma third_split_pass_idle (text : jsstring) :
  run_rules splitRules text = run_rules (firstn 2 splitRules) text.
Proof. destruct (run_splitRules text) as (E & _). rewrite E. reflexivity. Qed.

Lemma split_rules_follow_builtin_witness :
  let custom := [Rule (class_g [Ch 32]) (lit "_")] in
  _postProcessText (construct_text (Some true) (Some custom)) (lit "fooBar") []
    = trim (run_rules []
              (run_rules custom
                 (run_rules splitRules (run_rules builtinRules (lit "fooBar")))))
  /\ _postProcessText (construct_text (Some false) (Some custom)) (lit "fooBar") []
     = trim (run_rules []
               (run_rules custom (run_rules builtinRules (lit "fooBar"))))
  /\ spaced (lit "fooBar") (pascal_pass (lit "fooBar"))
  /\ spaced (pascal_pass (lit "fooBar")) (run_rules splitRules (lit "fooBar"))
  /\ hump (run_rules splitRules (lit "fooBar")) = false
  /\ run_rules (firstn 1 splitRules) (lit "AbcDefGhi") = lit "Abc DefGhi"
  /\ run_rules (firstn 2 splitRules) (lit "AbcDefGhi") = lit "Abc Def Ghi"
  /\ run_rules splitRules (lit "AbcDefGhi") = lit "Abc Def Ghi"
  /\ _postProcessText (construct_text (Some true) None) (lit "AbcDefGhi") []
     = lit "Abc Def Ghi".
Proof.
  apply (split_rules_follow_builtin [Rule (class_g [Ch 32]) (lit "_")] []
                                   (lit "fooBar")).
  intros H; discriminate H.
Defined.

(** C6 as stated fails: with the constructor's rule that turns spaces into
    underscores, "fooBar" becomes "foo_Bar", so the split rules ran before
    the caller's rule; in the order of the claim, caller's rules first and
    split rules last, the result would be "foo Bar". *)
Lemma split_rules_precede_custom_rules :
  let custom := [Rule (class_g [Ch 32]) (lit "_")] in
  _postProcessText (construct_text (Some true) (Some custom)) (lit "fooBar") []
    = lit "foo_Bar"
  /\ trim (run_rules (builtinRules ++ custom ++ [] ++ splitRules) (lit "fooBar"))
     = lit "foo Bar".
Proof. vm_compute. split; reflexivity. Qed.

End Normalization.

(* ================================================================== *)
(** ** Properties of the reconstruction *)

Section Reconstruction.

Local Open Scope list_scope.

Local Arguments join : simpl never.

(** *** The emitted lines are the lines of the recorded blocks *)

Lemma consistent_flushCurrentParagraph (st : state) :
  consistent st -> consistent (flushCurrentParagraph st).
Proof.
  unfold consistent, flushCurrentParagraph. intros H.
  destruct (currentParagraphCollector st); [exact H|].
  simpl. rewrite flat_map_app, H. reflexivity.
Qed.

Lemma consistent_flushTableIfIn (st : state) :
  consistent st -> consistent (flushTableIfIn st).
Proof.
  unfold consistent, flushTableIfIn, flushPotentialTableBlock. intros H.
  destruct (inPotentialTableBlock st); [|exact H].
  destruct (potentialTableBlockLines st) as [|l ls]; [exact H|].
  destruct (2 <=? List.length (l :: ls))%nat; simpl;
    rewrite flat_map_app, H; simpl; rewrite ?app_nil_r; reflexivity.
Qed.

(** An invariant of the four things the loop does to its state is an
    invariant of the loop. The heading branch may skip a line, hence the
    induction on a bound of the number of lines. *)
Lemma loop_invariant (P : state -> Prop) :
  (forall st, P st -> P (flushCurrentParagraph (flushTableIfIn st))) ->
  (forall st t, nonblank t = true -> P st ->
                P (pushHeading t (flushCurrentParagraph (flushTableIfIn st)))) ->
  (forall st l, nonblank l = true -> P st ->
                P (pushTableLine l (flushCurrentParagraph st))) ->
  (forall st t, nonblank t = true -> P st ->
                P (pushParagraphLine t (flushTableIfIn st))) ->
  forall inputLines st, P st -> P (loop st inputLines).
Proof.
  intros Hb Hh Ht Hp inputLines.
  assert (G : forall n ls, (List.length ls <= n)%nat ->
                           forall st, P st -> P (loop st ls)).
  { induction n as [|n IH]; intros ls L st H.
    - destruct ls; [exact H | simpl in L; lia].
    - destruct ls as [|l rest]; [exact H|]. simpl in L. simpl.
      destruct (is_empty (trim l)) eqn:E.
      { apply IH; [lia | apply Hb, H]. }
      assert (N : nonblank (trim l) = true).
      { rewrite trim_is_empty in E. rewrite trim_nonblank.
        destruct (nonblank l); [reflexivity | discriminate E]. }
      destruct (isHeading (trim l) rest).
      { destruct rest as [|next rest'].
        - apply IH; [lia | apply Hh; assumption].
        - destruct (nextLineIsBlankOrEndOfFile (next :: rest')
                    && negb (is_empty next) && is_empty (trim next));
            (apply IH; [simpl in *; lia | apply Hh; assumption]). }
      destruct (isTabular l).
      + apply IH; [lia|]. apply Ht; [|exact H].
        rewrite <- trim_nonblank. exact N.
      + apply IH; [lia|]. apply Hp; assumption. }
  intros st H. apply (G (List.length inputLines)); [lia | exact H].
Qed.

Lemma consistent_loop (inputLines : list jsstring) :
  forall st, consistent st -> consistent (loop st inputLines).
Proof.
  apply loop_invariant.
  - intros st H.
    apply consistent_flushCurrentParagraph, consistent_flushTableIfIn, H.
  - intros st t _ H.
    pose proof (consistent_flushCurrentParagraph _
                  (consistent_flushTableIfIn _ H)) as H'.
    unfold consistent, pushHeading in *. simpl.
    rewrite flat_map_app, H'. reflexivity.
  - intros st l _ H. exact (consistent_flushCurrentParagraph _ H).
  - intros st t _ H. pose proof (consistent_flushTableIfIn _ H) as H'.
    unfold pushParagraphLine. destruct (is_empty t); exact H'.
Qed.

(** Every line [_convertToMarkdownLogic] pushes belongs to a recorded block,
    in order. *)
Lemma output_lines_of_blocks (rawText : jsstring) :
  markdownOutputLines (run rawText) = flat_map block_lines (reconstruct rawText).
Proof.
  unfold reconstruct, run.
  apply consistent_flushCurrentParagraph, consistent_flushTableIfIn,
        consistent_loop.
  reflexivity.
Qed.

(** *** What was emitted before does not influence the loop *)

Lemma frame_flushCurrentParagraph o b (st : state) :
  flushCurrentParagraph (frame o b st) = frame o b (flushCurrentParagraph st).
Proof.
  destruct st as [out para inT tbl bl].
  unfold flushCurrentParagraph, frame. simpl.
  destruct para; [reflexivity|].
  simpl. rewrite !app_assoc. reflexivity.
Qed.

Lemma frame_flushTableIfIn o b (st : state) :
  flushTableIfIn (frame o b st) = frame o b (flushTableIfIn st).
Proof.
  destruct st as [out para inT tbl bl].
  unfold flushTableIfIn, flushPotentialTableBlock, frame. simpl.
  destruct inT; [|reflexivity].
  destruct tbl as [|l [|l2 ls]]; simpl; rewrite <- ?app_assoc; reflexivity.
Qed.

Lemma frame_finish o b (st : state) :
  finish (frame o b st) = frame o b (finish st).
Proof.
  unfold finish. rewrite frame_flushTableIfIn. apply frame_flushCurrentParagraph.
Qed.

Lemma frame_loop o b (inputLines : list jsstring) :
  forall st, loop (frame o b st) inputLines = frame o b (loop st inputLines).
Proof.
  assert (G : forall n ls, (List.length ls <= n)%nat ->
                forall st, loop (frame o b st) ls = frame o b (loop st ls)).
  { induction n as [|n IH]; intros ls L st.
    - destruct ls; [reflexivity | simpl in L; lia].
    - destruct ls as [|l rest]; [reflexivity|]. simpl in L. simpl.
      rewrite frame_flushTableIfIn, frame_flushCurrentParagraph.
      destruct (is_empty (trim l)) eqn:E; [apply IH; lia|].
      assert (Hh : pushHeading (trim l)
                     (frame o b (flushCurrentParagraph (flushTableIfIn st)))
                   = frame o b (pushHeading (trim l)
                                  (flushCurrentParagraph (flushTableIfIn st)))).
      { unfold pushHeading, frame. simpl. rewrite !app_assoc. reflexivity. }
      rewrite Hh.
      destruct (isHeading (trim l) rest).
      { destruct rest as [|next rest']; [apply IH; lia|].
        destruct (nextLineIsBlankOrEndOfFile (next :: rest')
                  && negb (is_empty next) && is_empty (trim next));
          apply IH; simpl in *; lia. }
      destruct (isTabular l).
      + rewrite frame_flushCurrentParagraph.
        change (pushTableLine l (frame o b (flushCurrentParagraph st)))
          with (frame o b (pushTableLine l (flushCurrentParagraph st))).
        apply IH; lia.
      + unfold pushParagraphLine. rewrite E.
        match goal with
        | |- loop ?a _ = frame o b (loop ?c _) =>
            change a with (frame o b c)
        end.
        apply IH; lia. }
  intros st. apply (G (List.length inputLines)). lia.
Qed.


(** C1 as stated fails: the blocks it lists are produced neither from the
    normalized text nor from the raw text. *)
Lemma scenario_blocks_differ :
  let claimed := [ Heading (lit "TOTAL DUE");
                   Paragraph (lit "Please pay within 30 days.");
                   Paragraph (lit "Amount:   100   USD") ] in
  reconstruct (_postProcessText (construct_text None None) scenario []) <> claimed
  /\ reconstruct scenario <> claimed.
Proof. vm_compute. split; intros H; discriminate H. Qed.

(** C1, as the code has it: on the scenario's text [_convertToMarkdownLogic]
    yields the heading, the single tabular line "Please   pay    within 30
    days." degraded to a paragraph (one line, so no fenced block), and the
    last line as a second heading (short, no final punctuation, followed by
    the blank last line). *)
Theorem scenario_reconstruction :
  reconstruct scenario
  = [ Heading (lit "TOTAL DUE");
      Paragraph (lit "Please   pay    within 30 days.");
      Heading (lit "Amount:   100   USD") ]
  /\ _convertToMarkdownLogic scenario
     = lit "# TOTAL DUE" ++ [LF; LF] ++ lit "Please   pay    within 30 days."
       ++ [LF; LF] ++ lit "# Amount:   100   USD".
Proof. split; vm_compute; reflexivity. Qed.

(** What the eleven built-in rules make of the scenario's text: one line. *)
Example scenario_normalized :
  _postProcessText (construct_text None None) scenario []
  = lit "TOTAL DUE Please pay within 30 days. Amount: 100 USD".
Proof. vm_compute. reflexivity. Qed.

(** *** Headings *)

Lemma reconstruct_lines (rawText : jsstring) :
  reconstruct rawText = blocks (finish (loop initial (lines_acc [] rawText))).
Proof. unfold reconstruct, run, finish. rewrite split_newline. reflexivity. Qed.

(** A blank line after a heading changes nothing, whether the loop skips it
    (it is not the empty string) or visits it (it is). *)
Lemma heading_then_blank (t blankLine : jsstring) (rest : list jsstring)
      (st : state) :
  is_empty (trim t) = false ->
  isHeading (trim t) (blankLine :: rest) = true ->
  nonblank blankLine = false ->
  loop st (t :: blankLine :: rest)
  = loop (pushHeading (trim t) (flushCurrentParagraph (flushTableIfIn st))) rest.
Proof.
  intros E H B.
  assert (Eb : is_empty (trim blankLine) = true)
    by (rewrite trim_is_empty, B; reflexivity).
  cbn [loop]. rewrite E, H.
  unfold nextLineIsBlankOrEndOfFile. rewrite Eb. simpl.
  destruct (is_empty blankLine); simpl; [|reflexivity].
  f_equal.
  destruct st as [out para inT tbl bl].
  unfold pushHeading, flushTableIfIn, flushPotentialTableBlock,
         flushCurrentParagraph.
  simpl. destruct inT; [destruct tbl as [|l [|l2 ls]]|]; simpl;
    destruct para; reflexivity.
Qed.

(** C3, as the code has it. The line "INVOICE" followed by a blank line
    gives Heading("INVOICE") and then exactly what the text after the blank
    line gives on its own: nothing is emitted for the blank line. A line
    that ends in sentence punctuation is a heading only when it is an
    all-caps line; so "Page 1 of 10." is never one, whatever surrounds it:
    the loop adds it to the pending paragraph. *)
Theorem invoice_heading_and_punctuated_lines
        (blankLine rest line : jsstring) (following : list jsstring)
        (st : state) :
  nonblank blankLine = false ->
  has_LF blankLine = false ->
  test punctuation_end (trim line) = true ->
  isAllCapsLine (trim line) = false ->
  reconstruct (lit "INVOICE" ++ LF :: blankLine ++ LF :: rest)
    = Heading (lit "INVOICE") :: reconstruct rest
  /\ markdownOutputLines (run (lit "INVOICE" ++ LF :: blankLine ++ LF :: rest))
     = lit "# INVOICE" :: [] :: markdownOutputLines (run rest)
  /\ isHeading (trim line) following = false
  /\ loop st (lit "Page 1 of 10." :: following)
     = loop (pushParagraphLine (lit "Page 1 of 10.") (flushTableIfIn st))
            following.
Proof.
  intros B L P C.
  assert (R : run (lit "INVOICE" ++ LF :: blankLine ++ LF :: rest)
              = frame [lit "# INVOICE"; []] [Heading (lit "INVOICE")] (run rest)).
  { unfold run. fold (finish (loop initial (Regex.split newline rest))).
    rewrite <- frame_finish, <- frame_loop. unfold finish. do 2 f_equal.
    rewrite !split_newline.
    rewrite (lines_acc_cut (lit "INVOICE") _ []) by reflexivity.
    rewrite (lines_acc_cut blankLine rest []) by exact L.
    simpl rev. rewrite !app_nil_l.
    rewrite heading_then_blank; [reflexivity|reflexivity|reflexivity|exact B]. }
  split; [|split; [|split]].
  - unfold reconstruct. rewrite R. reflexivity.
  - rewrite R. reflexivity.
  - unfold isHeading, noPunctuationEnd. rewrite C, P. simpl.
    rewrite !andb_false_r. reflexivity.
  - cbn [loop].
    change (trim (lit "Page 1 of 10.")) with (lit "Page 1 of 10.").
    change (is_empty (lit "Page 1 of 10.")) with false.
    assert (H : isHeading (lit "Page 1 of 10.") following = false).
    { unfold isHeading.
      change (isAllCapsLine (lit "Page 1 of 10.")) with false.
      change (noPunctuationEnd (lit "Page 1 of 10.")) with false.
      change (isShortLine (lit "Page 1 of 10.")) with true.
      reflexivity. }
    cbv iota. rewrite H.
    change (isTabular (lit "Page 1 of 10.")) with false.
    reflexivity.
Qed.

Lemma invoice_heading_and_punctuated_lines_witness :
  reconstruct (lit "INVOICE" ++ LF :: lit " " ++ LF :: lit "Total: 5.")
    = Heading (lit "INVOICE") :: reconstruct (lit "Total: 5.")
  /\ markdownOutputLines
       (run (lit "INVOICE" ++ LF :: lit " " ++ LF :: lit "Total: 5."))
     = lit "# INVOICE" :: [] :: markdownOutputLines (run (lit "Total: 5."))
  /\ isHeading (trim (lit "See the next page,")) [lit "for details."] = false
  /\ loop initial [lit "Page 1 of 10."; lit "for details."]
     = loop (pushParagraphLine (lit "Page 1 of 10.") (flushTableIfIn initial))
            [lit "for details."].
Proof.
  apply (invoice_heading_and_punctuated_lines
           (lit " ") (lit "Total: 5.") (lit "See the next page,")
           [lit "for details."] initial); reflexivity.
Defined.

(** C3 as stated fails: "NOTE:" is short and ends in sentence punctuation,
    and it is a heading, being an all-caps line. *)
Lemma punctuated_caps_line_is_heading :
  isShortLine (lit "NOTE:") = true
  /\ test punctuation_end (lit "NOTE:") = true
  /\ reconstruct (lit "NOTE:") = [Heading (lit "NOTE:")]
  /\ _convertToMarkdownLogic (lit "NOTE:") = lit "# NOTE:".
Proof. vm_compute. repeat split. Qed.

(** *** The table heuristic *)

Lemma spaced_words_nonblank (s : jsstring) :
  forall at0, search spaced_words at0 s = true -> nonblank s = true.
Proof.
  induction s as [|c s IH]; intros at0 H; [discriminate H|].
  simpl. destruct (is_ws c) eqn:W; [|reflexivity]. simpl.
  cbn [search] in H.
  assert (M : match_here spaced_words at0 (c :: s) = None).
  { unfold match_here. simpl. rewrite W. reflexivity. }
  rewrite M in H. exact (IH _ H).
Qed.

Lemma tabular_line_not_blank (l : jsstring) :
  hasMultipleSpacesBetweenWords l = true -> is_empty (trim l) = false.
Proof.
  intros H. rewrite trim_is_empty.
  rewrite (spaced_words_nonblank l true H). reflexivity.
Qed.

(** A tabular line that is not a heading goes to the table buffer. *)
Lemma loop_tabular (l : jsstring) (rest : list jsstring) (st : state) :
  hasMultipleSpacesBetweenWords l = true ->
  isHeading (trim l) rest = false ->
  loop st (l :: rest) = loop (pushTableLine l (flushCurrentParagraph st)) rest.
Proof.
  intros T H. cbn [loop].
  rewrite (tabular_line_not_blank l T), H.
  unfold isTabular. rewrite T. reflexivity.
Qed.

Lemma isHeading_before_blank (t blankLine : jsstring) (rest : list jsstring) :
  nonblank blankLine = false ->
  isHeading t (blankLine :: rest) = isHeading t [].
Proof.
  intros B. unfold isHeading, nextLineIsBlankOrEndOfFile.
  rewrite trim_is_empty, B. reflexivity.
Qed.

Lemma isHeading_next_only (t next : jsstring) (rest : list jsstring) :
  isHeading t (next :: rest) = isHeading t [next].
Proof. reflexivity. Qed.

(** C4, as the code has it. Two consecutive lines that each have a run of
    two or more whitespace characters between two other characters, neither
    of them a heading where it stands, at the start of the text and followed
    by a blank line or by the end of the text, are emitted as one
    FencedBlock of those two lines, each without its trailing whitespace;
    one such line alone, not a heading, is emitted as a Paragraph of the
    trimmed line. What follows the blank line gives what it gives on its
    own. *)
Theorem tabular_lines_fenced (l1 l2 l blankLine rest : jsstring) :
  hasMultipleSpacesBetweenWords l1 = true ->
  hasMultipleSpacesBetweenWords l2 = true ->
  hasMultipleSpacesBetweenWords l = true ->
  has_LF l1 = false -> has_LF l2 = false -> has_LF l = false ->
  isHeading (trim l1) [l2] = false ->
  isHeading (trim l2) [] = false ->
  isHeading (trim l) [] = false ->
  nonblank blankLine = false -> has_LF blankLine = false ->
  reconstruct (l1 ++ LF :: l2) = [FencedBlock [trimEnd l1; trimEnd l2]]
  /\ markdownOutputLines (run (l1 ++ LF :: l2))
     = [fence; trimEnd l1; trimEnd l2; fence; []]
  /\ reconstruct (l1 ++ LF :: l2 ++ LF :: blankLine ++ LF :: rest)
     = FencedBlock [trimEnd l1; trimEnd l2] :: reconstruct rest
  /\ reconstruct l = [Paragraph (trim l)]
  /\ markdownOutputLines (run l) = [trim l; []]
  /\ reconstruct (l ++ LF :: blankLine ++ LF :: rest)
     = Paragraph (trim l) :: reconstruct rest.
Proof.
  intros T1 T2 T N1 N2 N H1 H2 H B NB.
  assert (Eb : is_empty (trim blankLine) = true)
    by (rewrite trim_is_empty, B; reflexivity).
  assert (R2 : run (l1 ++ LF :: l2)
               = State [fence; trimEnd l1; trimEnd l2; fence; []] [] false []
                       [FencedBlock [trimEnd l1; trimEnd l2]]).
  { unfold run. rewrite split_newline.
    rewrite (lines_acc_cut l1 l2 []) by exact N1.
    rewrite (lines_acc_line l2 []) by exact N2. simpl rev. rewrite !app_nil_l.
    rewrite (loop_tabular l1 [l2] initial T1 H1).
    rewrite (loop_tabular l2 [] _ T2 H2). reflexivity. }
  assert (R1 : run l = State [trim l; []] [] false [] [Paragraph (trim l)]).
  { unfold run. rewrite split_newline.
    rewrite (lines_acc_line l []) by exact N. simpl rev. rewrite !app_nil_l.
    rewrite (loop_tabular l [] initial T H). reflexivity. }
  assert (R2' : run (l1 ++ LF :: l2 ++ LF :: blankLine ++ LF :: rest)
                = frame [fence; trimEnd l1; trimEnd l2; fence; []]
                        [FencedBlock [trimEnd l1; trimEnd l2]] (run rest)).
  { unfold run. fold (finish (loop initial (Regex.split newline rest))).
    rewrite <- frame_finish, <- frame_loop. unfold finish. do 2 f_equal.
    rewrite !split_newline.
    rewrite (lines_acc_cut l1 _ []) by exact N1.
    rewrite (lines_acc_cut l2 _ []) by exact N2.
    rewrite (lines_acc_cut blankLine rest []) by exact NB.
    simpl rev. rewrite !app_nil_l.
    rewrite (loop_tabular l1 _ initial T1)
      by (rewrite isHeading_next_only; assumption).
    rewrite (loop_tabular l2 _ _ T2)
      by (rewrite isHeading_before_blank; assumption).
    cbn [loop]. rewrite Eb. reflexivity. }
  assert (R1' : run (l ++ LF :: blankLine ++ LF :: rest)
                = frame [trim l; []] [Paragraph (trim l)] (run rest)).
  { unfold run. fold (finish (loop initial (Regex.split newline rest))).
    rewrite <- frame_finish, <- frame_loop. unfold finish. do 2 f_equal.
    rewrite !split_newline.
    rewrite (lines_acc_cut l _ []) by exact N.
    rewrite (lines_acc_cut blankLine rest []) by exact NB.
    simpl rev. rewrite !app_nil_l.
    rewrite (loop_tabular l _ initial T)
      by (rewrite isHeading_before_blank; assumption).
    cbn [loop]. rewrite Eb. reflexivity. }
  unfold reconstruct. rewrite R2, R1, R2', R1'. repeat split; reflexivity.
Qed.

Lemma tabular_lines_fenced_witness :
  reconstruct (lit "Name  Age." ++ LF :: lit "Bob  42.  ")
    = [FencedBlock [trimEnd (lit "Name  Age."); trimEnd (lit "Bob  42.  ")]]
  /\ markdownOutputLines (run (lit "Name  Age." ++ LF :: lit "Bob  42.  "))
     = [fence; trimEnd (lit "Name  Age."); trimEnd (lit "Bob  42.  "); fence; []]
  /\ reconstruct (lit "Name  Age." ++ LF :: lit "Bob  42.  " ++ LF :: lit ""
                  ++ LF :: lit "The end.")
     = FencedBlock [trimEnd (lit "Name  Age."); trimEnd (lit "Bob  42.  ")]
       :: reconstruct (lit "The end.")
  /\ reconstruct (lit "  Sum:   100 USD.") = [Paragraph (trim (lit "  Sum:   100 USD."))]
  /\ markdownOutputLines (run (lit "  Sum:   100 USD."))
     = [trim (lit "  Sum:   100 USD."); []]
  /\ reconstruct (lit "  Sum:   100 USD." ++ LF :: lit "" ++ LF :: lit "The end.")
     = Paragraph (trim (lit "  Sum:   100 USD.")) :: reconstruct (lit "The end.").
Proof.
  apply (tabular_lines_fenced (lit "Name  Age.") (lit "Bob  42.  ")
                              (lit "  Sum:   100 USD.") (lit "") (lit "The end."));
    reflexivity.
Defined.

(** C4 as stated fails: of the two table lines "Name  Age" and "Bob  42"
    the second is a short line without final punctuation at the end of the
    input, hence a heading, and the first is left alone in the table buffer;
    and the single line "Bob  42" is a heading, not a paragraph. *)
Lemma table_lines_become_heading :
  hasMultipleSpacesBetweenWords (lit "Name  Age") = true
  /\ hasMultipleSpacesBetweenWords (lit "Bob  42") = true
  /\ reconstruct (lit "Name  Age" ++ LF :: lit "Bob  42")
     = [Paragraph (lit "Name  Age"); Heading (lit "Bob  42")]
  /\ reconstruct (lit "Bob  42") = [Heading (lit "Bob  42")].
Proof. vm_compute. repeat split. Qed.

(** *** Output for input that is not blank *)

Lemma join_nonblank (sep : jsstring) (ls : list jsstring) :
  nonblank sep = false ->
  nonblank (join sep ls) = existsb nonblank ls.
Proof.
  intros Hs. induction ls as [|x ls IH]; [reflexivity|].
  destruct ls as [|y ls].
  - simpl. rewrite orb_false_r. reflexivity.
  - change (join sep (x :: y :: ls)) with (x ++ sep ++ join sep (y :: ls)).
    rewrite !nonblank_app, Hs, IH. reflexivity.
Qed.

Lemma line_feeds_blank (l : jsstring) :
  forallb (in_class [Ch 10]) l = true -> nonblank l = false.
Proof.
  induction l as [|c l IH]; [reflexivity|].
  simpl. intros H. apply andb_prop in H as [Hc Hl].
  rewrite orb_false_r in Hc. rewrite Z.eqb_eq in Hc. subst c.
  simpl. exact (IH Hl).
Qed.

(** Collapsing the runs of line feeds removes nothing that shows. *)
Lemma replace_go_blank_lines (whole s : jsstring) :
  forall pos skip,
    nonblank (replace_go blank_lines [LF; LF] whole pos skip s)
    = nonblank (skipn skip s).
Proof.
  induction s as [|c s IH]; intros pos skip.
  - destruct skip; reflexivity.
  - destruct skip as [|k]; [|simpl; apply IH].
    cbn [replace_go skipn]. unfold match_here.
    change (r_bol blank_lines && negb (Nat.eqb pos 0)) with false.
    cbv iota. change (r_atoms blank_lines) with [atleast 3 [Ch 10]].
    change (r_eol blank_lines) with false.
    cbn [m_atoms a_many a_cls a_min atleast].
    match goal with
    | |- context [greedy ?a ?k ?m ?x] =>
        destruct (greedy a k m x) as [[n ns]|] eqn:G
    end.
    + apply greedy_took in G as (F & K & L).
      injection K as <-.
      unfold substitute. rewrite GetSubstitution_plain by reflexivity.
      rewrite nonblank_app. change (nonblank [LF; LF]) with false.
      cbn [orb total fold_right]. rewrite Nat.add_0_r.
      destruct n as [|n]; [lia|].
      rewrite IH. simpl in F. apply andb_prop in F as [Fc Fs].
      rewrite orb_false_r, Z.eqb_eq in Fc. subst c.
      rewrite <- (firstn_skipn n s) at 2.
      change (nonblank (10 :: firstn n s ++ skipn n s))
        with (nonblank (firstn n s ++ skipn n s)).
      rewrite nonblank_app, (line_feeds_blank _ Fs). reflexivity.
    + simpl. rewrite IH. reflexivity.
Qed.

Lemma serialize_nonblank (outputLines : list jsstring) :
  nonblank (serialize outputLines) = existsb nonblank outputLines.
Proof.
  unfold serialize, Regex.replace. simpl r_global. cbv iota.
  rewrite trim_nonblank, replace_go_blank_lines. simpl skipn.
  rewrite join_nonblank by reflexivity.
  induction outputLines as [|l ls IH]; [reflexivity|].
  simpl. rewrite trimEnd_nonblank, IH. reflexivity.
Qed.

Lemma well_formed_flushCurrentParagraph (st : state) :
  well_formed st = true -> well_formed (flushCurrentParagraph st) = true.
Proof.
  destruct st as [out para inT tbl bl].
  unfold well_formed, flushCurrentParagraph. simpl. intros H.
  destruct para as [|l ls]; [exact H|]. simpl.
  apply andb_prop in H as [H Hb]. apply andb_prop in H as [H Hi].
  apply andb_prop in H as [Hp Ht].
  rewrite Ht, Hi, forallb_app, Hb. simpl.
  unfold visible. simpl. rewrite trim_nonblank.
  rewrite (join_nonblank [SP] (l :: ls)) by reflexivity.
  simpl in Hp. apply andb_prop in Hp as [Hl _]. simpl. rewrite Hl. reflexivity.
Qed.

Lemma well_formed_flushTableIfIn (st : state) :
  well_formed st = true -> well_formed (flushTableIfIn st) = true.
Proof.
  destruct st as [out para inT tbl bl].
  unfold well_formed, flushTableIfIn, flushPotentialTableBlock. simpl.
  intros H. destruct inT; [|exact H].
  apply andb_prop in H as [H Hb]. apply andb_prop in H as [H Hi].
  apply andb_prop in H as [Hp Ht].
  destruct tbl as [|l [|l2 ls]]; simpl.
  - rewrite Hp, Hb. reflexivity.
  - rewrite Hp, forallb_app, Hb. simpl. unfold visible. simpl.
    rewrite trim_nonblank. simpl in Ht. apply andb_prop in Ht as [Hl _].
    change (join [SP] [l]) with l. rewrite Hl. reflexivity.
  - rewrite Hp, forallb_app, Hb. reflexivity.
Qed.

Lemma well_formed_loop (inputLines : list jsstring) :
  forall st, well_formed st = true -> well_formed (loop st inputLines) = true.
Proof.
  revert inputLines. apply (loop_invariant (fun st => well_formed st = true)).
  - intros st H.
    apply well_formed_flushCurrentParagraph, well_formed_flushTableIfIn, H.
  - intros st t _ H.
    pose proof (well_formed_flushCurrentParagraph _
                  (well_formed_flushTableIfIn _ H)) as H'.
    destruct (flushCurrentParagraph (flushTableIfIn st))
      as [out para inT tbl bl].
    unfold well_formed, pushHeading in *. simpl in *.
    apply andb_prop in H' as [H1 Hb]. rewrite H1, forallb_app, Hb.
    reflexivity.
  - intros st l N H.
    pose proof (well_formed_flushCurrentParagraph _ H) as H'.
    destruct (flushCurrentParagraph st) as [out para inT tbl bl].
    unfold well_formed, pushTableLine in *. simpl in *.
    apply andb_prop in H' as [H1 Hb]. apply andb_prop in H1 as [H1 Hi].
    apply andb_prop in H1 as [Hp Ht].
    rewrite Hp, forallb_app, Ht, Hb. simpl. rewrite N, orb_true_r.
    reflexivity.
  - intros st t N H.
    pose proof (well_formed_flushTableIfIn _ H) as H'.
    destruct (flushTableIfIn st) as [out para inT tbl bl].
    unfold well_formed, pushParagraphLine in *. simpl in *.
    destruct (is_empty t); [exact H'|]. simpl.
    apply andb_prop in H' as [H1 Hb]. apply andb_prop in H1 as [H1 Hi].
    apply andb_prop in H1 as [Hp Ht].
    rewrite forallb_app, Hp, Ht, Hi, Hb. simpl. rewrite N. reflexivity.
Qed.

Lemma productive_flushCurrentParagraph (st : state) :
  productive st = true -> productive (flushCurrentParagraph st) = true.
Proof.
  destruct st as [out para inT tbl bl].
  unfold productive, flushCurrentParagraph. simpl.
  destruct para; [trivial|]. intros _. simpl.
  destruct bl; reflexivity.
Qed.

Lemma productive_flushTableIfIn (st : state) :
  productive st = true -> productive (flushTableIfIn st) = true.
Proof.
  destruct st as [out para inT tbl bl].
  unfold productive, flushTableIfIn, flushPotentialTableBlock. simpl.
  destruct inT; [|trivial].
  destruct tbl as [|l [|l2 ls]]; [trivial| |]; intros _; simpl;
    destruct bl; reflexivity.
Qed.

Lemma productive_pushHeading (t : jsstring) (st : state) :
  productive (pushHeading t st) = true.
Proof. unfold productive, pushHeading. simpl. destruct (blocks st); reflexivity. Qed.

Lemma productive_pushTableLine (l : jsstring) (st : state) :
  productive (pushTableLine l st) = true.
Proof.
  unfold productive, pushTableLine. simpl.
  destruct (potentialTableBlockLines st); simpl; rewrite !orb_true_r; reflexivity.
Qed.

Lemma productive_pushParagraphLine (t : jsstring) (st : state) :
  nonblank t = true -> productive (pushParagraphLine t st) = true.
Proof.
  intros N. unfold productive, pushParagraphLine.
  destruct t as [|c t]; [discriminate N|]. simpl.
  destruct (currentParagraphCollector st); simpl;
    rewrite ?orb_true_r; reflexivity.
Qed.

Lemma productive_loop (inputLines : list jsstring) :
  forall st, productive st = true -> productive (loop st inputLines) = true.
Proof.
  revert inputLines. apply (loop_invariant (fun st => productive st = true)).
  - intros st H.
    apply productive_flushCurrentParagraph, productive_flushTableIfIn, H.
  - intros. apply productive_pushHeading.
  - intros. apply productive_pushTableLine.
  - intros. apply productive_pushParagraphLine. assumption.
Qed.

(** A line that is not blank leaves something emitted or pending. *)
Lemma productive_of_nonblank (inputLines : list jsstring) :
  forall st,
    existsb nonblank inputLines = true ->
    productive (loop st inputLines) = true.
Proof.
  induction inputLines as [|l rest IH]; intros st H; [discriminate H|].
  simpl in H. cbn [loop]. rewrite trim_is_empty.
  destruct (nonblank l) eqn:N; simpl.
  - assert (Nt : nonblank (trim l) = true) by (rewrite trim_nonblank; exact N).
    destruct (isHeading (trim l) rest).
    { destruct rest as [|next rest'].
      - apply productive_loop, productive_pushHeading.
      - destruct (nextLineIsBlankOrEndOfFile (next :: rest')
                  && negb (is_empty next) && is_empty (trim next));
          apply productive_loop, productive_pushHeading. }
    destruct (isTabular l).
    + apply productive_loop, productive_pushTableLine.
    + apply productive_loop, productive_pushParagraphLine, Nt.
  - apply IH. exact H.
Qed.

Lemma finish_emits (st : state) :
  well_formed st = true -> productive st = true ->
  is_empty (blocks (finish st)) = false.
Proof.
  destruct st as [out para inT tbl bl].
  unfold well_formed, productive, finish, flushTableIfIn,
         flushPotentialTableBlock, flushCurrentParagraph.
  simpl. intros W P.
  apply andb_prop in W as [W _]. apply andb_prop in W as [_ Wi].
  destruct bl as [|b bl]; simpl in P.
  - destruct inT.
    + destruct tbl as [|l [|l2 ls]]; simpl.
      * destruct para; [discriminate P | reflexivity].
      * destruct para; reflexivity.
      * destruct para; reflexivity.
    + destruct tbl; [|discriminate Wi]. simpl.
      destruct para; [discriminate P | reflexivity].
  - destruct inT; [destruct tbl as [|l [|l2 ls]]|]; simpl;
      destruct para; reflexivity.
Qed.

Lemma visible_blocks_show (bs : list MarkdownBlock) :
  is_empty bs = false -> forallb visible bs = true ->
  existsb nonblank (flat_map block_lines bs) = true.
Proof.
  destruct bs as [|b bs]; [discriminate|]. intros _ H.
  simpl in H. apply andb_prop in H as [Hb _].
  simpl. rewrite existsb_app. unfold visible in Hb. rewrite Hb. reflexivity.
Qed.

(** For every input with at least one character that is not whitespace,
    [_convertToMarkdownLogic] records at least one block and returns a
    string that is not empty. *)
Lemma output_not_empty (rawText : jsstring) :
  nonblank rawText = true ->
  reconstruct rawText <> [] /\ _convertToMarkdownLogic rawText <> [].
Proof.
  intros N.
  assert (L : existsb nonblank (lines_acc [] rawText) = true)
    by (rewrite lines_acc_nonblank; exact N).
  assert (W : well_formed (loop initial (lines_acc [] rawText)) = true)
    by (apply well_formed_loop; reflexivity).
  assert (P : productive (loop initial (lines_acc [] rawText)) = true)
    by (apply productive_of_nonblank; exact L).
  pose proof (finish_emits _ W P) as E.
  assert (V : forallb visible (blocks (finish (loop initial (lines_acc [] rawText))))
              = true).
  { pose proof (well_formed_flushCurrentParagraph _
                  (well_formed_flushTableIfIn _ W)) as W'.
    unfold well_formed in W'. apply andb_prop in W' as [_ W']. exact W'. }
  rewrite <- reconstruct_lines in E, V.
  split.
  - intros C. rewrite C in E. discriminate E.
  - intros C. pose proof (serialize_nonblank (markdownOutputLines (run rawText))) as S'.
    unfold _convertToMarkdownLogic in C. rewrite C in S'.
    rewrite output_lines_of_blocks, (visible_blocks_show _ E V) in S'.
    discriminate S'.
Qed.

(** What the two conversions hand to [_convertToMarkdownLogic] is trimmed:
    [tidy_newlines] ends with [trim]. *)
Lemma conversions_pass_trimmed_text (cleanedText : jsstring) :
  trim (tidy_newlines cleanedText) = tidy_newlines cleanedText.
Proof. unfold tidy_newlines. apply trim_idem. Qed.

(** A trimmed string that is not empty has a character that shows. *)
Lemma trimmed_nonblank (s : jsstring) :
  s <> [] -> trim s = s -> nonblank s = true.
Proof.
  intros N T. pose proof (trim_is_empty s) as E. rewrite T in E.
  destruct s as [|c s]; [contradiction|].
  destruct (nonblank (c :: s)); [reflexivity | discriminate E].
Qed.

(** C5: for every input that is not empty, [_convertToMarkdownLogic]
    records at least one block and returns a string that is not empty. The
    input is what the method is given by its two callers, [quickConvert] and
    [highAccuracyConvert]: a string that was just trimmed. *)
Theorem nonempty_input_gives_blocks (rawText : jsstring) :
  rawText <> [] ->
  trim rawText = rawText ->
  reconstruct rawText <> [] /\ _convertToMarkdownLogic rawText <> [].
Proof.
  intros N T. apply output_not_empty, trimmed_nonblank; assumption.
Qed.

Lemma nonempty_input_gives_blocks_witness :
  reconstruct (tidy_newlines (lit "  Total due: 100 ")) <> []
  /\ _convertToMarkdownLogic (tidy_newlines (lit "  Total due: 100 ")) <> [].
Proof.
  apply (nonempty_input_gives_blocks (tidy_newlines (lit "  Total due: 100 "))).
  - intros H. discriminate H.
  - reflexivity.
Defined.

(** Called by hand on a string that is not trimmed and shows nothing, the
    method records no block: of one space and a line feed nothing is
    made. *)
Lemma blank_input_gives_nothing :
  lit " " ++ [LF] <> []
  /\ reconstruct (lit " " ++ [LF]) = []
  /\ _convertToMarkdownLogic (lit " " ++ [LF]) = [].
Proof. vm_compute. split; [intros H; discriminate H | split; reflexivity]. Qed.

End Reconstruction.

(* ================================================================== *)
(** ** What the reconstruction keeps and what it returns *)

Section Blocks.

Local Open Scope list_scope.

Local Arguments join : simpl never.

(** *** A rule for the loop

    What the four branches of the loop and the line the heading branch may
    skip each keep true of the state and of a value computed from the lines
    read so far, the loop keeps true. *)
Lemma loop_tracking {A : Type} (P : state -> A -> Prop) (f : A -> jsstring -> A) :
  (forall st a l, nonblank l = false -> P st a ->
                  P (flushCurrentParagraph (flushTableIfIn st)) (f a l)) ->
  (forall st a l, nonblank l = true -> P st a ->
                  P (pushHeading (trim l) (flushCurrentParagraph (flushTableIfIn st)))
                    (f a l)) ->
  (forall st a l, nonblank l = true -> P st a ->
                  P (pushTableLine l (flushCurrentParagraph st)) (f a l)) ->
  (forall st a l, nonblank l = true -> P st a ->
                  P (pushParagraphLine (trim l) (flushTableIfIn st)) (f a l)) ->
  (forall st a l, nonblank l = false -> P st a -> P st (f a l)) ->
  forall inputLines st a, P st a -> P (loop st inputLines) (fold_left f inputLines a).
Proof.
  intros Hb Hh Ht Hp Hs inputLines.
  assert (G : forall n ls, (List.length ls <= n)%nat ->
                forall st a, P st a -> P (loop st ls) (fold_left f ls a)).
  { induction n as [|n IH]; intros ls L st a H.
    - destruct ls; [exact H | simpl in L; lia].
    - destruct ls as [|l rest]; [exact H|]. simpl in L. simpl.
      destruct (is_empty (trim l)) eqn:E.
      { apply IH; [lia|]. apply Hb; [|exact H].
        rewrite trim_is_empty in E. destruct (nonblank l); [discriminate E|reflexivity]. }
      assert (N : nonblank l = true).
      { rewrite trim_is_empty in E.
        destruct (nonblank l); [reflexivity | discriminate E]. }
      destruct (isHeading (trim l) rest).
      { destruct rest as [|next rest'].
        - apply IH; [lia | apply Hh; assumption].
        - destruct (nextLineIsBlankOrEndOfFile (next :: rest')
                    && negb (is_empty next) && is_empty (trim next)) eqn:K.
          + simpl. apply IH; [simpl in *; lia|].
            apply Hs; [|apply Hh; assumption].
            apply andb_prop in K. destruct K as [_ K].
            rewrite trim_is_empty in K. destruct (nonblank next); [discriminate K|reflexivity].
          + apply IH; [simpl in *; lia | apply Hh; assumption]. }
      destruct (isTabular l).
      + apply IH; [lia|]. apply Ht; assumption.
      + apply IH; [lia|]. apply Hp; assumption. }
  intros st a H. apply (G (List.length inputLines)); [lia | exact H].
Qed.

(** *** No visible character is lost *)

Lemma ink_app (a b : jsstring) : ink (a ++ b) = ink a ++ ink b.
Proof. apply filter_app. Qed.

Lemma ink_blank (s : jsstring) : nonblank s = false -> ink s = [].
Proof.
  induction s as [|c s IH]; [reflexivity|]. simpl.
  destruct (is_ws c); simpl; [exact IH | discriminate].
Qed.

Lemma ink_rev (s : jsstring) : ink (rev s) = rev (ink s).
Proof.
  induction s as [|c s IH]; [reflexivity|]. simpl.
  rewrite ink_app, IH. simpl. destruct (is_ws c); simpl; [apply app_nil_r | reflexivity].
Qed.

Lemma ink_trimStart (s : jsstring) : ink (trimStart s) = ink s.
Proof.
  induction s as [|c s IH]; [reflexivity|]. simpl.
  destruct (is_ws c) eqn:E; simpl; [exact IH | rewrite E; reflexivity].
Qed.

Lemma ink_trimEnd (s : jsstring) : ink (trimEnd s) = ink s.
Proof.
  unfold trimEnd. rewrite ink_rev, ink_trimStart, ink_rev. apply rev_involutive.
Qed.

Lemma ink_trim (s : jsstring) : ink (trim s) = ink s.
Proof. unfold trim. rewrite ink_trimEnd. apply ink_trimStart. Qed.

Lemma ink_join_SP (ls : list jsstring) : ink (join [SP] ls) = ink (List.concat ls).
Proof.
  induction ls as [|l ls IH]; [reflexivity|].
  destruct ls as [|l2 ls].
  - unfold join. simpl. rewrite app_nil_r. reflexivity.
  - change (join [SP] (l :: l2 :: ls)) with (l ++ [SP] ++ join [SP] (l2 :: ls)).
    rewrite !ink_app, IH. simpl List.concat. rewrite !ink_app. reflexivity.
Qed.

Lemma ink_concat_trimEnd (ls : list jsstring) :
  ink (List.concat (map trimEnd ls)) = ink (List.concat ls).
Proof.
  induction ls as [|l ls IH]; [reflexivity|]. simpl.
  rewrite !ink_app, ink_trimEnd, IH. reflexivity.
Qed.

Lemma exclusive_flushTableIfIn (st : state) :
  exclusive st = true ->
  exclusive (flushTableIfIn st) = true
  /\ potentialTableBlockLines (flushTableIfIn st) = []
  /\ currentParagraphCollector (flushTableIfIn st) = currentParagraphCollector st
  /\ ink (content (flushTableIfIn st)) = ink (content st).
Proof.
  destruct st as [out para inT tbl bl].
  unfold exclusive, flushTableIfIn, flushPotentialTableBlock, content, pending.
  simpl. intros H. destruct tbl as [|l ls]; simpl in *.
  - destruct inT; simpl; auto.
  - destruct para; [|discriminate H]. destruct inT; [|discriminate H].
    destruct ls as [|l2 ls]; simpl.
    + rewrite flat_map_app. simpl. rewrite !app_nil_r.
      rewrite !ink_app, ink_trim. unfold join. auto.
    + rewrite flat_map_app. simpl flat_map. rewrite !app_nil_r.
      rewrite !ink_app, !ink_trimEnd, ink_concat_trimEnd. auto.
Qed.

Lemma exclusive_flushCurrentParagraph (st : state) :
  exclusive st = true ->
  exclusive (flushCurrentParagraph st) = true
  /\ currentParagraphCollector (flushCurrentParagraph st) = []
  /\ potentialTableBlockLines (flushCurrentParagraph st) = potentialTableBlockLines st
  /\ ink (content (flushCurrentParagraph st)) = ink (content st).
Proof.
  destruct st as [out para inT tbl bl].
  unfold exclusive, flushCurrentParagraph, content, pending. simpl.
  intros H. destruct para as [|p ps]; simpl in *; [auto|].
  destruct tbl; [|discriminate H]. simpl.
  rewrite flat_map_app. simpl. rewrite !app_nil_r, !ink_app, ink_trim, ink_join_SP.
  simpl. rewrite ink_app. auto.
Qed.

Lemma content_pushHeading (t : jsstring) (st : state) :
  currentParagraphCollector st = [] -> potentialTableBlockLines st = [] ->
  content (pushHeading t st) = content st ++ t.
Proof.
  intros C T. unfold content, pending, pushHeading. simpl. rewrite C, T. simpl.
  rewrite flat_map_app. simpl. rewrite !app_nil_r. reflexivity.
Qed.

Lemma content_pushTableLine (l : jsstring) (st : state) :
  currentParagraphCollector st = [] ->
  content (pushTableLine l st) = content st ++ l.
Proof.
  intros C. unfold content, pending, pushTableLine. simpl. rewrite C. simpl.
  rewrite concat_app. simpl. rewrite !app_nil_r, app_assoc. reflexivity.
Qed.

Lemma content_pushParagraphLine (t : jsstring) (st : state) :
  content (pushParagraphLine t st) = content st ++ t.
Proof.
  unfold pushParagraphLine. destruct t as [|c t]; simpl; [symmetry; apply app_nil_r|].
  unfold content, pending. simpl. rewrite concat_app. simpl.
  rewrite !app_nil_r, !app_assoc. reflexivity.
Qed.

Lemma content_preserved (inputLines : list jsstring) :
  forall st d,
    exclusive st = true /\ ink (content st) = ink d ->
    exclusive (loop st inputLines) = true
    /\ ink (content (loop st inputLines))
       = ink (fold_left (fun a l => a ++ l) inputLines d).
Proof.
  apply (loop_tracking
           (fun st d => exclusive st = true /\ ink (content st) = ink d)
           (fun a l => a ++ l)).
  - intros st d l B [X E].
    destruct (exclusive_flushTableIfIn st X) as (X1 & T1 & C1 & K1).
    destruct (exclusive_flushCurrentParagraph _ X1) as (X2 & C2 & T2 & K2).
    split; [exact X2|].
    rewrite K2, K1, E, ink_app, (ink_blank l B), app_nil_r. reflexivity.
  - intros st d l N [X E].
    destruct (exclusive_flushTableIfIn st X) as (X1 & T1 & C1 & K1).
    destruct (exclusive_flushCurrentParagraph _ X1) as (X2 & C2 & T2 & K2).
    split; [exact X2|].
    rewrite content_pushHeading by congruence.
    rewrite !ink_app, ink_trim, K2, K1, E. reflexivity.
  - intros st d l N [X E].
    destruct (exclusive_flushCurrentParagraph _ X) as (X2 & C2 & T2 & K2).
    split.
    + unfold exclusive, pushTableLine. simpl. rewrite C2.
      destruct (potentialTableBlockLines (flushCurrentParagraph st) ++ [l]);
        reflexivity.
    + rewrite content_pushTableLine by exact C2.
      rewrite !ink_app, K2, E. reflexivity.
  - intros st d l N [X E].
    destruct (exclusive_flushTableIfIn st X) as (X1 & T1 & C1 & K1).
    split.
    + unfold pushParagraphLine. destruct (is_empty (trim l)); [exact X1|].
      unfold exclusive. simpl. rewrite T1. reflexivity.
    + rewrite content_pushParagraphLine, !ink_app, ink_trim, K1, E. reflexivity.
  - intros st d l B [X E]. split; [exact X|].
    rewrite ink_app, (ink_blank l B), app_nil_r. exact E.
Qed.

Lemma ink_lines (s : jsstring) :
  forall cur d,
    ink (fold_left (fun a l => a ++ l) (lines_acc cur s) d)
    = ink d ++ ink (rev cur) ++ ink s.
Proof.
  induction s as [|c s IH]; intros cur d; simpl.
  - rewrite ink_app, app_nil_r. reflexivity.
  - destruct (c =? LF) eqn:E.
    + simpl. rewrite IH. simpl. rewrite ink_app.
      apply Z.eqb_eq in E. subst c. simpl. rewrite <- app_assoc. reflexivity.
    + rewrite IH. simpl. rewrite ink_app. simpl.
      destruct (is_ws c); simpl; rewrite <- ?app_assoc; reflexivity.
Qed.

Lemma exclusive_finish (st : state) :
  exclusive st = true ->
  pending (finish st) = [] /\ ink (content (finish st)) = ink (content st).
Proof.
  intros X. unfold finish.
  destruct (exclusive_flushTableIfIn st X) as (X1 & T1 & C1 & K1).
  destruct (exclusive_flushCurrentParagraph _ X1) as (X2 & C2 & T2 & K2).
  split.
  - unfold pending. rewrite C2, T2, T1. reflexivity.
  - rewrite K2. exact K1.
Qed.

Lemma ink_reconstruct (rawText : jsstring) :
  ink (flat_map block_text (reconstruct rawText)) = ink rawText.
Proof.
  rewrite reconstruct_lines.
  destruct (content_preserved (lines_acc [] rawText) initial [])
    as (X & E); [split; reflexivity|].
  destruct (exclusive_finish _ X) as (P & K).
  unfold content in K at 1. rewrite P, app_nil_r in K.
  rewrite K, E, ink_lines. reflexivity.
Qed.

(** X1: the reconstruction loses, adds and reorders no visible character.
    The characters that are not whitespace of the blocks
    [_convertToMarkdownLogic] emits, read in order, are those of its
    input. *)
Theorem reconstruction_keeps_the_text (rawText : jsstring) :
  ink (flat_map block_text (reconstruct rawText)) = ink rawText.
Proof. apply ink_reconstruct. Qed.

(** *** The shape of the emitted blocks *)

Lemma has_LF_rev (s : jsstring) : has_LF (rev s) = has_LF s.
Proof.
  unfold has_LF. induction s as [|c s IH]; [reflexivity|]. simpl.
  rewrite existsb_app, IH. simpl. rewrite orb_false_r. apply orb_comm.
Qed.

Lemma has_LF_trimStart (s : jsstring) :
  has_LF s = false -> has_LF (trimStart s) = false.
Proof.
  induction s as [|c s IH]; [reflexivity|]. simpl. intros H.
  apply orb_false_elim in H. destruct H as [H1 H2].
  destruct (is_ws c); [apply IH, H2|]. simpl. rewrite H1, H2. reflexivity.
Qed.

Lemma has_LF_trimEnd (s : jsstring) :
  has_LF s = false -> has_LF (trimEnd s) = false.
Proof.
  intros H. unfold trimEnd. rewrite has_LF_rev. apply has_LF_trimStart.
  rewrite has_LF_rev. exact H.
Qed.

Lemma has_LF_trim (s : jsstring) : has_LF s = false -> has_LF (trim s) = false.
Proof. intros H. unfold trim. apply has_LF_trimEnd, has_LF_trimStart, H. Qed.

Lemma has_LF_app (a b : jsstring) : has_LF (a ++ b) = has_LF a || has_LF b.
Proof. apply existsb_app. Qed.

Lemma has_LF_join_SP (ls : list jsstring) :
  forallb (fun l => nonblank l && negb (has_LF l)) ls = true ->
  has_LF (join [SP] ls) = false.
Proof.
  induction ls as [|l ls IH]; [reflexivity|]. simpl. intros H.
  apply andb_prop in H. destruct H as [H1 H2].
  apply andb_prop in H1. destruct H1 as [_ H1].
  destruct ls as [|l2 ls].
  - unfold join. destruct (has_LF l); [discriminate H1 | reflexivity].
  - change (join [SP] (l :: l2 :: ls)) with (l ++ [SP] ++ join [SP] (l2 :: ls)).
    rewrite !has_LF_app, (IH H2). destruct (has_LF l); [discriminate H1|reflexivity].
Qed.

Lemma clean_last_trimEnd (s : jsstring) : clean_last (trimEnd s) = true.
Proof.
  unfold clean_last, trimEnd. rewrite rev_involutive. apply clean_head_trimStart.
Qed.

Lemma solid_trim (s : jsstring) :
  nonblank s = true -> has_LF s = false ->
  solid (trim s) = true /\ clean_head (trim s) = true.
Proof.
  intros N L. unfold solid. rewrite trim_nonblank, N, (has_LF_trim s L).
  unfold trim at 1. rewrite clean_last_trimEnd. split; [reflexivity|].
  unfold trim. apply clean_head_trimEnd, clean_head_trimStart.
Qed.

Lemma solid_trimEnd (s : jsstring) :
  nonblank s = true -> has_LF s = false -> solid (trimEnd s) = true.
Proof.
  intros N L. unfold solid.
  rewrite trimEnd_nonblank, N, (has_LF_trimEnd s L), clean_last_trimEnd.
  reflexivity.
Qed.

Lemma held_flushTableIfIn (st : state) :
  held_ok st = true -> held_ok (flushTableIfIn st) = true.
Proof.
  destruct st as [out para inT tbl bl].
  unfold held_ok, flushTableIfIn, flushPotentialTableBlock.
  cbn [currentParagraphCollector potentialTableBlockLines blocks
       inPotentialTableBlock].
  intros H. destruct inT; [|exact H].
  destruct tbl as [|l [|l2 ls]]; [exact H| |];
    apply andb_prop in H; destruct H as [H Hb];
    apply andb_prop in H; destruct H as [Hp Ht].
  - cbn [List.length Nat.leb currentParagraphCollector potentialTableBlockLines
         blocks forallb].
    rewrite Hp, forallb_app, Hb. cbn [forallb block_ok andb].
    cbn [forallb] in Ht. rewrite andb_true_r in Ht. apply andb_prop in Ht.
    destruct Ht as [N L]. apply negb_true_iff in L.
    unfold join. destruct (solid_trim l N L) as [-> ->]. reflexivity.
  - cbn [List.length Nat.leb currentParagraphCollector potentialTableBlockLines
         blocks forallb].
    rewrite Hp, forallb_app, Hb. cbn [forallb block_ok andb].
    rewrite length_map. cbn [List.length Nat.leb].
    rewrite andb_true_r. cbn [andb].
    change (forallb solid (map trimEnd (l :: l2 :: ls)) = true).
    revert Ht. generalize (l :: l2 :: ls) as xs. clear.
    induction xs as [|x xs IH]; [reflexivity|]. cbn [forallb map]. intros H.
    apply andb_prop in H. destruct H as [H Hx].
    apply andb_prop in H. destruct H as [N L]. apply negb_true_iff in L.
    rewrite (solid_trimEnd x N L), (IH Hx). reflexivity.
Qed.

Lemma held_flushCurrentParagraph (st : state) :
  held_ok st = true -> held_ok (flushCurrentParagraph st) = true.
Proof.
  destruct st as [out para inT tbl bl].
  unfold held_ok, flushCurrentParagraph. simpl.
  intros H. destruct para as [|p ps]; [exact H|].
  apply andb_prop in H. destruct H as [H Hb].
  apply andb_prop in H. destruct H as [Hp Ht]. simpl. rewrite Ht. simpl.
  rewrite forallb_app, Hb. simpl. rewrite andb_true_r.
  assert (N : nonblank (join [SP] (p :: ps)) = true).
  { rewrite join_nonblank by reflexivity. simpl in *.
    apply andb_prop in Hp. destruct Hp as [Hp _].
    apply andb_prop in Hp. destruct Hp as [-> _]. reflexivity. }
  destruct (solid_trim _ N (has_LF_join_SP _ Hp)) as [-> ->]. reflexivity.
Qed.

Lemma held_loop (inputLines : list jsstring) :
  forall st a,
    (a = true -> held_ok st = true) ->
    fold_left (fun a l => a && negb (has_LF l)) inputLines a = true ->
    held_ok (loop st inputLines) = true.
Proof.
  apply (loop_tracking (fun st a => a = true -> held_ok st = true)
                       (fun a l => a && negb (has_LF l))).
  - intros st a l _ H K. apply andb_prop in K. destruct K as [K _].
    apply held_flushCurrentParagraph, held_flushTableIfIn, H, K.
  - intros st a l N H K. apply andb_prop in K. destruct K as [K L].
    apply negb_true_iff in L.
    pose proof (held_flushCurrentParagraph _ (held_flushTableIfIn _ (H K))) as W.
    unfold held_ok, pushHeading in *. simpl.
    apply andb_prop in W. destruct W as [-> W]. simpl.
    rewrite forallb_app, W. simpl.
    destruct (solid_trim l N L) as [-> ->]. reflexivity.
  - intros st a l N H K. apply andb_prop in K. destruct K as [K L].
    pose proof (held_flushCurrentParagraph _ (H K)) as W.
    unfold held_ok, pushTableLine in *. simpl.
    apply andb_prop in W. destruct W as [W ->].
    apply andb_prop in W. destruct W as [-> W]. simpl.
    rewrite forallb_app, W. simpl. rewrite N, L. reflexivity.
  - intros st a l N H K. apply andb_prop in K. destruct K as [K L].
    apply negb_true_iff in L.
    pose proof (held_flushTableIfIn _ (H K)) as W.
    unfold pushParagraphLine. destruct (is_empty (trim l)); [exact W|].
    unfold held_ok in *. simpl.
    apply andb_prop in W. destruct W as [W ->].
    apply andb_prop in W. destruct W as [W ->]. simpl.
    rewrite forallb_app, W. simpl.
    rewrite trim_nonblank, N, (has_LF_trim l L). reflexivity.
  - intros st a l _ H K. apply andb_prop in K. destruct K as [K _]. apply H, K.
Qed.

Lemma lines_acc_no_LF (s : jsstring) :
  forall cur a,
    fold_left (fun a l => a && negb (has_LF l)) (lines_acc cur s) a
    = a && negb (has_LF cur).
Proof.
  assert (F : forall ls, fold_left (fun a l => a && negb (has_LF l)) ls false = false).
  { induction ls; [reflexivity | exact IHls]. }
  induction s as [|c s IH]; intros cur a; simpl.
  - rewrite has_LF_rev. reflexivity.
  - destruct (c =? LF) eqn:E.
    + simpl. rewrite IH. simpl. rewrite has_LF_rev, andb_true_r. reflexivity.
    + rewrite IH. unfold has_LF at 1. simpl. rewrite E. reflexivity.
Qed.

Lemma reconstruct_ok (rawText : jsstring) :
  forallb block_ok (reconstruct rawText) = true.
Proof.
  rewrite reconstruct_lines.
  assert (H : held_ok (finish (loop initial (lines_acc [] rawText))) = true).
  { unfold finish. apply held_flushCurrentParagraph, held_flushTableIfIn.
    apply (held_loop _ initial true); [reflexivity|].
    rewrite lines_acc_no_LF. reflexivity. }
  unfold held_ok in H. apply andb_prop in H. apply H.
Qed.

(** X2: every block [_convertToMarkdownLogic] emits is well formed. The text
    of a heading or of a paragraph is one line (no line feed) that shows
    something and has no whitespace at either end; a fenced block has at
    least two lines, each of them one line that shows something and has no
    whitespace at its end. *)
Theorem emitted_blocks_are_well_formed (rawText : jsstring) :
  forallb block_ok (reconstruct rawText) = true.
Proof. apply reconstruct_ok. Qed.

(** *** The serialization *)

Lemma match_run (cl : charclass) (n : nat) (g b : bool) (s : jsstring) :
  match_here (RegExp false [atleast n cl] false [] g) b s
  = if (n <=? runlen cl s)%nat then Some [runlen cl s] else None.
Proof.
  unfold match_here. cbn [r_bol r_atoms r_eol andb].
  change (m_atoms [atleast n cl] false s)
    with (match greedy cl (fun _ => Some (@nil nat)) n s with
          | Some (k, ns) => Some (k :: ns)
          | None => None
          end).
  rewrite greedy_run. destruct (n <=? runlen cl s)%nat; reflexivity.
Qed.

Lemma replace_go_quiet (cl : charclass) (n : nat) (tpl whole s : jsstring) :
  (1 <= n)%nat ->
  quiet cl n s = true ->
  forall pos, replace_go (RegExp false [atleast n cl] false [] true) tpl whole pos 0 s = s.
Proof.
  intros Hn. induction s as [|c s IH]; intros Q pos.
  - cbn [replace_go]. rewrite match_run. cbn [runlen].
    destruct n; [lia | reflexivity].
  - cbn [quiet] in Q. apply andb_prop in Q. destruct Q as [Q1 Q2].
    cbn [replace_go]. rewrite match_run.
    apply Nat.ltb_lt in Q1.
    destruct (n <=? runlen cl (c :: s))%nat eqn:E.
    + apply Nat.leb_le in E. lia.
    + rewrite (IH Q2). reflexivity.
Qed.

Lemma join_cons2 (sep x y : jsstring) (l : list jsstring) :
  join sep (x :: y :: l) = x ++ sep ++ join sep (y :: l).
Proof. reflexivity. Qed.

Lemma join_app (sep : jsstring) (a b : list jsstring) :
  a <> [] -> b <> [] -> join sep (a ++ b) = join sep a ++ sep ++ join sep b.
Proof.
  intros Ha Hb. induction a as [|x a IH]; [contradiction|].
  destruct a as [|y a].
  - destruct b as [|z b]; [contradiction|]. reflexivity.
  - change ((x :: y :: a) ++ b) with (x :: y :: (a ++ b)).
    rewrite !join_cons2. change (y :: a ++ b) with ((y :: a) ++ b).
    rewrite IH by discriminate. rewrite <- !app_assoc. reflexivity.
Qed.

Lemma block_lines_body (b : MarkdownBlock) :
  block_lines b = removelast (block_lines b) ++ [[]].
Proof.
  destruct b as [t|t|ls]; try reflexivity.
  unfold block_lines.
  change ([fence] ++ ls ++ [fence] ++ [[]]) with (fence :: ls ++ [fence] ++ [[]]).
  rewrite (app_assoc ls), app_comm_cons, removelast_last. reflexivity.
Qed.

Lemma solid_not_empty (l : jsstring) : solid l = true -> l <> [].
Proof. intros H ->. discriminate H. Qed.

Lemma clean_last_app (a b : jsstring) :
  b <> [] -> clean_last (a ++ b) = clean_last b.
Proof.
  intros Hb. unfold clean_last. rewrite rev_app_distr.
  destruct (rev b) as [|c r] eqn:E; [|reflexivity].
  apply (f_equal (@rev Z)) in E. rewrite rev_involutive in E. contradiction.
Qed.

Lemma solid_heading (t : jsstring) : solid t = true -> solid (lit "# " ++ t) = true.
Proof.
  intros H. pose proof (solid_not_empty t H) as Ne.
  unfold solid in *. apply andb_prop in H. destruct H as [H C].
  apply andb_prop in H. destruct H as [N L].
  rewrite nonblank_app, has_LF_app, (clean_last_app _ _ Ne), C.
  apply negb_true_iff in L. rewrite L. reflexivity.
Qed.

(** The lines of a well-formed block before its closing empty line: solid,
    at least one, the first one starting with a visible character. *)
Lemma body_ok (b : MarkdownBlock) :
  block_ok b = true ->
  exists l ls,
    removelast (block_lines b) = l :: ls
    /\ forallb solid (l :: ls) = true /\ clean_head l = true.
Proof.
  destruct b as [t|t|ls]; intros H.
  - apply andb_prop in H. destruct H as [S C].
    exists (lit "# " ++ t), []. split; [reflexivity|].
    cbn [forallb]. rewrite (solid_heading t S). split; reflexivity.
  - apply andb_prop in H. destruct H as [S C].
    exists t, []. split; [reflexivity|].
    cbn [forallb]. rewrite S. split; [reflexivity | exact C].
  - apply andb_prop in H. destruct H as [_ S].
    exists fence, (ls ++ [fence]). split.
    + unfold block_lines.
      change ([fence] ++ ls ++ [fence] ++ [[]]) with (fence :: ls ++ [fence] ++ [[]]).
      rewrite (app_assoc ls), app_comm_cons, removelast_last. reflexivity.
    + split; [|reflexivity].
      cbn [forallb]. rewrite forallb_app, S. reflexivity.
Qed.

Lemma trimEnd_clean (l : jsstring) : clean_last l = true -> trimEnd l = l.
Proof.
  intros H. unfold trimEnd. rewrite trimStart_clean by exact H.
  apply rev_involutive.
Qed.

Lemma trimEnd_solid (ls : list jsstring) :
  forallb solid ls = true -> map trimEnd ls = ls.
Proof.
  induction ls as [|l ls IH]; [reflexivity|]. cbn [forallb map]. intros H.
  apply andb_prop in H. destruct H as [S H]. rewrite (IH H).
  unfold solid in S. apply andb_prop in S. destruct S as [_ C].
  rewrite (trimEnd_clean l C). reflexivity.
Qed.

Lemma trimEnd_block_lines (bs : list MarkdownBlock) :
  forallb block_ok bs = true ->
  map trimEnd (flat_map block_lines bs) = flat_map block_lines bs.
Proof.
  induction bs as [|b bs IH]; [reflexivity|]. cbn [forallb flat_map]. intros H.
  apply andb_prop in H. destruct H as [Hb H].
  rewrite map_app, (IH H). f_equal.
  destruct (body_ok b Hb) as (l & ls & E & S & _).
  rewrite block_lines_body, E, map_app, (trimEnd_solid _ S). reflexivity.
Qed.

Lemma join_block_lines (bs : list MarkdownBlock) :
  bs <> [] ->
  join [LF] (flat_map block_lines bs) = join [LF; LF] (map render_block bs) ++ [LF].
Proof.
  induction bs as [|b bs IH]; [contradiction|]. intros _.
  assert (B : join [LF] (block_lines b) = render_block b ++ [LF]).
  { rewrite block_lines_body at 1. unfold render_block.
    destruct (removelast (block_lines b)) as [|x xs] eqn:E.
    - destruct b as [t|t|ls]; try discriminate E.
      unfold block_lines in E.
      change ([fence] ++ ls ++ [fence] ++ [[]])
        with (fence :: ls ++ [fence] ++ [[]]) in E.
      rewrite (app_assoc ls), app_comm_cons, removelast_last in E. discriminate E.
    - rewrite join_app by discriminate. reflexivity. }
  destruct bs as [|b2 bs].
  - cbn [flat_map map]. rewrite app_nil_r. exact B.
  - cbn [flat_map]. rewrite join_app.
    + rewrite B. change (flat_map block_lines (b2 :: bs))
        with (block_lines b2 ++ flat_map block_lines bs) in IH.
      rewrite IH by discriminate.
      cbn [map]. rewrite join_cons2. rewrite <- !app_assoc. reflexivity.
    + rewrite block_lines_body. destruct (removelast (block_lines b)); discriminate.
    + rewrite block_lines_body. destruct (removelast (block_lines b2)); discriminate.
Qed.

Lemma solid_head (l s : jsstring) :
  solid l = true -> runlen [Ch 10] (l ++ s) = 0%nat.
Proof.
  intros H. unfold solid in H. apply andb_prop in H. destruct H as [H _].
  apply andb_prop in H. destruct H as [N L].
  destruct l as [|c l]; [discriminate N|].
  apply negb_true_iff in L. cbn [has_LF existsb] in L.
  apply orb_false_elim in L. destruct L as [L _].
  cbn [app runlen in_class existsb cc_mem]. change LF with 10 in L.
  rewrite L. reflexivity.
Qed.

Lemma calm_line (l s : jsstring) : has_LF l = false -> calm (l ++ s) = calm s.
Proof.
  induction l as [|c l IH]; [reflexivity|]. intros L.
  cbn [has_LF existsb] in L. apply orb_false_elim in L. destruct L as [L1 L2].
  unfold calm in *. cbn [app quiet runlen in_class existsb cc_mem].
  change LF with 10 in L1. rewrite L1. cbn [orb]. exact (IH L2).
Qed.

Lemma solid_no_LF (l : jsstring) : solid l = true -> has_LF l = false.
Proof.
  intros H. unfold solid in H. apply andb_prop in H. destruct H as [H _].
  apply andb_prop in H. destruct H as [_ L]. apply negb_true_iff in L. exact L.
Qed.

Lemma join_starts (sep l : jsstring) (r : list jsstring) :
  exists t, join sep (l :: r) = l ++ t.
Proof.
  destruct r as [|l2 r].
  - exists []. unfold join. symmetry. apply app_nil_r.
  - eexists. apply join_cons2.
Qed.

Lemma calm_LF (s : jsstring) :
  runlen [Ch 10] s = 0%nat -> calm (LF :: s) = calm s.
Proof.
  intros H. unfold calm. cbn [quiet].
  change (runlen [Ch 10] (LF :: s)) with (S (runlen [Ch 10] s)). rewrite H.
  reflexivity.
Qed.

Lemma calm_LF_LF (s : jsstring) :
  runlen [Ch 10] s = 0%nat -> calm (LF :: LF :: s) = calm s.
Proof.
  intros H. unfold calm. cbn [quiet].
  change (runlen [Ch 10] (LF :: LF :: s)) with (S (S (runlen [Ch 10] s))).
  change (runlen [Ch 10] (LF :: s)) with (S (runlen [Ch 10] s)). rewrite H.
  reflexivity.
Qed.

Lemma calm_join_lines (ls : list jsstring) (s : jsstring) :
  forallb solid ls = true -> ls <> [] ->
  calm (join [LF] ls ++ s) = calm s.
Proof.
  induction ls as [|l ls IH]; [contradiction|]. cbn [forallb]. intros H _.
  apply andb_prop in H. destruct H as [S H].
  destruct ls as [|l2 ls].
  - unfold join. apply calm_line, solid_no_LF, S.
  - rewrite join_cons2, <- !app_assoc. rewrite calm_line by (apply solid_no_LF, S).
    change ([LF] ++ join [LF] (l2 :: ls) ++ s)
      with (LF :: (join [LF] (l2 :: ls) ++ s)).
    rewrite calm_LF.
    + apply IH; [exact H | discriminate].
    + destruct (join_starts [LF] l2 ls) as (t & ->).
      rewrite <- app_assoc. apply solid_head.
      cbn [forallb] in H. apply andb_prop in H. apply H.
Qed.

Lemma render_starts (b : MarkdownBlock) :
  block_ok b = true ->
  exists l t, render_block b = l ++ t /\ solid l = true /\ clean_head l = true.
Proof.
  intros H. destruct (body_ok b H) as (l & ls & E & S & C).
  unfold render_block. rewrite E. destruct (join_starts [LF] l ls) as (t & ->).
  exists l, t. cbn [forallb] in S. apply andb_prop in S. destruct S as [S _]. auto.
Qed.

Lemma calm_render (b : MarkdownBlock) (s : jsstring) :
  block_ok b = true -> calm (render_block b ++ s) = calm s.
Proof.
  intros H. destruct (body_ok b H) as (l & ls & E & S & C).
  unfold render_block. rewrite E. apply calm_join_lines; [exact S | discriminate].
Qed.

Lemma calm_blocks (bs : list MarkdownBlock) :
  forallb block_ok bs = true -> bs <> [] ->
  calm (join [LF; LF] (map render_block bs) ++ [LF]) = true.
Proof.
  induction bs as [|b bs IH]; [contradiction|]. cbn [forallb]. intros H _.
  apply andb_prop in H. destruct H as [Hb H].
  destruct bs as [|b2 bs].
  - cbn [map]. unfold join. rewrite calm_render by exact Hb. reflexivity.
  - cbn [map]. rewrite join_cons2, <- !app_assoc.
    rewrite calm_render by exact Hb.
    change ([LF; LF] ++ join [LF; LF] (render_block b2 :: map render_block bs) ++ [LF])
      with (LF :: LF :: (join [LF; LF] (map render_block (b2 :: bs)) ++ [LF])).
    rewrite calm_LF_LF; [apply IH; [exact H | discriminate]|].
    cbn [map]. destruct (join_starts [LF; LF] (render_block b2) (map render_block bs)) as (t & ->).
    cbn [forallb] in H. apply andb_prop in H. destruct H as [H2 _].
    destruct (render_starts b2 H2) as (l & t' & -> & S & _).
    rewrite <- !app_assoc. apply solid_head, S.
Qed.

Lemma clean_head_app (a b : jsstring) : a <> [] -> clean_head (a ++ b) = clean_head a.
Proof. destruct a; [contradiction | reflexivity]. Qed.

Lemma clean_last_join (sep : jsstring) (ls : list jsstring) :
  forallb solid ls = true -> ls <> [] ->
  clean_last (join sep ls) = true /\ join sep ls <> [].
Proof.
  induction ls as [|l ls IH]; [contradiction|]. cbn [forallb]. intros H _.
  apply andb_prop in H. destruct H as [S H].
  destruct ls as [|l2 ls].
  - unfold join. split; [|apply solid_not_empty, S].
    unfold solid in S. apply andb_prop in S. apply S.
  - rewrite join_cons2. destruct (IH H) as [C N]; [discriminate|].
    split.
    + rewrite app_assoc. rewrite clean_last_app by exact N. exact C.
    + pose proof (solid_not_empty l S). destruct l; [contradiction | discriminate].
Qed.

Lemma render_ends (b : MarkdownBlock) :
  block_ok b = true -> clean_last (render_block b) = true /\ render_block b <> [].
Proof.
  intros H. destruct (body_ok b H) as (l & ls & E & S & C).
  unfold render_block. rewrite E. apply clean_last_join; [exact S | discriminate].
Qed.

Lemma rendered_clean (bs : list MarkdownBlock) :
  forallb block_ok bs = true -> bs <> [] ->
  clean_head (join [LF; LF] (map render_block bs)) = true
  /\ clean_last (join [LF; LF] (map render_block bs)) = true
  /\ join [LF; LF] (map render_block bs) <> [].
Proof.
  induction bs as [|b bs IH]; [contradiction|]. cbn [forallb]. intros H _.
  apply andb_prop in H. destruct H as [Hb H].
  destruct (render_ends b Hb) as [Cl Ne].
  assert (Ch : clean_head (render_block b) = true).
  { destruct (render_starts b Hb) as (l & t & -> & S & C).
    rewrite clean_head_app by (apply solid_not_empty, S). exact C. }
  destruct bs as [|b2 bs].
  - cbn [map]. unfold join. auto.
  - cbn [map]. rewrite join_cons2.
    destruct (IH H) as (_ & C2 & N2); [discriminate|]. cbn [map] in C2, N2.
    split; [rewrite clean_head_app by exact Ne; exact Ch|].
    split.
    + rewrite app_assoc, clean_last_app by exact N2. exact C2.
    + destruct (render_block b); [contradiction | discriminate].
Qed.

Lemma trim_line_feed (s : jsstring) :
  clean_head s = true -> clean_last s = true -> s <> [] ->
  trim (s ++ [LF]) = s.
Proof.
  intros Ch Cl Ne. unfold trim.
  rewrite trimStart_clean by (rewrite clean_head_app by exact Ne; exact Ch).
  unfold trimEnd. rewrite rev_app_distr. cbn [rev app trimStart].
  change (is_ws LF) with true. cbv iota.
  rewrite trimStart_clean by exact Cl. apply rev_involutive.
Qed.

(** The serialization changes nothing in well-formed lines but the last
    line feed. *)
Lemma serialize_blocks (bs : list MarkdownBlock) :
  forallb block_ok bs = true ->
  serialize (flat_map block_lines bs) = join [LF; LF] (map render_block bs).
Proof.
  intros H. destruct bs as [|b bs]; [reflexivity|].
  unfold serialize. rewrite (trimEnd_block_lines _ H).
  rewrite join_block_lines by discriminate.
  unfold Regex.replace. change (r_global blank_lines) with true. cbv iota.
  change blank_lines with (RegExp false [atleast 3 [Ch 10]] false [] true).
  rewrite replace_go_quiet;
    [|lia | apply (calm_blocks (b :: bs) H); discriminate].
  destruct (rendered_clean (b :: bs) H) as (Ch & Cl & Ne); [discriminate|].
  apply trim_line_feed; assumption.
Qed.

Lemma last_line_empty (bs : list MarkdownBlock) :
  bs <> [] ->
  exists ls, flat_map block_lines bs = ls ++ [[]] /\ ls <> [].
Proof.
  induction bs as [|b bs IH]; [contradiction|]. intros _.
  destruct bs as [|b2 bs].
  - cbn [flat_map]. rewrite app_nil_r, block_lines_body.
    eexists. split; [reflexivity|].
    destruct b as [t|t|ls]; try discriminate.
    unfold block_lines.
    change ([fence] ++ ls ++ [fence] ++ [[]]) with (fence :: ls ++ [fence] ++ [[]]).
    rewrite (app_assoc ls), app_comm_cons, removelast_last. discriminate.
  - destruct IH as (ls & E & N); [discriminate|].
    change (flat_map block_lines (b :: b2 :: bs))
      with (block_lines b ++ flat_map block_lines (b2 :: bs)).
    rewrite E. exists (block_lines b ++ ls). split; [apply app_assoc|].
    destruct ls; [contradiction|]. destruct (block_lines b); discriminate.
Qed.

Lemma convert_rendered (rawText : jsstring) :
  _convertToMarkdownLogic rawText
  = join [LF; LF] (map render_block (reconstruct rawText)).
Proof.
  unfold _convertToMarkdownLogic. rewrite output_lines_of_blocks.
  apply serialize_blocks, reconstruct_ok.
Qed.

(** X3: the string [_convertToMarkdownLogic] returns is its blocks, each
    as its lines joined by line feeds, separated by exactly one empty line:
    the lines the loop pushed, without the last empty one, joined by line
    feeds. The [trimEnd] of the lines, the [replace(/\n{3,}/g, ...)] and the
    [trim] of the last three statements only remove the final line feed. *)
Theorem markdown_is_the_rendered_blocks (rawText : jsstring) :
  _convertToMarkdownLogic rawText
    = join [LF; LF] (map render_block (reconstruct rawText))
  /\ _convertToMarkdownLogic rawText
     = join [LF] (removelast (markdownOutputLines (run rawText))).
Proof.
  split; [apply convert_rendered|].
  rewrite convert_rendered, output_lines_of_blocks.
  destruct (reconstruct rawText) as [|b bs] eqn:E; [reflexivity|].
  destruct (last_line_empty (b :: bs)) as (ls & L & N); [discriminate|].
  pose proof (join_block_lines (b :: bs)) as J. rewrite L in *.
  rewrite removelast_last.
  rewrite join_app in J by (discriminate || exact N).
  change (join [LF] [[]]) with (@nil Z) in J. rewrite app_nil_r in J.
  symmetry. apply (app_inv_tail [LF]). apply J. discriminate.
Qed.

(** *** Empty output *)

Lemma ink_nonblank (s : jsstring) : is_empty (ink s) = negb (nonblank s).
Proof.
  induction s as [|c s IH]; [reflexivity|]. cbn [ink filter nonblank existsb].
  destruct (is_ws c); [exact IH | reflexivity].
Qed.

Lemma ok_block_shows (b : MarkdownBlock) :
  block_ok b = true -> nonblank (block_text b) = true.
Proof.
  destruct b as [t|t|ls]; cbn [block_ok block_text]; intros H.
  - apply andb_prop in H. destruct H as [H _]. unfold solid in H.
    apply andb_prop in H. destruct H as [H _]. apply andb_prop in H. apply H.
  - apply andb_prop in H. destruct H as [H _]. unfold solid in H.
    apply andb_prop in H. destruct H as [H _]. apply andb_prop in H. apply H.
  - apply andb_prop in H. destruct H as [L H].
    destruct ls as [|l ls]; [discriminate L|].
    cbn [forallb] in H. apply andb_prop in H. destruct H as [H _].
    cbn [List.concat]. rewrite nonblank_app.
    unfold solid in H. apply andb_prop in H. destruct H as [H _].
    apply andb_prop in H. destruct H as [-> _]. reflexivity.
Qed.

Lemma reconstruct_empty (rawText : jsstring) :
  is_empty (reconstruct rawText) = negb (nonblank rawText).
Proof.
  pose proof (ink_reconstruct rawText) as K.
  pose proof (reconstruct_ok rawText) as W.
  rewrite <- ink_nonblank, <- K.
  destruct (reconstruct rawText) as [|b bs]; [reflexivity|].
  cbn [forallb] in W. apply andb_prop in W. destruct W as [W _].
  apply ok_block_shows in W. cbn [flat_map]. rewrite ink_app.
  rewrite <- (negb_involutive (nonblank (block_text b))), <- ink_nonblank in W.
  destruct (ink (block_text b)); [discriminate W | reflexivity].
Qed.

(** X4: [_convertToMarkdownLogic] returns the empty string exactly when its
    input has no character that is not whitespace, and exactly then it
    emits no block. *)
Theorem empty_output_iff_blank_input (rawText : jsstring) :
  (_convertToMarkdownLogic rawText = [] <-> nonblank rawText = false)
  /\ (reconstruct rawText = [] <-> nonblank rawText = false).
Proof.
  pose proof (reconstruct_empty rawText) as E.
  pose proof (reconstruct_ok rawText) as W.
  rewrite convert_rendered.
  destruct (reconstruct rawText) as [|b bs].
  - cbn [is_empty] in E. symmetry in E. apply negb_true_iff in E.
    split; split; auto.
  - cbn [is_empty] in E. symmetry in E. apply negb_false_iff in E.
    destruct (rendered_clean (b :: bs) W) as (_ & _ & N); [discriminate|].
    split; split; intros H; solve [congruence | discriminate H | contradiction].
Qed.

(** *** Texts separated by an empty line *)

Lemma loop_empty_line (la lb : list jsstring) :
  forall st,
    loop st (la ++ [] :: lb) = loop (finish (loop st la)) lb.
Proof.
  assert (G : forall n la, (List.length la <= n)%nat ->
                forall st, loop st (la ++ [] :: lb)
                           = loop (finish (loop st la)) lb).
  { induction n as [|n IH]; intros la0 L st.
    - destruct la0; [reflexivity | simpl in L; lia].
    - destruct la0 as [|l rest]; [reflexivity|]. simpl in L.
      cbn [app loop].
      destruct (is_empty (trim l)) eqn:E; [apply IH; lia|].
      assert (Hh : isHeading (trim l) (rest ++ [] :: lb) = isHeading (trim l) rest).
      { destruct rest as [|x r]; [|reflexivity].
        unfold isHeading, nextLineIsBlankOrEndOfFile. reflexivity. }
      rewrite Hh. destruct (isHeading (trim l) rest).
      { destruct rest as [|next rest'].
        - cbn [app]. cbn [nextLineIsBlankOrEndOfFile is_empty negb andb].
          apply (IH []). simpl. lia.
        - cbn [app].
          change (nextLineIsBlankOrEndOfFile (next :: rest' ++ [] :: lb))
            with (nextLineIsBlankOrEndOfFile (next :: rest')).
          destruct (nextLineIsBlankOrEndOfFile (next :: rest')
                    && negb (is_empty next) && is_empty (trim next)).
          + apply IH. simpl in *. lia.
          + apply (IH (next :: rest')). simpl in *. lia. }
      destruct (isTabular l); apply IH; lia. }
  intros st. apply (G (List.length la)). lia.
Qed.

Lemma lines_acc_app (a t : jsstring) :
  forall cur, lines_acc cur (a ++ LF :: t) = lines_acc cur a ++ lines_acc [] t.
Proof.
  induction a as [|c a IH]; intros cur.
  - reflexivity.
  - cbn [app lines_acc]. destruct (c =? LF); [|apply IH].
    rewrite IH. reflexivity.
Qed.

Lemma finish_is_frame (inputLines : list jsstring) :
  finish (loop initial inputLines)
  = frame (markdownOutputLines (finish (loop initial inputLines)))
          (blocks (finish (loop initial inputLines))) initial.
Proof.
  pose proof (well_formed_loop inputLines initial eq_refl) as W.
  unfold finish.
  set (st := loop initial inputLines) in *.
  destruct st as [out para inT tbl bl].
  unfold well_formed in W. cbn in W.
  apply andb_prop in W. destruct W as [W _].
  apply andb_prop in W. destruct W as [_ W].
  unfold flushTableIfIn, flushPotentialTableBlock, flushCurrentParagraph, frame, initial.
  destruct inT.
  - destruct tbl as [|l [|l2 ls]]; destruct para; cbn; rewrite ?app_nil_r; reflexivity.
  - destruct tbl; [|discriminate W].
    destruct para; cbn; rewrite ?app_nil_r; reflexivity.
Qed.

Lemma run_empty_line (a b : jsstring) :
  run (a ++ LF :: LF :: b)
  = frame (markdownOutputLines (run a)) (blocks (run a)) (run b).
Proof.
  unfold run. fold (finish (loop initial (Regex.split newline (a ++ LF :: LF :: b)))).
  fold (finish (loop initial (Regex.split newline a))).
  fold (finish (loop initial (Regex.split newline b))).
  rewrite !split_newline, lines_acc_app.
  change (lines_acc [] (LF :: b)) with ([] :: lines_acc [] b).
  rewrite loop_empty_line.
  pose proof (finish_is_frame (lines_acc [] a)) as E.
  remember (finish (loop initial (lines_acc [] a))) as fa.
  transitivity (finish (loop (frame (markdownOutputLines fa) (blocks fa) initial)
                             (lines_acc [] b))).
  - rewrite <- E. reflexivity.
  - rewrite frame_loop, frame_finish. reflexivity.
Qed.

(** X5: an empty line separates. The blocks and the pushed lines of a text
    [a], an empty line and a text [b] are those of [a] followed by those
    of [b]; the returned string is that of [a], an empty line and that of
    [b] when both show something, and otherwise the one of the two that is
    not empty. *)
Theorem empty_line_separates (a b : jsstring) :
  reconstruct (a ++ LF :: LF :: b) = reconstruct a ++ reconstruct b
  /\ markdownOutputLines (run (a ++ LF :: LF :: b))
     = markdownOutputLines (run a) ++ markdownOutputLines (run b)
  /\ _convertToMarkdownLogic (a ++ LF :: LF :: b)
     = if nonblank a && nonblank b
       then _convertToMarkdownLogic a ++ [LF; LF] ++ _convertToMarkdownLogic b
       else _convertToMarkdownLogic a ++ _convertToMarkdownLogic b.
Proof.
  assert (R : reconstruct (a ++ LF :: LF :: b) = reconstruct a ++ reconstruct b).
  { unfold reconstruct. rewrite run_empty_line. reflexivity. }
  split; [exact R|]. split; [rewrite run_empty_line; reflexivity|].
  rewrite !convert_rendered, R, map_app.
  rewrite <- (negb_involutive (nonblank a)), <- (negb_involutive (nonblank b)).
  rewrite <- !reconstruct_empty.
  destruct (reconstruct a) as [|x xs]; destruct (reconstruct b) as [|y ys];
    cbn [is_empty negb andb map app]; rewrite ?app_nil_r; try reflexivity.
  change (render_block x :: map render_block xs ++ render_block y :: map render_block ys)
    with ((render_block x :: map render_block xs) ++ (render_block y :: map render_block ys)).
  apply join_app; discriminate.
Qed.

(** *** Lines of running text *)

Lemma plain_no_LF (ls : list jsstring) :
  plain_lines ls = true -> forallb (fun l => negb (has_LF l)) ls = true.
Proof.
  induction ls as [|l ls IH]; [reflexivity|]. cbn [plain_lines forallb].
  intros H. apply andb_prop in H. destruct H as [H Hr].
  apply andb_prop in H. destruct H as [H _].
  apply andb_prop in H. destruct H as [H _].
  apply andb_prop in H. destruct H as [_ L]. rewrite L, (IH Hr). reflexivity.
Qed.

Lemma lines_acc_join (r : list jsstring) :
  forall l cur,
    forallb (fun l => negb (has_LF l)) (l :: r) = true ->
    lines_acc cur (join [LF] (l :: r)) = (rev cur ++ l) :: r.
Proof.
  induction r as [|l2 r IH]; intros l cur H; cbn [forallb] in H;
    apply andb_prop in H; destruct H as [L H]; apply negb_true_iff in L.
  - unfold join. apply lines_acc_line, L.
  - rewrite join_cons2. change ([LF] ++ join [LF] (l2 :: r)) with (LF :: join [LF] (l2 :: r)).
    rewrite lines_acc_cut by exact L. rewrite (IH l2 [] H). reflexivity.
Qed.

Lemma loop_plain (ls : list jsstring) :
  forall st,
    plain_lines ls = true ->
    inPotentialTableBlock st = false ->
    loop st ls
    = State (markdownOutputLines st)
            (currentParagraphCollector st ++ map trim ls)
            false (potentialTableBlockLines st) (blocks st).
Proof.
  induction ls as [|l ls IH]; intros st H T.
  - cbn. rewrite app_nil_r. destruct st. cbn in T. subst. reflexivity.
  - cbn [plain_lines] in H. apply andb_prop in H. destruct H as [H Hr].
    apply andb_prop in H. destruct H as [H Tab].
    apply andb_prop in H. destruct H as [H Hd].
    apply andb_prop in H. destruct H as [N _].
    apply negb_true_iff in Tab, Hd.
    cbn [loop]. rewrite trim_is_empty, N. cbn [negb]. rewrite Hd, Tab.
    unfold flushTableIfIn. rewrite T. unfold pushParagraphLine.
    rewrite trim_is_empty, N. cbn [negb].
    rewrite (IH _ Hr) by exact T. cbn. rewrite <- app_assoc. reflexivity.
Qed.

Lemma paragraph_of_plain_lines (ls : list jsstring) :
  ls <> [] -> plain_lines ls = true ->
  reconstruct (join [LF] ls) = [Paragraph (trim (join [SP] (map trim ls)))].
Proof.
  intros Ne H. rewrite reconstruct_lines.
  destruct ls as [|l r]; [contradiction|].
  rewrite (lines_acc_join r l [] (plain_no_LF _ H)). cbn [rev app].
  rewrite (loop_plain (l :: r) initial H eq_refl). reflexivity.
Qed.

(** X6: lines of running text are joined into one paragraph. Lines that
    each show something, are not a heading given the lines after them and
    are not tabular, put one per line, make one Paragraph block: the
    trimmed lines joined by single spaces; and that text is the string
    returned. *)
Theorem plain_lines_make_one_paragraph (ls : list jsstring) :
  ls <> [] -> plain_lines ls = true ->
  reconstruct (join [LF] ls) = [Paragraph (trim (join [SP] (map trim ls)))]
  /\ _convertToMarkdownLogic (join [LF] ls) = trim (join [SP] (map trim ls)).
Proof.
  intros Ne H. split; [apply paragraph_of_plain_lines; assumption|].
  rewrite convert_rendered, (paragraph_of_plain_lines ls Ne H). reflexivity.
Qed.

Lemma plain_lines_make_one_paragraph_witness :
  reconstruct (join [LF] [lit "The quick brown fox"; lit "  jumps over the lazy dog."])
    = [Paragraph (trim (join [SP] (map trim [lit "The quick brown fox";
                                              lit "  jumps over the lazy dog."])))]
  /\ _convertToMarkdownLogic
       (join [LF] [lit "The quick brown fox"; lit "  jumps over the lazy dog."])
     = trim (join [SP] (map trim [lit "The quick brown fox";
                                  lit "  jumps over the lazy dog."])).
Proof.
  apply (plain_lines_make_one_paragraph
           [lit "The quick brown fox"; lit "  jumps over the lazy dog."]);
    [discriminate | reflexivity].
Defined.

End Blocks.

(* ================================================================== *)
(** ** The text the default rules return *)

Section DefaultRules.

Local Open Scope list_scope.

Local Arguments join : simpl never.
Local Arguments in_class : simpl never.

(** What the default rules return, with or without the split rules: free of
    the characters the rules replace, with single spaces only, trimmed. *)
Lemma default_shape (sp : option bool) (text : jsstring) :
  let t := _postProcessText (construct_text sp None) text [] in
  forallb (fun x => negb (special x)) t = true
  /\ tidy false t = true
  /\ trim t = t
  /\ (sp = Some true -> hump t = false).
Proof.
  assert (B : forall text,
             let t := normalize_spec text in
             forallb (fun x => negb (special x)) t = true
             /\ tidy false t = true /\ trim t = t).
  { intros x. cbv zeta. unfold normalize_spec. split; [|split].
    - unfold trim. apply forallb_trimEnd, forallb_trimStart.
      apply forallb_collapse; [reflexivity | apply flat_map_norm_clean].
    - apply tidy_trim, collapse_is_tidy.
    - apply trim_idem. }
  destruct sp as [[|]|]; cbv zeta.
  - rewrite postProcessText_split.
    destruct text as [|c text]; [repeat split; reflexivity|].
    set (y := run_rules builtinRules (c :: text)).
    destruct (run_splitRules y) as (E & H & S1 & S2).
    assert (Cy : forallb (fun x => negb (special x)) y = true).
    { unfold y. rewrite run_builtinRules.
      apply forallb_collapse; [reflexivity | apply flat_map_norm_clean]. }
    assert (Ty : tidy false y = true)
      by (unfold y; rewrite run_builtinRules; apply collapse_is_tidy).
    split; [|split; [|split]].
    + unfold trim. apply forallb_trimEnd, forallb_trimStart. rewrite E.
      apply (spaced_forallb _ _ _ eq_refl S2), (spaced_forallb _ _ _ eq_refl S1), Cy.
    + apply tidy_trim. rewrite E.
      apply (spaced_tidy _ _ S2), (spaced_tidy _ _ S1), Ty.
    + apply trim_idem.
    + intros _. unfold trim. apply hump_trimEnd, hump_trimStart, H.
  - change (construct_text (Some false) None) with (construct_text None None).
    rewrite postProcessText_builtin. destruct (B text) as (B1 & B2 & B3).
    repeat split; try assumption. intros H; discriminate H.
  - rewrite postProcessText_builtin. destruct (B text) as (B1 & B2 & B3).
    repeat split; try assumption. intros H; discriminate H.
Qed.

(** *** One line, one block *)

Lemma in_class_Ws (c : Z) : in_class [Ws] c = is_ws c.
Proof. unfold in_class. cbn [existsb cc_mem]. apply orb_false_r. Qed.

Lemma in_class_LF (c : Z) : in_class [Ch 10] c = (c =? LF).
Proof. unfold in_class. cbn [existsb cc_mem]. apply orb_false_r. Qed.

Lemma tidy_quiet (s : jsstring) :
  forall b, tidy b s = true ->
    quiet [Ws] 2 s = true
    /\ (runlen [Ws] s <= if b then 0 else 1)%nat
    /\ forallb (fun c => negb (is_ws c) || (c =? SP)) s = true.
Proof.
  induction s as [|c s IH]; intros b T.
  - repeat split. cbn. destruct b; lia.
  - cbn [tidy] in T. cbn [quiet runlen forallb]. rewrite in_class_Ws.
    destruct (is_ws c) eqn:W.
    + apply andb_prop in T. destruct T as [T Ts].
      apply andb_prop in T. destruct T as [Tb Tc].
      destruct b; [discriminate Tb|].
      destruct (IH true Ts) as (Q & R & F). rewrite Q, F, Tc.
      split; [|split; [lia | reflexivity]].
      replace (runlen [Ws] s) with 0%nat by lia. reflexivity.
    + destruct (IH false T) as (Q & R & F). rewrite Q, F.
      split; [reflexivity|]. split; [destruct b; lia | reflexivity].
Qed.

Lemma greedy_short {R : Type} (cl : charclass) (k : jsstring -> option R)
      (s : jsstring) :
  forall min, (runlen cl s < min)%nat -> greedy cl k min s = None.
Proof.
  induction s as [|c s IH]; intros min H.
  - destruct min; [cbn in H; lia | reflexivity].
  - cbn [greedy]. cbn [runlen] in H. destruct (in_class cl c).
    + destruct min as [|m]; [lia|]. cbn [pred].
      rewrite IH by lia. reflexivity.
    + destruct min; [lia | reflexivity].
Qed.

Lemma spaced_words_quiet (s : jsstring) :
  quiet [Ws] 2 s = true -> forall at0, search spaced_words at0 s = false.
Proof.
  induction s as [|c s IH]; intros Q at0.
  - reflexivity.
  - cbn [quiet] in Q. apply andb_prop in Q. destruct Q as [Q1 Q2].
    cbn [search]. unfold match_here.
    change (r_bol spaced_words && negb at0) with false. cbv iota.
    change (r_atoms spaced_words) with [one [NotWs]; atleast 2 [Ws]; one [NotWs]].
    cbn [m_atoms a_many a_cls a_min one atleast exactly].
    destruct (in_class [NotWs] c); [|apply IH, Q2].
    assert (G : greedy [Ws] (m_atoms [one [NotWs]] (r_eol spaced_words)) 2 s = None).
    { apply greedy_short.
      destruct s as [|d s]; [cbn; lia|].
      cbn [quiet] in Q2. apply andb_prop in Q2. destruct Q2 as [Q2 _].
      apply Nat.ltb_lt in Q2. exact Q2. }
    cbn [m_atoms a_many a_cls a_min one atleast exactly] in G. rewrite G.
    apply IH, Q2.
Qed.

Lemma split_go_quiet (cl : charclass) (n : nat) (s : jsstring) :
  quiet cl n s = true ->
  forall pos cur,
    split_go (RegExp false [atleast n cl] false [] false) pos cur 0 s
    = [rev cur ++ s].
Proof.
  induction s as [|c s IH]; intros Q pos cur.
  - cbn [split_go]. rewrite app_nil_r. reflexivity.
  - cbn [quiet] in Q. apply andb_prop in Q. destruct Q as [Q1 Q2].
    cbn [split_go]. rewrite match_run.
    apply Nat.ltb_lt in Q1.
    destruct (n <=? runlen cl (c :: s))%nat eqn:E.
    + apply Nat.leb_le in E. lia.
    + rewrite (IH Q2). cbn [rev]. rewrite <- app_assoc. reflexivity.
Qed.

Lemma tidy_not_tabular (t : jsstring) : tidy false t = true -> isTabular t = false.
Proof.
  intros T. destruct (tidy_quiet t false T) as (Q & _ & _).
  unfold isTabular, hasMultipleSpacesBetweenWords, hasMultipleColumnsBySpaces, test.
  rewrite (spaced_words_quiet t Q). cbn [orb].
  destruct t as [|c t]; [reflexivity|].
  unfold Regex.split.
  change wide_gap with (RegExp false [atleast 2 [Ws]] false [] false).
  rewrite (split_go_quiet [Ws] 2 (c :: t) Q). reflexivity.
Qed.

Lemma no_LF_quiet (s : jsstring) (n : nat) :
  (1 <= n)%nat -> has_LF s = false -> quiet [Ch 10] n s = true.
Proof.
  intros Hn. induction s as [|c s IH]; intros L; [reflexivity|].
  cbn [has_LF existsb] in L. apply orb_false_elim in L. destruct L as [L1 L2].
  cbn [quiet runlen]. rewrite in_class_LF, L1. rewrite (IH L2).
  destruct n; [lia | reflexivity].
Qed.

Lemma replace_go_crlf (tpl whole s : jsstring) :
  has_LF s = false -> forall pos, replace_go crlf tpl whole pos 0 s = s.
Proof.
  induction s as [|c s IH]; intros L pos.
  - reflexivity.
  - cbn [has_LF existsb] in L. apply orb_false_elim in L. destruct L as [L1 L2].
    cbn [replace_go]. unfold match_here.
    change (r_bol crlf && negb (Nat.eqb pos 0)) with false. cbv iota.
    change (r_atoms crlf) with [one [Ch 13]; one [Ch 10]].
    cbn [m_atoms a_many a_cls a_min one exactly].
    assert (N : match s with
                | [] => None
                | c0 :: s' =>
                    if in_class [Ch 10] c0
                    then match m_atoms [] (r_eol crlf) s' with
                         | Some r => Some (0%nat, r) | None => None
                         end
                    else @None (nat * list nat)
                end = None).
    { destruct s as [|d s]; [reflexivity|].
      cbn [has_LF existsb] in L2. apply orb_false_elim in L2.
      destruct L2 as [L2 _]. rewrite in_class_LF, L2. reflexivity. }
    destruct (in_class [Ch 13] c).
    + cbn [m_atoms a_many a_cls a_min one exactly] in N |- *.
      destruct s as [|d s]; [rewrite (IH L2); reflexivity|].
      destruct (in_class [Ch 10] d); [discriminate N|].
      rewrite (IH L2). reflexivity.
    + rewrite (IH L2). reflexivity.
Qed.

Lemma tidy_newlines_one_line (t : jsstring) :
  has_LF t = false -> trim t = t -> tidy_newlines t = t.
Proof.
  intros L T. unfold tidy_newlines, Regex.replace.
  change (r_global crlf) with true. change (r_global newlines2) with true.
  cbv iota. rewrite (replace_go_crlf _ _ t L).
  change newlines2 with (RegExp false [atleast 2 [Ch 10]] false [] true).
  rewrite replace_go_quiet; [exact T | lia | apply no_LF_quiet; [lia | exact L]].
Qed.

Lemma reconstruct_one_line (t : jsstring) :
  has_LF t = false -> trim t = t -> isTabular t = false ->
  reconstruct t
  = if is_empty t then []
    else if isHeading t [] then [Heading t] else [Paragraph t].
Proof.
  intros L T Tab. rewrite reconstruct_lines.
  rewrite (lines_acc_line t [] L). cbn [rev app loop]. rewrite T.
  destruct (is_empty t) eqn:E; [reflexivity|].
  destruct (isHeading t []); [reflexivity|].
  rewrite Tab. unfold pushParagraphLine. rewrite E.
  unfold finish, flushTableIfIn, flushCurrentParagraph, initial. cbn.
  unfold join. rewrite T. reflexivity.
Qed.


(** X7: the shape of the text the default rules return. With the rules of
    the constructor alone (with or without [splitPascalCase]) the result of
    [_postProcessText] has none of the characters the ten character rules
    replace, no whitespace character but the space, no two spaces in a row,
    no line feed and no whitespace at either end; with [splitPascalCase]
    set it also has no lowercase letter directly followed by a capitalized
    word. *)
Theorem normalized_text_shape (splitPascalCase : option bool) (text : jsstring) :
  let t := _postProcessText (construct_text splitPascalCase None) text [] in
  forallb (fun c => negb (special c)) t = true
  /\ forallb (fun c => negb (is_ws c) || (c =? SP)) t = true
  /\ quiet [Ws] 2 t = true
  /\ has_LF t = false
  /\ trim t = t
  /\ match splitPascalCase with
     | Some true => hump t = false
     | _ => True
     end.
Proof.
  cbv zeta. destruct (default_shape splitPascalCase text) as (C & T & Tr & H).
  destruct (tidy_quiet _ false T) as (Q & _ & F).
  split; [exact C|]. split; [exact F|]. split; [exact Q|].
  split; [exact (tidy_no_LF _ false T)|]. split; [exact Tr|].
  destruct splitPascalCase as [[|]|]; auto.
Qed.

(** *** The visible text under the default rules *)

Lemma ws_not_special (c : Z) : is_ws c = true -> special c = false.
Proof.
  unfold special, in_class, is_ws. cbn [existsb cc_mem]. lia.
Qed.

Lemma ink_norm_char (c : Z) :
  ink (norm_char c) = if is_ws c then [] else norm_char c.
Proof.
  destruct (is_ws c) eqn:W.
  - rewrite (norm_char_plain c (ws_not_special c W)). cbn [ink filter].
    rewrite W. reflexivity.
  - unfold norm_char.
    repeat match goal with
           | |- context [if ?b then _ else _] => destruct b
           end; try reflexivity.
    cbn [ink filter]. rewrite W. reflexivity.
Qed.

Lemma ink_flat_map_norm (s : jsstring) :
  ink (flat_map norm_char s) = flat_map norm_char (ink s).
Proof.
  induction s as [|c s IH]; [reflexivity|].
  cbn [flat_map]. rewrite ink_app, ink_norm_char, IH. cbn [ink filter].
  destruct (is_ws c); reflexivity.
Qed.

Lemma ink_collapse (s : jsstring) :
  forall b, ink (collapse_runs whitespace_class [SP] b s) = ink s.
Proof.
  induction s as [|c s IH]; intros b; [reflexivity|].
  cbn [collapse_runs]. rewrite whitespace_class_is_ws.
  cbn [ink filter]. destruct (is_ws c) eqn:W.
  - destruct b; [apply IH|]. rewrite ink_app. cbn [ink filter].
    change (is_ws SP) with true. cbn [negb app]. apply IH.
  - cbn [ink filter]. rewrite W. cbn [negb]. f_equal. apply IH.
Qed.

Lemma ink_spaced (s o : jsstring) : spaced s o -> ink o = ink s.
Proof.
  intros H. induction H as [|c s o H IH|l u s o Hl Hu H IH].
  - reflexivity.
  - change (c :: o) with ([c] ++ o). change (c :: s) with ([c] ++ s).
    rewrite !ink_app, IH. reflexivity.
  - change (l :: SP :: o) with ([l] ++ [SP] ++ o).
    change (l :: u :: s) with ([l] ++ (u :: s)).
    rewrite !ink_app, IH. reflexivity.
Qed.

Lemma ink_builtin (text : jsstring) :
  ink (run_rules builtinRules text) = flat_map norm_char (ink text).
Proof. rewrite run_builtinRules, ink_collapse. apply ink_flat_map_norm. Qed.

Lemma ink_postProcessText
        (splitPascalCase : option bool) (text : jsstring) :
  ink (_postProcessText (construct_text splitPascalCase None) text [])
  = flat_map norm_char (ink text).
Proof.
  assert (B : ink (normalize_spec text) = flat_map norm_char (ink text)).
  { unfold normalize_spec. rewrite ink_trim, ink_collapse.
    apply ink_flat_map_norm. }
  destruct splitPascalCase as [[|]|].
  - rewrite postProcessText_split. destruct text as [|c text]; [reflexivity|].
    destruct (run_splitRules (run_rules builtinRules (c :: text)))
      as (E & _ & S1 & S2).
    rewrite ink_trim, E, (ink_spaced _ _ S2), (ink_spaced _ _ S1).
    apply ink_builtin.
  - change (construct_text (Some false) None) with (construct_text None None).
    rewrite postProcessText_builtin. exact B.
  - rewrite postProcessText_builtin. exact B.
Qed.

(** X8: the default rules change whitespace only, apart from the characters
    they replace. The characters that are not whitespace of what
    [_postProcessText] returns with the rules of the constructor alone are
    those of the input, in order, each one as the ten character rules
    rewrite it (a ligature as its letters, a curly quote as a straight one,
    a bullet or a dash as a hyphen, the soft hyphen as nothing). *)
Theorem normalization_keeps_the_visible_text
        (splitPascalCase : option bool) (text : jsstring) :
  ink (_postProcessText (construct_text splitPascalCase None) text [])
  = flat_map norm_char (ink text).
Proof. apply ink_postProcessText. Qed.

(** X9: whatever the rules of the constructor and of the call are, what
    [_postProcessText] returns has no whitespace at its start or at its
    end. *)
Theorem postProcessText_is_trimmed
        (this : TextConfig) (text : jsstring)
        (additionalRules : list PostProcessRule) :
  let t := _postProcessText this text additionalRules in
  trim t = t /\ clean_head t = true /\ clean_last t = true.
Proof.
  cbv zeta. unfold _postProcessText.
  destruct text as [|c text]; [repeat split|].
  split; [apply trim_idem|]. split.
  - unfold trim. apply clean_head_trimEnd, clean_head_trimStart.
  - unfold trim. apply clean_last_trimEnd.
Qed.

(** *** The default rules and the reconstruction *)

Lemma default_pipeline (splitPascalCase : option bool)
        (text : jsstring) :
  let t := _postProcessText (construct_text splitPascalCase None) text [] in
  has_LF t = false
  /\ tidy_newlines t = t
  /\ reconstruct (tidy_newlines t)
     = (if is_empty t then []
        else if isHeading t [] then [Heading t] else [Paragraph t])
  /\ _convertToMarkdownLogic (tidy_newlines t)
     = (if is_empty t then []
        else if isHeading t [] then lit "# " ++ t else t).
Proof.
  cbv zeta. destruct (default_shape splitPascalCase text) as (C & T & Tr & _).
  set (t := _postProcessText (construct_text splitPascalCase None) text []) in *.
  pose proof (tidy_no_LF t false T) as L.
  pose proof (tidy_newlines_one_line t L Tr) as N.
  pose proof (reconstruct_one_line t L Tr (tidy_not_tabular t T)) as R.
  split; [exact L|]. split; [exact N|]. rewrite N. split; [exact R|].
  rewrite convert_rendered, R.
  destruct (is_empty t); [reflexivity|].
  destruct (isHeading t []); reflexivity.
Qed.

(** X10: with the default rules the whole document is one block. What
    [_postProcessText] returns with the rules of the constructor alone (with
    or without [splitPascalCase]) has no line feed, so the replacements of
    line breaks that the conversions apply next change nothing, and
    [_convertToMarkdownLogic] makes of it no block when it is empty, and
    else a single Heading or a single Paragraph of the whole text: the
    Markdown returned is that text, with [# ] in front when the text counts
    as a heading. *)
Theorem default_rules_leave_one_block (splitPascalCase : option bool)
        (text : jsstring) :
  let t := _postProcessText (construct_text splitPascalCase None) text [] in
  has_LF t = false
  /\ tidy_newlines t = t
  /\ reconstruct (tidy_newlines t)
     = (if is_empty t then []
        else if isHeading t [] then [Heading t] else [Paragraph t])
  /\ _convertToMarkdownLogic (tidy_newlines t)
     = (if is_empty t then []
        else if isHeading t [] then lit "# " ++ t else t).
Proof. apply default_pipeline. Qed.

End DefaultRules.

(* ================================================================== *)
(** ** The conversions, from the pages to the Markdown *)

Section Conversions.

Local Open Scope string_scope.
Local Open Scope list_scope.

Local Arguments _convertToMarkdownLogic : simpl never.
Local Arguments tidy_newlines : simpl never.
Local Arguments _postProcessText : simpl never.

Ltac run_M :=
  unfold bind, await, emit, progressCallback, ret, throw, this, assign,
         try_catch in *; simpl in *.

(** *** The text of a page *)


Lemma pageText_ink (items : list text_item) :
  forall buf,
    ink (pageText buf items) = ink buf ++ flat_map (fun it => ink (str it)) items.
Proof.
  induction items as [|item rest IH]; intros buf.
  - cbn. rewrite app_nil_r. reflexivity.
  - cbn [pageText flat_map]. rewrite IH.
    rewrite app_assoc. f_equal.
    destruct (hasEOL item).
    + destruct (endsWith [LF] (buf ++ str item)); rewrite ?ink_app;
        cbn; rewrite ?app_nil_r; reflexivity.
    + destruct rest as [|nextItem rest']; [apply ink_app|].
      destruct (sameLine item nextItem && gapNotNegative item nextItem);
        rewrite ?ink_app; cbn; rewrite ?app_nil_r; reflexivity.
Qed.

Lemma endsWith_app (c : Z) (a b : jsstring) :
  b <> [] -> endsWith [c] (a ++ b) = endsWith [c] b.
Proof.
  intros Hb. unfold endsWith. rewrite rev_app_distr.
  destruct (rev b) as [|x r] eqn:E; [|reflexivity].
  apply (f_equal (@rev Z)) in E. rewrite rev_involutive in E. contradiction.
Qed.

Lemma pageText_lines (items : list text_item) :
  forallb (fun it => hasEOL it && negb (is_empty (str it))) items = true ->
  forall buf,
    pageText buf items
    = buf ++ flat_map (fun it => if endsWith [LF] (str it) then str it
                                 else str it ++ [LF]) items.
Proof.
  induction items as [|item rest IH]; intros H buf.
  - cbn. rewrite app_nil_r. reflexivity.
  - cbn [forallb] in H. apply andb_prop in H. destruct H as [Hi H].
    apply andb_prop in Hi. destruct Hi as [He Hn].
    cbn [pageText flat_map]. rewrite He.
    assert (N : str item <> []) by (destruct (str item); [discriminate Hn | discriminate]).
    rewrite (endsWith_app LF buf (str item) N).
    destruct (endsWith [LF] (str item)); rewrite (IH H), <- ?app_assoc; reflexivity.
Qed.

(** X11: the text of a page is the text of its items, in order, with at most
    one character put after each item. The loop over the items of
    [_extractTextWithPdfJs] loses, adds and reorders no visible character:
    the characters that are not whitespace of the page text are those of
    the buffer it started from and of the items' [str], in order; and the
    page text is at most one character per item longer than these taken
    together. *)
Theorem page_text_keeps_the_items (items : list text_item) (buf : jsstring) :
  ink (pageText buf items) = ink buf ++ flat_map (fun it => ink (str it)) items
  /\ (List.length (pageText buf items)
      <= List.length buf + List.length (flat_map str items) + List.length items)%nat.
Proof.
  split; [apply pageText_ink|].
  revert buf. induction items as [|item rest IH]; intros buf.
  - cbn. lia.
  - cbn [pageText flat_map List.length]. rewrite length_app.
    match goal with
    | |- (List.length (pageText ?b rest) <= _)%nat =>
        specialize (IH b);
        assert (L : (List.length b <= List.length buf + List.length (str item) + 1)%nat)
    end.
    { destruct (hasEOL item).
      - destruct (endsWith [LF] (buf ++ str item)); rewrite ?length_app; cbn; lia.
      - destruct rest as [|nextItem rest']; [rewrite length_app; lia|].
        destruct (sameLine item nextItem && gapNotNegative item nextItem);
          rewrite ?length_app; cbn; lia. }
    lia.
Qed.

(** X12: items that end their line become lines. When every item of a page
    has [hasEOL] set and a [str] that is not empty, the page text is each
    item's [str] followed by one line feed, which is not added when the
    [str] already ends with one. *)
Theorem items_with_EOL_are_lines (items : list text_item) (buf : jsstring) :
  forallb (fun it => hasEOL it && negb (is_empty (str it))) items = true ->
  pageText buf items
  = buf ++ flat_map (fun it => if endsWith [LF] (str it) then str it
                               else str it ++ [LF]) items.
Proof. intros H. apply pageText_lines, H. Qed.

Lemma items_with_EOL_are_lines_witness :
  pageText [] [Scenes.line_item "Annual Report"; Scenes.line_item "Revenue grew."]
  = [] ++ flat_map (fun it => if endsWith [LF] (str it) then str it
                              else str it ++ [LF])
                   [Scenes.line_item "Annual Report";
                    Scenes.line_item "Revenue grew."].
Proof.
  apply (items_with_EOL_are_lines
           [Scenes.line_item "Annual Report"; Scenes.line_item "Revenue grew."] []).
  reflexivity.
Defined.

(** *** The page loops *)


Lemma extractPages_run (pages : list pdf_page) :
  forall numPages pageNum fullText i tr,
    forallb extract_page_ok pages = true ->
    extractPages numPages pageNum pages fullText i tr
    = (Returns (fullText ++ flat_map page_chunk pages), i,
       tr ++ extract_events numPages pageNum pages).
Proof.
  induction pages as [|pg rest IH]; intros numPages pageNum fullText i tr H.
  - cbn. rewrite !app_nil_r. reflexivity.
  - cbn [forallb] in H. apply andb_prop in H. destruct H as [Hp H].
    unfold extract_page_ok in Hp. apply andb_prop in Hp. destruct Hp as [H1 H2].
    cbn [extractPages extract_events flat_map]. unfold page_chunk at 1.
    run_M.
    destruct (getPage pg) as [[]|m1]; [|discriminate H1].
    destruct (getTextContent pg) as [tc|m2]; [|discriminate H2].
    cbn. rewrite IH by exact H.
    rewrite <- !app_assoc. cbn.
    destruct tc as [items|]; cbn;
      repeat match goal with
             | |- context [if ?b then _ else _] => destruct b
             end; rewrite <- ?app_assoc; reflexivity.
Qed.

Lemma reports_app (s : string) (a b : list event) :
  reports s (a ++ b) = reports s a || reports s b.
Proof. apply existsb_app. Qed.

Lemma extractPages_any (pages : list pdf_page) :
  forall numPages pageNum fullText i tr,
  exists o evs,
    extractPages numPages pageNum pages fullText i tr = (o, i, tr ++ evs)
    /\ existsb is_llm_call evs = false
    /\ (forall s, String.eqb "pdfjs_page" s = false -> reports s evs = false)
    /\ settled o = forallb extract_page_ok pages.
Proof.
  induction pages as [|pg rest IH]; intros numPages pageNum fullText i tr.
  - exists (Returns fullText), []. cbn. rewrite app_nil_r. auto.
  - cbn [extractPages forallb]. unfold extract_page_ok at 1. run_M.
    destruct (getPage pg) as [[]|m1]; cbn.
    2:{ exists (Throws m1). eexists. rewrite <- !app_assoc. cbn.
        split; [reflexivity|]. split; [reflexivity|]. split; [|reflexivity].
        intros s Hs. cbn. rewrite Hs. reflexivity. }
    destruct (getTextContent pg) as [tc|m2]; cbn.
    2:{ exists (Throws m2). eexists. rewrite <- !app_assoc. cbn.
        split; [reflexivity|]. split; [reflexivity|]. split; [|reflexivity].
        intros s Hs. cbn. rewrite Hs. reflexivity. }
    match goal with
    | |- context [extractPages ?n ?p rest ?a ?i0 ?t] =>
        destruct (IH n p a i0 t) as (o & evs & E & L & R & St)
    end.
    rewrite E. exists o. eexists. rewrite <- !app_assoc. cbn.
    split; [reflexivity|]. split; [exact L|]. split; [|exact St].
    intros s Hs. cbn. rewrite Hs. cbn. apply R, Hs.
Qed.

Lemma ocrPages_run (pages : list pdf_page) :
  forall scale numPages pageNum acc i tr,
    forallb ocr_page_ok pages = true ->
    ocrPages scale numPages pageNum pages acc i tr
    = (Returns (acc ++ flat_map ocr_chunk pages), i,
       tr ++ ocr_events scale numPages pageNum pages).
Proof.
  induction pages as [|pg rest IH]; intros scale numPages pageNum acc i tr H.
  - cbn. rewrite !app_nil_r. reflexivity.
  - cbn [forallb] in H. apply andb_prop in H. destruct H as [Hp H].
    unfold ocr_page_ok in Hp. apply andb_prop in Hp. destruct Hp as [Hp H3].
    apply andb_prop in Hp. destruct Hp as [H1 H2].
    cbn [ocrPages ocr_events flat_map]. unfold ocr_chunk at 1. run_M.
    destruct (getPage pg) as [[]|m1]; [|discriminate H1].
    destruct (render pg) as [[]|m2]; [|discriminate H2].
    destruct (recognize pg) as [text|m3]; [|discriminate H3].
    cbn. rewrite IH by exact H. rewrite <- !app_assoc. reflexivity.
Qed.

Lemma ocrPages_any (pages : list pdf_page) :
  forall scale numPages pageNum acc i tr,
  exists o evs,
    ocrPages scale numPages pageNum pages acc i tr = (o, i, tr ++ evs)
    /\ existsb is_llm_call evs = false
    /\ (forall s, String.eqb "ocr_render_page" s = false ->
                  String.eqb "ocr_recognize_page" s = false ->
                  reports s evs = false)
    /\ settled o = forallb ocr_page_ok pages.
Proof.
  induction pages as [|pg rest IH]; intros scale numPages pageNum acc i tr.
  - exists (Returns acc), []. cbn. rewrite app_nil_r. auto.
  - cbn [ocrPages forallb]. unfold ocr_page_ok at 1. run_M.
    destruct (getPage pg) as [[]|m1]; cbn.
    2:{ exists (Throws m1). eexists. rewrite <- !app_assoc. cbn.
        split; [reflexivity|]. split; [reflexivity|]. split; [|reflexivity].
        intros s Hs Hs'. cbn. rewrite Hs. reflexivity. }
    destruct (render pg) as [[]|m2]; cbn.
    2:{ exists (Throws m2). eexists. rewrite <- !app_assoc. cbn.
        split; [reflexivity|]. split; [reflexivity|]. split; [|reflexivity].
        intros s Hs Hs'. cbn. rewrite Hs. reflexivity. }
    destruct (recognize pg) as [text|m3]; cbn.
    2:{ exists (Throws m3). eexists. rewrite <- !app_assoc. cbn.
        split; [reflexivity|]. split; [reflexivity|]. split; [|reflexivity].
        intros s Hs Hs'. cbn. rewrite Hs, Hs'. reflexivity. }
    match goal with
    | |- context [ocrPages ?sc ?n ?p rest ?a ?i0 ?t] =>
        destruct (IH sc n p a i0 t) as (o & evs & E & L & R & St)
    end.
    rewrite E. exists o. eexists. rewrite <- !app_assoc. cbn.
    split; [reflexivity|]. split; [exact L|]. split; [|exact St].
    intros s Hs Hs'. cbn. rewrite Hs, Hs'. cbn. apply R; assumption.
Qed.

(** *** The quick conversion *)


Lemma quickConvert_run
        (h : host) (f : File) (rules : option (list PostProcessRule))
        (i : instance) (tr : list event) (buf : list Z) (doc : list pdf_page) :
  pdfjs_loaded h = true ->
  arrayBuffer f = Returns buf ->
  getDocument h buf = Returns doc ->
  forallb extract_page_ok doc = true ->
  quickConvert h (JFile f) rules i tr
  = (Returns (_convertToMarkdownLogic
                (tidy_newlines
                   (_postProcessText (text_cfg i) (flat_map page_chunk doc)
                                     (rules_or_none rules)))),
     i,
     tr ++ [Progress (at_stage "start_quick"); FileArrayBuffer;
            Progress (at_stage "pdfjs_load"); PdfGetDocument]
        ++ extract_events (List.length doc) 1 doc
        ++ [Progress (at_stage "pdfjs_extract_complete");
            Progress (at_stage "postprocess_quick");
            Progress (at_stage "markdown_quick");
            Progress (at_stage "complete_quick")]).
Proof.
  intros Hp Hb Hd Hok.
  unfold quickConvert, _extractTextWithPdfJs. rewrite Hp. run_M.
  rewrite Hb, Hd. rewrite extractPages_run by exact Hok.
  rewrite <- !app_assoc. reflexivity.
Qed.

(** X13: the quick conversion, when nothing fails. With pdf.js loaded, the
    file read, the document opened and every page and its text content
    obtained, [quickConvert] resolves to [_convertToMarkdownLogic] of the
    line-break replacements of [_postProcessText] of the texts of the pages
    one after the other, with the rules of the call last; it leaves the
    instance as it was; and what happens is, in this order: the report
    start_quick, the read of the file, the report pdfjs_load, the opening of
    the document, for each page its report, its [getPage] and its
    [getTextContent], then the reports pdfjs_extract_complete,
    postprocess_quick, markdown_quick and complete_quick. *)
Theorem quick_convert_success
        (h : host) (f : File) (rules : option (list PostProcessRule))
        (i : instance) (tr : list event) (buf : list Z) (doc : list pdf_page) :
  pdfjs_loaded h = true ->
  arrayBuffer f = Returns buf ->
  getDocument h buf = Returns doc ->
  forallb extract_page_ok doc = true ->
  quickConvert h (JFile f) rules i tr
  = (Returns (_convertToMarkdownLogic
                (tidy_newlines
                   (_postProcessText (text_cfg i) (flat_map page_chunk doc)
                                     (rules_or_none rules)))),
     i,
     tr ++ [Progress (at_stage "start_quick"); FileArrayBuffer;
            Progress (at_stage "pdfjs_load"); PdfGetDocument]
        ++ extract_events (List.length doc) 1 doc
        ++ [Progress (at_stage "pdfjs_extract_complete");
            Progress (at_stage "postprocess_quick");
            Progress (at_stage "markdown_quick");
            Progress (at_stage "complete_quick")]).
Proof. apply quickConvert_run. Qed.

Lemma quick_convert_success_witness :
  quickConvert Scenes.good_host (JFile Fixtures.some_file) None Fixtures.fresh []
  = (Returns (_convertToMarkdownLogic
                (tidy_newlines
                   (_postProcessText (text_cfg Fixtures.fresh)
                                     (flat_map page_chunk Scenes.two_pages)
                                     (rules_or_none None)))),
     Fixtures.fresh,
     [] ++ [Progress (at_stage "start_quick"); FileArrayBuffer;
            Progress (at_stage "pdfjs_load"); PdfGetDocument]
        ++ extract_events (List.length Scenes.two_pages) 1 Scenes.two_pages
        ++ [Progress (at_stage "pdfjs_extract_complete");
            Progress (at_stage "postprocess_quick");
            Progress (at_stage "markdown_quick");
            Progress (at_stage "complete_quick")]).
Proof.
  apply (quick_convert_success Scenes.good_host Fixtures.some_file None
           Fixtures.fresh [] [37; 80; 68; 70] Scenes.two_pages);
    reflexivity.
Defined.

Lemma ink_page_chunk (pg : pdf_page) :
  ink (page_chunk pg) = flat_map (fun it => ink (str it)) (page_items pg).
Proof.
  unfold page_chunk, page_items.
  assert (E : forall b, ink (if negb (is_empty (trim b)) && negb (endsWith [LF] b)
                             then b ++ [LF] else b) = ink b).
  { intros b. destruct (negb (is_empty (trim b)) && negb (endsWith [LF] b));
      [|reflexivity].
    rewrite ink_app. apply app_nil_r. }
  rewrite E. destruct (getTextContent pg) as [[items|]|m]; try reflexivity.
  apply (pageText_ink items []).
Qed.

Lemma ink_flat_map (A : Type) (f : A -> jsstring) (l : list A) :
  ink (flat_map f l) = flat_map (fun x => ink (f x)) l.
Proof.
  induction l as [|x l IH]; [reflexivity|]. cbn [flat_map].
  rewrite ink_app, IH. reflexivity.
Qed.

Lemma flat_map_flat_map (A B C : Type) (f : A -> list B) (g : B -> list C)
      (l : list A) :
  flat_map g (flat_map f l) = flat_map (fun x => flat_map g (f x)) l.
Proof.
  induction l as [|x l IH]; [reflexivity|]. cbn [flat_map].
  rewrite flat_map_app, IH. reflexivity.
Qed.

(** X14: the quick conversion with the default rules, from the items to the
    Markdown. On an instance with no rule of its own, called with no rule,
    when nothing fails, [quickConvert] resolves to one line [t], with [# ]
    in front when [t] counts as a heading (and to the empty string when [t]
    is empty): [t] has no line feed, and its characters that are not
    whitespace are those of the [str] of all the items of all the pages, in
    order, each as the ten character rules rewrite it. *)
Theorem quick_convert_with_the_default_rules
        (splitPascalCase : option bool) (h : host) (f : File)
        (i : instance) (tr : list event) (buf : list Z) (doc : list pdf_page) :
  text_cfg i = construct_text splitPascalCase None ->
  pdfjs_loaded h = true ->
  arrayBuffer f = Returns buf ->
  getDocument h buf = Returns doc ->
  forallb extract_page_ok doc = true ->
  let t := _postProcessText (text_cfg i) (flat_map page_chunk doc) [] in
  fst (fst (quickConvert h (JFile f) None i tr))
    = Returns (if is_empty t then []
               else if isHeading t [] then lit "# " ++ t else t)
  /\ has_LF t = false
  /\ ink t = flat_map norm_char
               (flat_map (fun it => ink (str it)) (flat_map page_items doc)).
Proof.
  intros Hcfg Hp Hb Hd Hok t.
  rewrite (quickConvert_run h f None i tr buf doc Hp Hb Hd Hok).
  cbn [fst rules_or_none]. fold t. unfold t. rewrite Hcfg.
  destruct (default_pipeline splitPascalCase (flat_map page_chunk doc))
    as (L & _ & _ & ->).
  split; [reflexivity|]. split; [exact L|].
  rewrite ink_postProcessText, ink_flat_map.
  f_equal. rewrite flat_map_flat_map.
  apply flat_map_ext. intros pg. apply ink_page_chunk.
Qed.

Lemma quick_convert_with_the_default_rules_witness :
  let t := _postProcessText (text_cfg Fixtures.fresh)
                            (flat_map page_chunk Scenes.two_pages) [] in
  fst (fst (quickConvert Scenes.good_host (JFile Fixtures.some_file) None
                         Fixtures.fresh []))
    = Returns (if is_empty t then []
               else if isHeading t [] then lit "# " ++ t else t)
  /\ has_LF t = false
  /\ ink t = flat_map norm_char
               (flat_map (fun it => ink (str it))
                         (flat_map page_items Scenes.two_pages)).
Proof.
  apply (quick_convert_with_the_default_rules None Scenes.good_host
           Fixtures.some_file Fixtures.fresh [] [37; 80; 68; 70]
           Scenes.two_pages);
    reflexivity.
Defined.

(** *** The OCR conversion *)


Lemma highAccuracyConvert_run
        (h : host) (f : File) (options : HighAccuracyConvertOptions)
        (i : instance) (tr : list event) (buf : list Z) (doc : list pdf_page) :
  pdfjs_loaded h = true ->
  Tesseract_loaded h = true ->
  createWorker h (or_default (ocr_tesseractLanguage options) (tesseractLanguage i))
    = Returns tt ->
  arrayBuffer f = Returns buf ->
  getDocument h buf = Returns doc ->
  forallb ocr_page_ok doc = true ->
  terminate h = Returns tt ->
  highAccuracyConvert h (JFile f) options i tr
  = (Returns (_convertToMarkdownLogic
                (tidy_newlines
                   (_postProcessText (text_cfg i) (flat_map ocr_chunk doc)
                      (rules_or_none (ocr_postProcessRules options))))),
     i,
     tr ++ [Progress (at_stage "start_ocr");
            Progress (at_stage "ocr_worker_init");
            TessCreateWorker (or_default (ocr_tesseractLanguage options)
                                         (tesseractLanguage i));
            FileArrayBuffer; PdfGetDocument]
        ++ ocr_events (renderScale (pdfRenderScale options)) (List.length doc) 1 doc
        ++ [Progress (at_stage "ocr_terminate_worker"); TessTerminate;
            Progress (at_stage "postprocess_ocr");
            Progress (at_stage "markdown_ocr");
            Progress (at_stage "complete_ocr")]).
Proof.
  intros Hp Ht Hw Hb Hd Hok Hterm.
  unfold highAccuracyConvert. rewrite Hp, Ht. cbn [negb].
  run_M. rewrite Hw, Hb, Hd. rewrite ocrPages_run by exact Hok.
  rewrite Hterm. rewrite <- !app_assoc. reflexivity.
Qed.

(** X15: the OCR conversion, when nothing fails. With pdf.js and Tesseract
    loaded, the worker created, the file read, the document opened, every
    page obtained, rendered and recognized and the worker terminated,
    [highAccuracyConvert] resolves to [_convertToMarkdownLogic] of the
    line-break replacements of [_postProcessText] of the recognized texts,
    each followed by a line feed; it leaves the instance as it was; the
    worker is created for the language of the call, or else of the
    instance, before the file is read; every page is rendered at the scale
    of the call, or else at 2.5; and the worker is terminated after the
    last page and before the text is processed. *)
Theorem high_accuracy_success
        (h : host) (f : File) (options : HighAccuracyConvertOptions)
        (i : instance) (tr : list event) (buf : list Z) (doc : list pdf_page) :
  pdfjs_loaded h = true ->
  Tesseract_loaded h = true ->
  createWorker h (or_default (ocr_tesseractLanguage options) (tesseractLanguage i))
    = Returns tt ->
  arrayBuffer f = Returns buf ->
  getDocument h buf = Returns doc ->
  forallb ocr_page_ok doc = true ->
  terminate h = Returns tt ->
  highAccuracyConvert h (JFile f) options i tr
  = (Returns (_convertToMarkdownLogic
                (tidy_newlines
                   (_postProcessText (text_cfg i) (flat_map ocr_chunk doc)
                      (rules_or_none (ocr_postProcessRules options))))),
     i,
     tr ++ [Progress (at_stage "start_ocr");
            Progress (at_stage "ocr_worker_init");
            TessCreateWorker (or_default (ocr_tesseractLanguage options)
                                         (tesseractLanguage i));
            FileArrayBuffer; PdfGetDocument]
        ++ ocr_events (renderScale (pdfRenderScale options)) (List.length doc) 1 doc
        ++ [Progress (at_stage "ocr_terminate_worker"); TessTerminate;
            Progress (at_stage "postprocess_ocr");
            Progress (at_stage "markdown_ocr");
            Progress (at_stage "complete_ocr")]).
Proof. apply highAccuracyConvert_run. Qed.

Lemma high_accuracy_success_witness :
  highAccuracyConvert Scenes.good_host (JFile Fixtures.some_file)
                      Fixtures.ocr_defaults Fixtures.fresh []
  = (Returns (_convertToMarkdownLogic
                (tidy_newlines
                   (_postProcessText (text_cfg Fixtures.fresh)
                      (flat_map ocr_chunk Scenes.two_pages)
                      (rules_or_none (ocr_postProcessRules Fixtures.ocr_defaults))))),
     Fixtures.fresh,
     [] ++ [Progress (at_stage "start_ocr");
            Progress (at_stage "ocr_worker_init");
            TessCreateWorker
              (or_default (ocr_tesseractLanguage Fixtures.ocr_defaults)
                          (tesseractLanguage Fixtures.fresh));
            FileArrayBuffer; PdfGetDocument]
        ++ ocr_events (renderScale (pdfRenderScale Fixtures.ocr_defaults))
                      (List.length Scenes.two_pages) 1 Scenes.two_pages
        ++ [Progress (at_stage "ocr_terminate_worker"); TessTerminate;
            Progress (at_stage "postprocess_ocr");
            Progress (at_stage "markdown_ocr");
            Progress (at_stage "complete_ocr")]).
Proof.
  apply (high_accuracy_success Scenes.good_host Fixtures.some_file
           Fixtures.ocr_defaults Fixtures.fresh [] [37; 80; 68; 70]
           Scenes.two_pages);
    reflexivity.
Defined.

(** *** What the conversions never do *)


Lemma quickConvert_frame
      (h : host) (pdfFile : jsvalue) (rules : option (list PostProcessRule))
      (i : instance) (tr : list event) :
  exists o evs,
    quickConvert h pdfFile rules i tr = (o, i, tr ++ evs)
    /\ existsb is_llm_call evs = false
    /\ settled o = reports "complete_quick" evs.
Proof.
  destruct pdfFile;
    try (exists (Throws invalid_input), []; rewrite app_nil_r;
         split; [reflexivity | split; reflexivity]).
  unfold quickConvert, _extractTextWithPdfJs. run_M.
  destruct (arrayBuffer f) as [buf|m0]; cbn.
  2:{ do 2 eexists. rewrite <- !app_assoc. repeat split. }
  destruct (pdfjs_loaded h); cbn.
  2:{ do 2 eexists. rewrite <- !app_assoc. repeat split. }
  destruct (getDocument h buf) as [doc|m1]; cbn.
  2:{ do 2 eexists. rewrite <- !app_assoc. repeat split. }
  match goal with
  | |- context [extractPages ?n ?p doc ?a ?i0 ?t] =>
      destruct (extractPages_any doc n p a i0 t) as (o & evs & E & L & R & St)
  end.
  rewrite E.
  destruct o as [text|m2]; do 2 eexists; rewrite <- !app_assoc;
    (split; [reflexivity|]);
    rewrite !existsb_app, !reports_app, L, (R "complete_quick" eq_refl);
    split; reflexivity.
Qed.

Lemma highAccuracyConvert_frame
      (h : host) (pdfFile : jsvalue) (options : HighAccuracyConvertOptions)
      (i : instance) (tr : list event) :
  exists o evs,
    highAccuracyConvert h pdfFile options i tr = (o, i, tr ++ evs)
    /\ existsb is_llm_call evs = false
    /\ settled o = reports "complete_ocr" evs.
Proof.
  destruct pdfFile;
    try (exists (Throws invalid_input), []; rewrite app_nil_r;
         split; [reflexivity | split; reflexivity]).
  unfold highAccuracyConvert.
  destruct (pdfjs_loaded h); cbn [negb].
  2:{ eexists. exists []. rewrite app_nil_r. repeat split. }
  destruct (Tesseract_loaded h); cbn [negb].
  2:{ eexists. exists []. rewrite app_nil_r. repeat split. }
  run_M.
  destruct (createWorker h _) as [[]|m0]; cbn.
  2:{ do 2 eexists. rewrite <- !app_assoc. repeat split. }
  destruct (arrayBuffer f) as [buf|m1]; cbn.
  2:{ do 2 eexists. rewrite <- !app_assoc. repeat split. }
  destruct (getDocument h buf) as [doc|m2]; cbn.
  2:{ do 2 eexists. rewrite <- !app_assoc. repeat split. }
  match goal with
  | |- context [ocrPages ?sc ?n ?p doc ?a ?i0 ?t] =>
      destruct (ocrPages_any doc sc n p a i0 t) as (o & evs & E & L & R & St)
  end.
  rewrite E.
  destruct o as [text|m3]; [destruct (terminate h) as [[]|m4]|];
    do 2 eexists; rewrite <- !app_assoc;
    (split; [reflexivity|]);
    rewrite !existsb_app, !reports_app, L, (R "complete_ocr" eq_refl eq_refl);
    split; reflexivity.
Qed.

(** X16: what the conversions never do. Whatever the argument, the
    libraries and the pages are, [quickConvert] and [highAccuracyConvert]
    leave the instance exactly as it was, make no call into WebLLM, and
    report their last stage (complete_quick, complete_ocr) exactly when
    they resolve: never before a rejection. *)
Theorem conversions_leave_the_engine_alone
        (h : host) (pdfFile : jsvalue)
        (rules : option (list PostProcessRule))
        (options : HighAccuracyConvertOptions)
        (i : instance) (tr : list event) :
  (exists o evs,
     quickConvert h pdfFile rules i tr = (o, i, tr ++ evs)
     /\ existsb is_llm_call evs = false
     /\ settled o = reports "complete_quick" evs)
  /\ (exists o evs,
        highAccuracyConvert h pdfFile options i tr = (o, i, tr ++ evs)
        /\ existsb is_llm_call evs = false
        /\ settled o = reports "complete_ocr" evs).
Proof.
  split; [apply quickConvert_frame | apply highAccuracyConvert_frame].
Qed.

(** *** Missing libraries and a worker that cannot be created *)


(** X17: the missing libraries. Without pdf.js, [highAccuracyConvert] throws
    the pdf.js error at once, with nothing reported and nothing called,
    while [quickConvert] throws it only after it reported start_quick and
    read the file; with pdf.js but without Tesseract,
    [highAccuracyConvert] throws the Tesseract error at once. The instance
    is unchanged in each case. *)
Theorem missing_libraries
        (h h' : host) (f : File) (buf : list Z)
        (rules : option (list PostProcessRule))
        (options : HighAccuracyConvertOptions)
        (i : instance) (tr : list event) :
  pdfjs_loaded h = false ->
  arrayBuffer f = Returns buf ->
  pdfjs_loaded h' = true ->
  Tesseract_loaded h' = false ->
  highAccuracyConvert h (JFile f) options i tr = (Throws pdfjs_missing, i, tr)
  /\ quickConvert h (JFile f) rules i tr
     = (Throws pdfjs_missing, i,
        tr ++ [Progress (at_stage "start_quick"); FileArrayBuffer])
  /\ highAccuracyConvert h' (JFile f) options i tr
     = (Throws "Tesseract.js library is not loaded.", i, tr).
Proof.
  intros Hp Hb Hp' Ht'. split; [|split].
  - unfold highAccuracyConvert. rewrite Hp. reflexivity.
  - unfold quickConvert, _extractTextWithPdfJs. rewrite Hp. run_M.
    rewrite Hb. rewrite <- !app_assoc. reflexivity.
  - unfold highAccuracyConvert. rewrite Hp', Ht'. reflexivity.
Qed.

Lemma missing_libraries_witness :
  highAccuracyConvert Scenes.without_pdfjs (JFile Fixtures.some_file)
                      Fixtures.ocr_defaults Fixtures.fresh []
    = (Throws pdfjs_missing, Fixtures.fresh, [])
  /\ quickConvert Scenes.without_pdfjs (JFile Fixtures.some_file) None
                  Fixtures.fresh []
     = (Throws pdfjs_missing, Fixtures.fresh,
        [] ++ [Progress (at_stage "start_quick"); FileArrayBuffer])
  /\ highAccuracyConvert Scenes.without_Tesseract (JFile Fixtures.some_file)
                         Fixtures.ocr_defaults Fixtures.fresh []
     = (Throws "Tesseract.js library is not loaded.", Fixtures.fresh, []).
Proof.
  apply (missing_libraries Scenes.without_pdfjs Scenes.without_Tesseract
           Fixtures.some_file [37; 80; 68; 70] None Fixtures.ocr_defaults
           Fixtures.fresh []);
    reflexivity.
Defined.

(** X18: a worker that cannot be created. When [Tesseract.createWorker]
    rejects, [highAccuracyConvert] reports ocr_worker_error with the error,
    and throws an error whose message is that of the rejection after
    [Failed to initialize Tesseract worker: ]; the file is not read, pdf.js
    is not called and the instance is unchanged. *)
Theorem worker_creation_failure
        (h : host) (f : File) (options : HighAccuracyConvertOptions)
        (i : instance) (tr : list event) (message : string) :
  pdfjs_loaded h = true ->
  Tesseract_loaded h = true ->
  createWorker h (or_default (ocr_tesseractLanguage options) (tesseractLanguage i))
    = Throws message ->
  highAccuracyConvert h (JFile f) options i tr
  = (Throws ("Failed to initialize Tesseract worker: " ++ message), i,
     tr ++ [Progress (at_stage "start_ocr");
            Progress (at_stage "ocr_worker_init");
            TessCreateWorker (or_default (ocr_tesseractLanguage options)
                                         (tesseractLanguage i));
            Progress (failed "ocr_worker_error" message)]).
Proof.
  intros Hp Ht Hw. unfold highAccuracyConvert. rewrite Hp, Ht. cbn [negb].
  run_M. rewrite Hw. rewrite <- !app_assoc. reflexivity.
Qed.

Lemma worker_creation_failure_witness :
  highAccuracyConvert
    (Scenes.host_with (Throws "no worker") (Returns None) (Returns tt))
    (JFile Fixtures.some_file) Fixtures.ocr_defaults Fixtures.fresh []
  = (Throws ("Failed to initialize Tesseract worker: " ++ "no worker"),
     Fixtures.fresh,
     [] ++ [Progress (at_stage "start_ocr");
            Progress (at_stage "ocr_worker_init");
            TessCreateWorker
              (or_default (ocr_tesseractLanguage Fixtures.ocr_defaults)
                          (tesseractLanguage Fixtures.fresh));
            Progress (failed "ocr_worker_error" "no worker")]).
Proof.
  apply (worker_creation_failure
           (Scenes.host_with (Throws "no worker") (Returns None) (Returns tt))
           Fixtures.some_file Fixtures.ocr_defaults Fixtures.fresh []
           "no worker");
    reflexivity.
Defined.

End Conversions.

(* ================================================================== *)
(** ** The generative engine at its edges *)

Section EngineEdges.

Local Open Scope string_scope.
Local Open Scope list_scope.

Local Arguments includes : simpl never.

Ltac run_M :=
  unfold bind, await, emit, progressCallback, ret, throw, this, assign,
         try_catch in *; simpl in *.

(** *** Loading and unloading *)


Lemma unready (e : engine) (i : instance) :
  chatModule i = None -> llmInitialized i = false ->
  set_llmInitialized false (set_chatModule None (ready e i)) = i.
Proof.
  destruct i. cbn. intros -> ->. reflexivity.
Qed.

Lemma or_default_some (m d : string) : m <> EmptyString -> or_default (Some m) d = m.
Proof. destruct m; [contradiction | reflexivity]. Qed.

(** X19: loading and unloading are a round trip. From an instance with no
    engine, on the CreateMLCEngine path, a rewrite for a model whose
    library is known creates the engine, once; [unloadLLM] then calls its
    [unload], once, between the reports llm_unload and
    llm_unload_complete, and leaves the instance exactly as it was before
    the rewrite; and on an instance with no engine [unloadLLM] does
    nothing at all. *)
Theorem unload_round_trip
        (h : host) (i : instance) (m : string) (e : engine) (text : jsstring)
        (tpl : option (jsstring -> jsstring)) (tr : list event) :
  WebLLMCreateEngine i = true ->
  chatModule i = None ->
  llmInitialized i = false ->
  m <> EmptyString ->
  lib_known i m = true ->
  CreateMLCEngine h m = Returns (Some e) ->
  unload_is_function e = true ->
  unload h = Returns tt ->
  exists o evs,
    llmRewrite h text (RewriteOptions (Some m) tpl) i tr
      = (o, ready (with_modelId m e) i, tr ++ evs)
    /\ init_calls evs = 1%nat
    /\ unloadLLM h (ready (with_modelId m e) i) (tr ++ evs)
       = (Returns tt, i,
          tr ++ evs ++ [Progress (at_stage "llm_unload"); LlmUnload;
                        Progress (at_stage "llm_unload_complete")])
    /\ unloadLLM h i tr = (Returns tt, i, tr).
Proof.
  intros Hc Hn Hi Hm Hl He Hu Hun.
  pose proof (initializeLLM_fresh h i m e tr Hc Hn Hl He) as I1.
  destruct (llmRewrite_after_init h i _ m text tpl tr _ _ Hm I1)
    as (o1 & g1 & R1 & G1 & _).
  rewrite <- app_assoc in R1.
  eexists. eexists. split; [exact R1|]. split.
  - rewrite !init_calls_app, G1, init_calls_load. reflexivity.
  - split.
    + pose proof (unloadLLM_effect h (ready (with_modelId m e) i)) as U.
      cbn [ready set_llmInitialized set_chatModule chatModule] in U.
      rewrite U by assumption.
      change (set_llmInitialized false
                (set_chatModule None
                   (set_llmInitialized true
                      (set_chatModule (Some (with_modelId m e)) i))))
        with (set_llmInitialized false
                (set_chatModule None (ready (with_modelId m e) i))).
      rewrite (unready _ i Hn Hi). rewrite <- !app_assoc. reflexivity.
    + pose proof (unloadLLM_effect h i tr) as U. rewrite Hn in U. exact U.
Qed.

Lemma unload_round_trip_witness :
  exists o evs,
    llmRewrite Fixtures.page_host (lit "Some text.")
               (RewriteOptions (Some DEFAULT_LLM_MODEL) None) Fixtures.fresh []
      = (o, ready (with_modelId DEFAULT_LLM_MODEL Fixtures.mlc_engine) Fixtures.fresh,
         [] ++ evs)
    /\ init_calls evs = 1%nat
    /\ unloadLLM Fixtures.page_host
                 (ready (with_modelId DEFAULT_LLM_MODEL Fixtures.mlc_engine)
                        Fixtures.fresh) ([] ++ evs)
       = (Returns tt, Fixtures.fresh,
          [] ++ evs ++ [Progress (at_stage "llm_unload"); LlmUnload;
                        Progress (at_stage "llm_unload_complete")])
    /\ unloadLLM Fixtures.page_host Fixtures.fresh [] = (Returns tt, Fixtures.fresh, []).
Proof.
  apply (unload_round_trip Fixtures.page_host Fixtures.fresh DEFAULT_LLM_MODEL
           Fixtures.mlc_engine (lit "Some text.") None []);
    try reflexivity; intros H; discriminate H.
Defined.

(** *** When the engine cannot be had *)


(** X20: without WebLLM there is no rewrite. On an instance constructed
    where CreateMLCEngine is found neither in the module, nor on
    [window.webLLM], nor as the named import, and Chat neither as the named
    import nor on [window.webLLM], [llmRewrite] throws the
    WebLLM-not-loaded error at once, whatever its arguments: nothing is
    reported or called and the instance is unchanged; [unloadLLM] does
    nothing. A Chat that only the module exposes is not looked for. *)
Theorem no_webllm_no_rewrite
        (h : host) (w : webllm_probe) (options : Extract2MDOptions)
        (text : jsstring) (rw : LLMRewriteOptions) (tr : list event) :
  module_CreateMLCEngine w = false ->
  window_CreateMLCEngine w = false ->
  imported_CreateMLCEngine w = false ->
  imported_Chat w = false ->
  window_Chat w = false ->
  llmRewrite h text rw (constructor w options) tr
    = (Throws webllm_missing, constructor w options, tr)
  /\ unloadLLM h (constructor w options) tr
     = (Returns tt, constructor w options, tr).
Proof.
  intros H1 H2 H3 H4 H5. split; [|reflexivity].
  unfold llmRewrite, _initializeLLM. run_M.
  rewrite H1, H2, H3, H4, H5. reflexivity.
Qed.

Lemma no_webllm_no_rewrite_witness :
  llmRewrite Fixtures.page_host (lit "Some text.") (RewriteOptions None None)
             (constructor Scenes.nothing_found Fixtures.no_options) []
    = (Throws webllm_missing, constructor Scenes.nothing_found Fixtures.no_options, [])
  /\ unloadLLM Fixtures.page_host
               (constructor Scenes.nothing_found Fixtures.no_options) []
     = (Returns tt, constructor Scenes.nothing_found Fixtures.no_options, []).
Proof.
  apply (no_webllm_no_rewrite Fixtures.page_host Scenes.nothing_found
           Fixtures.no_options (lit "Some text.") (RewriteOptions None None) []);
    reflexivity.
Defined.

(** The first initialization on the CreateMLCEngine path, whatever the
    external call answers. *)
Lemma initializeLLM_create (h : host) (i : instance) (m : string)
      (tr : list event) :
  WebLLMCreateEngine i = true ->
  chatModule i = None ->
  lib_known i m = true ->
  _initializeLLM h m i tr
  = match CreateMLCEngine h m with
    | Returns c =>
        (Returns tt,
         set_llmInitialized true
           (set_chatModule (option_map (with_modelId m) c)
                           (set_llmInitialized false i)),
         tr ++ [Progress (at_stage "llm_init");
                LlmCreateMLCEngine m (the_lib i) (includes "f16" m)]
            ++ repeat (Progress (at_stage "llm_load_progress")) (load_reports h m)
            ++ [Progress (at_stage "llm_init_complete")])
    | Throws message =>
        (Throws ("LLM initialization failed: " ++ message),
         set_llmInitialized false (set_llmInitialized false i),
         tr ++ [Progress (at_stage "llm_init");
                LlmCreateMLCEngine m (the_lib i) (includes "f16" m)]
            ++ repeat (Progress (at_stage "llm_load_progress")) (load_reports h m)
            ++ [Progress (failed "llm_init_error" message)])
    end.
Proof.
  intros Hc Hn Hl.
  unfold _initializeLLM, await_loading. run_M.
  rewrite Hc, Hn. simpl. rewrite ?andb_false_r. simpl. rewrite ?Hc.
  rewrite (modelLibToUse_known i _ m _) by exact Hl.
  rewrite loadProgress_trace.
  destruct (CreateMLCEngine h m) as [c|message]; run_M;
    rewrite <- !app_assoc; reflexivity.
Qed.

Lemma llmRewrite_create_fails
        (h : host) (i : instance) (m message : string) (text : jsstring)
        (tpl : option (jsstring -> jsstring)) (tr : list event) :
  WebLLMCreateEngine i = true ->
  chatModule i = None ->
  llmInitialized i = false ->
  m <> EmptyString ->
  lib_known i m = true ->
  CreateMLCEngine h m = Throws message ->
  llmRewrite h text (RewriteOptions (Some m) tpl) i tr
  = (Throws ("LLM initialization failed: " ++ message), i,
     tr ++ [Progress (at_stage "llm_init");
            LlmCreateMLCEngine m (the_lib i) (includes "f16" m)]
        ++ repeat (Progress (at_stage "llm_load_progress")) (load_reports h m)
        ++ [Progress (failed "llm_init_error" message)]).
Proof.
  intros Hc Hn Hi Hm Hl He.
  unfold llmRewrite. unfold bind at 1. unfold this at 1.
  cbn [rw_llmModel]. rewrite (or_default_some m _ Hm).
  unfold bind at 1. rewrite (initializeLLM_create h i m tr Hc Hn Hl), He.
  destruct i. cbn in Hi. subst. reflexivity.
Qed.

(** X21: an engine that cannot be created. When [CreateMLCEngine] rejects on
    a first initialization, [llmRewrite] reports llm_init_error with the
    error and throws an error whose message is that of the rejection after
    [LLM initialization failed: ]; no generation is attempted, and the
    instance is left as it was, with no engine and not initialized, so that
    the next call tries again. *)
Theorem engine_creation_failure
        (h : host) (i : instance) (m message : string) (text : jsstring)
        (tpl : option (jsstring -> jsstring)) (tr : list event) :
  WebLLMCreateEngine i = true ->
  chatModule i = None ->
  llmInitialized i = false ->
  m <> EmptyString ->
  lib_known i m = true ->
  CreateMLCEngine h m = Throws message ->
  llmRewrite h text (RewriteOptions (Some m) tpl) i tr
  = (Throws ("LLM initialization failed: " ++ message), i,
     tr ++ [Progress (at_stage "llm_init");
            LlmCreateMLCEngine m (the_lib i) (includes "f16" m)]
        ++ repeat (Progress (at_stage "llm_load_progress")) (load_reports h m)
        ++ [Progress (failed "llm_init_error" message)]).
Proof. apply llmRewrite_create_fails. Qed.

Lemma engine_creation_failure_witness :
  llmRewrite
    (Scenes.host_with (Returns tt) (Throws "out of memory") (Returns tt))
    (lit "Some text.") (RewriteOptions (Some DEFAULT_LLM_MODEL) None)
    Fixtures.fresh []
  = (Throws ("LLM initialization failed: " ++ "out of memory"), Fixtures.fresh,
     [] ++ [Progress (at_stage "llm_init");
            LlmCreateMLCEngine DEFAULT_LLM_MODEL (the_lib Fixtures.fresh)
                               (includes "f16" DEFAULT_LLM_MODEL)]
        ++ repeat (Progress (at_stage "llm_load_progress"))
                  (load_reports
                     (Scenes.host_with (Returns tt) (Throws "out of memory")
                                       (Returns tt))
                     DEFAULT_LLM_MODEL)
        ++ [Progress (failed "llm_init_error" "out of memory")]).
Proof.
  apply (engine_creation_failure
           (Scenes.host_with (Returns tt) (Throws "out of memory") (Returns tt))
           Fixtures.fresh DEFAULT_LLM_MODEL "out of memory" (lit "Some text.")
           None []);
    try reflexivity; intros H; discriminate H.
Defined.

(** X22: an engine call that resolves to nothing. When [CreateMLCEngine]
    resolves without an engine, the initialization still reports
    llm_init_complete and marks the instance initialized; [llmRewrite] then
    throws [LLM could not be initialized or is not ready.], with no
    generation attempted and no llm_init_error reported, and leaves the
    instance marked initialized without an engine. *)
Theorem engine_resolves_to_nothing
        (h : host) (i : instance) (m : string) (text : jsstring)
        (tpl : option (jsstring -> jsstring)) (tr : list event) :
  WebLLMCreateEngine i = true ->
  chatModule i = None ->
  m <> EmptyString ->
  lib_known i m = true ->
  CreateMLCEngine h m = Returns None ->
  llmRewrite h text (RewriteOptions (Some m) tpl) i tr
  = (Throws "LLM could not be initialized or is not ready.",
     set_llmInitialized true i,
     tr ++ [Progress (at_stage "llm_init");
            LlmCreateMLCEngine m (the_lib i) (includes "f16" m)]
        ++ repeat (Progress (at_stage "llm_load_progress")) (load_reports h m)
        ++ [Progress (at_stage "llm_init_complete")]).
Proof.
  intros Hc Hn Hm Hl He.
  unfold llmRewrite. unfold bind at 1. unfold this at 1.
  cbn [rw_llmModel]. rewrite (or_default_some m _ Hm).
  unfold bind at 1. rewrite (initializeLLM_create h i m tr Hc Hn Hl), He.
  unfold bind at 1. unfold this at 1.
  destruct i. cbn in Hn. subst. reflexivity.
Qed.

Lemma engine_resolves_to_nothing_witness :
  llmRewrite
    (Scenes.host_with (Returns tt) (Returns None) (Returns tt))
    (lit "Some text.") (RewriteOptions (Some DEFAULT_LLM_MODEL) None)
    Fixtures.fresh []
  = (Throws "LLM could not be initialized or is not ready.",
     set_llmInitialized true Fixtures.fresh,
     [] ++ [Progress (at_stage "llm_init");
            LlmCreateMLCEngine DEFAULT_LLM_MODEL (the_lib Fixtures.fresh)
                               (includes "f16" DEFAULT_LLM_MODEL)]
        ++ repeat (Progress (at_stage "llm_load_progress"))
                  (load_reports
                     (Scenes.host_with (Returns tt) (Returns None) (Returns tt))
                     DEFAULT_LLM_MODEL)
        ++ [Progress (at_stage "llm_init_complete")]).
Proof.
  apply (engine_resolves_to_nothing
           (Scenes.host_with (Returns tt) (Returns None) (Returns tt))
           Fixtures.fresh DEFAULT_LLM_MODEL (lit "Some text.") None []);
    try reflexivity; intros H; discriminate H.
Defined.

(** *** Generating *)


(** X23: a rewrite on a loaded engine. With the engine for the model
    loaded and its [chat.completions.create] a function, [llmRewrite] asks
    for no initialization and makes one completion call, for that model,
    with the prompt the template makes of the text (the built-in template
    when the call gives none). When the call resolves, the content of the
    reply is returned (the empty string when there is none); when it
    rejects, llm_generate_error is reported and the error thrown has the
    message of the rejection after [LLM generation failed: ]. Either way
    the engine stays loaded. *)
Theorem rewrite_on_a_loaded_engine
        (h : host) (i : instance) (m : string) (e : engine) (text : jsstring)
        (tpl : option (jsstring -> jsstring)) (tr : list event) :
  WebLLMCreateEngine i = true ->
  m <> EmptyString ->
  chat e = ChatCompletions true ->
  llmRewrite h text (RewriteOptions (Some m) tpl) (ready (with_modelId m e) i) tr
  = match completions_create h m (prompt_of tpl text) with
    | Returns chatCompletion =>
        (Returns (match chatCompletion with Some content => content | None => [] end),
         ready (with_modelId m e) i,
         tr ++ [Progress (at_stage "llm_ready");
                Progress (at_stage "llm_generate_start");
                LlmCompletionsCreate m (prompt_of tpl text);
                Progress (at_stage "llm_generate_complete")])
    | Throws message =>
        (Throws ("LLM generation failed: " ++ message),
         ready (with_modelId m e) i,
         tr ++ [Progress (at_stage "llm_ready");
                Progress (at_stage "llm_generate_start");
                LlmCompletionsCreate m (prompt_of tpl text);
                Progress (failed "llm_generate_error" message)])
    end.
Proof.
  intros Hc Hm Hchat.
  unfold llmRewrite. unfold bind at 1. unfold this at 1.
  cbn [rw_llmModel llmPromptTemplate]. rewrite (or_default_some m _ Hm).
  unfold bind at 1.
  rewrite (initializeLLM_ready h i m e tr Hc Hm).
  unfold bind at 1. unfold this at 1.
  change (llmInitialized (ready (with_modelId m e) i)) with true.
  change (chatModule (ready (with_modelId m e) i)) with (Some (with_modelId m e)).
  cbv iota. unfold generateReply.
  change (WebLLMCreateEngine (ready (with_modelId m e) i))
    with (WebLLMCreateEngine i).
  change (chat (with_modelId m e)) with (chat e).
  rewrite Hc, Hchat. unfold prompt_of. run_M.
  destruct tpl as [f|];
    match goal with
    | |- context [completions_create h ?a ?b] =>
        destruct (completions_create h a b) as [[content|]|message]
    end; rewrite <- !app_assoc; reflexivity.
Qed.

Lemma rewrite_on_a_loaded_engine_witness :
  llmRewrite Scenes.good_host (lit "Some text.")
             (RewriteOptions (Some DEFAULT_LLM_MODEL) None)
             (ready (with_modelId DEFAULT_LLM_MODEL Fixtures.mlc_engine) Fixtures.fresh)
             []
  = match completions_create Scenes.good_host DEFAULT_LLM_MODEL
                             (prompt_of None (lit "Some text.")) with
    | Returns chatCompletion =>
        (Returns (match chatCompletion with Some content => content | None => [] end),
         ready (with_modelId DEFAULT_LLM_MODEL Fixtures.mlc_engine) Fixtures.fresh,
         [] ++ [Progress (at_stage "llm_ready");
                Progress (at_stage "llm_generate_start");
                LlmCompletionsCreate DEFAULT_LLM_MODEL
                                     (prompt_of None (lit "Some text."));
                Progress (at_stage "llm_generate_complete")])
    | Throws message =>
        (Throws ("LLM generation failed: " ++ message),
         ready (with_modelId DEFAULT_LLM_MODEL Fixtures.mlc_engine) Fixtures.fresh,
         [] ++ [Progress (at_stage "llm_ready");
                Progress (at_stage "llm_generate_start");
                LlmCompletionsCreate DEFAULT_LLM_MODEL
                                     (prompt_of None (lit "Some text."));
                Progress (failed "llm_generate_error" message)])
    end.
Proof.
  apply (rewrite_on_a_loaded_engine Scenes.good_host Fixtures.fresh
           DEFAULT_LLM_MODEL Fixtures.mlc_engine (lit "Some text.") None []);
    try reflexivity; intros H; discriminate H.
Defined.

Lemma initializeLLM_chat (h : host) (i : instance) (m : string)
      (tr : list event) :
  WebLLMCreateEngine i = false ->
  WebLLMChatConstructor i = true ->
  chatModule i = None ->
  reload_is_function (newChat h) = true ->
  reload h m = Returns tt ->
  _initializeLLM h m i tr
  = (Returns tt, ready (with_modelId m (newChat h)) i,
     tr ++ [Progress (at_stage "llm_init"); LlmNewChat; LlmReload m]
        ++ repeat (Progress (at_stage "llm_load_progress")) (load_reports h m)
        ++ [Progress (at_stage "llm_init_complete")]).
Proof.
  intros Hc Hch Hn Hr Hrel.
  unfold _initializeLLM, await_loading. run_M.
  rewrite Hc, Hch, Hn. simpl. rewrite ?andb_false_r. simpl.
  rewrite ?Hc, ?Hch. simpl.
  rewrite Hr. simpl. rewrite loadProgress_trace, Hrel. run_M.
  rewrite <- !app_assoc. destruct i. cbn in *. subst. reflexivity.
Qed.

(** X24: the Chat path. On an instance that found the Chat constructor
    and not CreateMLCEngine, a first [llmRewrite] constructs a Chat,
    reloads it for the model and generates with [generate]: for any model,
    without a model library being asked for. It returns the reply and
    leaves the Chat loaded under that model. *)
Theorem chat_fallback_path
        (h : host) (i : instance) (m : string) (text reply : jsstring)
        (tpl : option (jsstring -> jsstring)) (tr : list event) :
  WebLLMCreateEngine i = false ->
  WebLLMChatConstructor i = true ->
  chatModule i = None ->
  m <> EmptyString ->
  reload_is_function (newChat h) = true ->
  generate_is_function (newChat h) = true ->
  reload h m = Returns tt ->
  generate h (prompt_of tpl text) = Returns reply ->
  llmRewrite h text (RewriteOptions (Some m) tpl) i tr
  = (Returns reply, ready (with_modelId m (newChat h)) i,
     tr ++ [Progress (at_stage "llm_init"); LlmNewChat; LlmReload m]
        ++ repeat (Progress (at_stage "llm_load_progress")) (load_reports h m)
        ++ [Progress (at_stage "llm_init_complete");
            Progress (at_stage "llm_generate_start");
            LlmGenerate (prompt_of tpl text);
            Progress (at_stage "llm_generate_complete")]).
Proof.
  intros Hc Hch Hn Hm Hr Hg Hrel Hgen.
  unfold llmRewrite. unfold bind at 1. unfold this at 1.
  cbn [rw_llmModel llmPromptTemplate]. rewrite (or_default_some m _ Hm).
  unfold bind at 1.
  rewrite (initializeLLM_chat h i m tr Hc Hch Hn Hr Hrel).
  unfold bind at 1. unfold this at 1.
  change (llmInitialized (ready (with_modelId m (newChat h)) i)) with true.
  change (chatModule (ready (with_modelId m (newChat h)) i))
    with (Some (with_modelId m (newChat h))).
  cbv iota. unfold generateReply, viaGenerate.
  change (WebLLMCreateEngine (ready (with_modelId m (newChat h)) i))
    with (WebLLMCreateEngine i).
  change (generate_is_function (with_modelId m (newChat h)))
    with (generate_is_function (newChat h)).
  rewrite Hc, Hg. unfold prompt_of in *. run_M.
  destruct tpl as [f|]; rewrite Hgen; repeat (rewrite <- app_assoc; simpl);
    reflexivity.
Qed.

Lemma chat_fallback_path_witness :
  llmRewrite Scenes.good_host (lit "Some text.")
             (RewriteOptions (Some Fixtures.other_model) None)
             (constructor Scenes.chat_only Fixtures.no_options) []
  = (Returns (lit "Rewritten."),
     ready (with_modelId Fixtures.other_model (newChat Scenes.good_host))
           (constructor Scenes.chat_only Fixtures.no_options),
     [] ++ [Progress (at_stage "llm_init"); LlmNewChat;
            LlmReload Fixtures.other_model]
        ++ repeat (Progress (at_stage "llm_load_progress"))
                  (load_reports Scenes.good_host Fixtures.other_model)
        ++ [Progress (at_stage "llm_init_complete");
            Progress (at_stage "llm_generate_start");
            LlmGenerate (prompt_of None (lit "Some text."));
            Progress (at_stage "llm_generate_complete")]).
Proof.
  apply (chat_fallback_path Scenes.good_host
           (constructor Scenes.chat_only Fixtures.no_options)
           Fixtures.other_model (lit "Some text.") (lit "Rewritten.") None []);
    try reflexivity; intros H; discriminate H.
Defined.

(** *** What the engine methods never touch *)


Lemma no_document_call_load (n : nat) :
  existsb is_document_call (repeat (Progress (at_stage "llm_load_progress")) n)
  = false.
Proof. induction n as [|n IH]; [reflexivity | exact IH]. Qed.

Lemma same_configuration_refl (i : instance) : same_configuration i i.
Proof. repeat split. Qed.

Ltac frame_done :=
  do 3 eexists; repeat (rewrite <- app_assoc; simpl);
  (split; [reflexivity|]);
  (split; [simpl; rewrite ?existsb_app, ?no_document_call_load; reflexivity
          | repeat split]).

Lemma initializeLLM_frame (h : host) (m : string) (i : instance)
      (tr : list event) :
  exists o i' evs,
    _initializeLLM h m i tr = (o, i', tr ++ evs)
    /\ existsb is_document_call evs = false
    /\ same_configuration i i'.
Proof.
  unfold _initializeLLM, await_loading, modelLibToUse. run_M.
  destruct (negb (WebLLMCreateEngine i) && negb (WebLLMChatConstructor i)).
  { exists (Throws webllm_missing), i, []. rewrite app_nil_r. repeat split. }
  destruct (llmInitialized i
            && match chatModule i with Some _ => true | None => false end
            && same_model (currentModelId i) m).
  { frame_done. }
  destruct (chatModule i) as [e|]; [destruct (unload_is_function e);
                                    [destruct (unload h) as [[]|mu]|]|];
    simpl; try solve [frame_done];
    (destruct (WebLLMCreateEngine i);
     [ destruct (llmModelLibUrl i) as [[|c u]|];
       try destruct (String.eqb m DEFAULT_LLM_MODEL);
       simpl; rewrite ?loadProgress_trace;
       try destruct (CreateMLCEngine h m) as [ce|mc]; simpl;
       frame_done
     | destruct (WebLLMChatConstructor i); simpl;
       [ destruct (reload_is_function (newChat h)); simpl;
         rewrite ?loadProgress_trace;
         try destruct (reload h m) as [[]|mr]; simpl; frame_done
       | frame_done ] ]).
Qed.

Lemma generateReply_frame (h : host) (i j : instance) (e : engine)
      (model : string) (prompt : jsstring) (tr : list event) :
  exists o evs,
    generateReply h j e model prompt i tr = (o, i, tr ++ evs)
    /\ existsb is_document_call evs = false.
Proof.
  unfold generateReply, viaGenerate. run_M.
  destruct (WebLLMCreateEngine j); [destruct (chat e) as [| |[|]]|];
    try destruct (generate_is_function e);
    try destruct (generate h prompt);
    try destruct (completions_create h model prompt);
    simpl; do 2 eexists; repeat (rewrite <- app_assoc; simpl);
    try (split; reflexivity);
    (exists (@nil event) || idtac).
  all: try (instantiate (1 := []); rewrite app_nil_r; split; reflexivity).
Qed.

Lemma llmRewrite_frame
      (h : host) (text : jsstring) (rw : LLMRewriteOptions)
      (i : instance) (tr : list event) :
  exists o i' evs,
    llmRewrite h text rw i tr = (o, i', tr ++ evs)
    /\ existsb is_document_call evs = false
    /\ same_configuration i i'.
Proof.
  unfold llmRewrite. unfold bind at 1. unfold this at 1.
  unfold bind at 1.
  destruct (initializeLLM_frame h (or_default (rw_llmModel rw) (llmModel i)) i tr)
    as (o0 & i' & evs0 & E & D & S).
  rewrite E. destruct o0 as [[]|msg0].
  2:{ exists (Throws msg0), i', evs0. auto. }
  unfold bind at 1. unfold this at 1.
  destruct (llmInitialized i'); [destruct (chatModule i') as [e|]|].
  + unfold bind at 1. unfold progressCallback at 1, emit at 1.
    unfold try_catch.
    match goal with
    | |- context [generateReply h ?j ?e0 ?mo ?p ?i0 ?t0] =>
        destruct (generateReply_frame h i0 j e0 mo p t0) as (o & evs & G & Gd)
    end.
    rewrite G. destruct o as [a|msg]; run_M;
      do 3 eexists; repeat (rewrite <- app_assoc; simpl);
      (split; [reflexivity|]); (split; [|exact S]);
      rewrite !existsb_app, D; simpl; rewrite ?existsb_app, Gd; reflexivity.
  + exists (Throws "LLM could not be initialized or is not ready."), i', evs0.
    auto.
  + exists (Throws "LLM could not be initialized or is not ready."), i', evs0.
    auto.
Qed.

Lemma unloadLLM_frame (h : host) (i : instance) (tr : list event) :
  exists o i' evs,
    unloadLLM h i tr = (o, i', tr ++ evs)
    /\ existsb is_document_call evs = false
    /\ same_configuration i i'.
Proof.
  unfold unloadLLM. run_M.
  destruct (chatModule i) as [e|].
  + destruct (unload_is_function e); [destruct (unload h) as [[]|mu]|];
      run_M; repeat (rewrite <- app_assoc; simpl); do 3 eexists;
      (split; [reflexivity|]); split; first [reflexivity | repeat split].
  + exists (Returns tt), i, []. rewrite app_nil_r. repeat split.
Qed.

(** X25: what the engine methods never touch. Whatever the arguments and
    the answers of WebLLM are, [llmRewrite] and [unloadLLM] only add to the
    trace, read no file, call neither pdf.js nor Tesseract, and change
    nothing of the instance but the engine it holds and its initialized
    flag: the rules, the languages, the model names and the constructors
    found stay as the constructor set them. *)
Theorem the_engine_methods_keep_the_configuration
        (h : host) (text : jsstring) (rw : LLMRewriteOptions)
        (i : instance) (tr : list event) :
  (exists o i' evs,
     llmRewrite h text rw i tr = (o, i', tr ++ evs)
     /\ existsb is_document_call evs = false
     /\ same_configuration i i')
  /\ (exists o i' evs,
        unloadLLM h i tr = (o, i', tr ++ evs)
        /\ existsb is_document_call evs = false
        /\ same_configuration i i').
Proof. split; [apply llmRewrite_frame | apply unloadLLM_frame]. Qed.

End EngineEdges.

(* ================================================================== *)
(** ** The lifecycle of the generative engine *)

Section Lifecycle.

Local Open Scope string_scope.
Local Open Scope list_scope.
Local Arguments includes : simpl never.

Ltac run_M :=
  unfold bind, await, emit, progressCallback, ret, throw, this, assign,
         try_catch in *; simpl in *.









(** The same three calls where CreateMLCEngine was found and the
    [llmModelLibUrl] option names the library: one creation for the first
    two calls, then the unload and the creation for the other model. *)
Example lifecycle_with_model_lib :
  let '(_, i1, tr1) :=
    llmRewrite Fixtures.page_host (lit "first") (RewriteOptions None None)
               Fixtures.configured [] in
  let '(_, i2, tr2) :=
    llmRewrite Fixtures.page_host (lit "second") (RewriteOptions None None)
               i1 tr1 in
  let '(_, _, tr3) :=
    llmRewrite Fixtures.page_host (lit "third")
               (RewriteOptions (Some Fixtures.other_model) None) i2 tr2 in
  init_calls tr2 = 1%nat
  /\ firstn 3 (skipn (List.length tr2) tr3)
     = [ Progress (at_stage "llm_init"); LlmUnload;
         LlmCreateMLCEngine Fixtures.other_model
                            "https://example.org/model-webgpu.wasm" true ]
  /\ init_calls (skipn (List.length tr2) tr3) = 1%nat.
Proof. vm_compute. repeat split. Qed.

(** When the unload of the loaded engine rejects, the call for another
    model throws that error as it is: the rejection happens before the
    [try] of [_initializeLLM], nothing is initialized, and the instance
    still holds the engine of the first model, marked initialized. *)
Lemma switch_with_rejected_unload
      (h : host) (i : instance) (m m' : string) (e : engine)
      (text : jsstring) (tpl : option (jsstring -> jsstring))
      (tr : list event) (message : string) :
  WebLLMCreateEngine i || WebLLMChatConstructor i = true ->
  m <> EmptyString -> m' <> EmptyString -> m <> m' ->
  unload_is_function e = true ->
  unload h = Throws message ->
  llmRewrite h text (RewriteOptions (Some m') tpl) (ready (with_modelId m e) i) tr
  = (Throws message, ready (with_modelId m e) i,
     tr ++ [Progress (at_stage "llm_init"); LlmUnload]).
Proof.
  intros Hf Hm Hm' Hne Hu Hun.
  assert (I : _initializeLLM h m' (ready (with_modelId m e) i) tr
              = (Throws message, ready (with_modelId m e) i,
                 tr ++ [Progress (at_stage "llm_init"); LlmUnload])).
  { unfold _initializeLLM. run_M.
    destruct (WebLLMCreateEngine i), (WebLLMChatConstructor i);
      try discriminate Hf; simpl;
      unfold currentModelId; simpl;
      (destruct m as [|c m0]; [contradiction|]);
      apply String.eqb_neq in Hne; unfold same_model; rewrite Hne; simpl;
      rewrite Hu, Hun; simpl; rewrite <- app_assoc; reflexivity. }
  destruct (llmRewrite_after_init h _ _ m' text tpl _ _ _ Hm' I)
    as (o & evs & R & _ & T).
  destruct (T message eq_refl) as (-> & ->).
  rewrite app_nil_r in R. exact R.
Qed.

End Lifecycle.

(* ================================================================== *)
(** ** The page and its converter *)

Section ClientPage.

Import Client.

Local Open Scope string_scope.
Local Open Scope list_scope.

Local Arguments _convertToMarkdownLogic : simpl never.
Local Arguments tidy_newlines : simpl never.
Local Arguments _postProcessText : simpl never.
Local Arguments includes : simpl never.

(** *** The name of the download *)


Lemma lastIndexOf_none (s : jsstring) :
  has_dot s = false -> lastIndexOf 46 s = None.
Proof.
  induction s as [|x s IH]; [reflexivity|]. cbn [has_dot existsb]. intros H.
  apply orb_false_elim in H. destruct H as [H1 H2].
  cbn [lastIndexOf]. rewrite (IH H2), H1. reflexivity.
Qed.

Lemma lastIndexOf_last (s ext : jsstring) :
  has_dot ext = false ->
  lastIndexOf 46 (s ++ 46 :: ext) = Some (List.length s).
Proof.
  intros H. induction s as [|x s IH].
  - cbn [app lastIndexOf]. rewrite (lastIndexOf_none ext H). reflexivity.
  - cbn [app lastIndexOf List.length]. rewrite IH. reflexivity.
Qed.

Lemma firstn_exact (a b : jsstring) : firstn (List.length a) (a ++ b) = a.
Proof. induction a as [|x a IH]; [reflexivity|]. cbn. rewrite IH. reflexivity. Qed.

(** X26: the name of the download. For a file whose name has a dot, the
    stored name is what comes before the last dot, and [converted] when
    nothing comes before it; for a name without a dot it is [converted];
    it is never empty. Picking a file clears the Markdown shown, so that a
    download at once only alerts; and once there is Markdown, the download
    has that content under the stored name followed by [.md]. *)
Theorem download_name_is_the_stem (s ext plainName : jsstring) (f : File)
        (p : page) :
  has_dot ext = false ->
  has_dot plainName = false ->
  stem (s ++ 46 :: ext) = (if is_empty s then lit "converted" else s)
  /\ stem plainName = lit "converted"
  /\ (forall n, stem n <> [])
  /\ originalFileName (handleFileChange [Upload (s ++ 46 :: ext) f] p)
     = (if is_empty s then lit "converted" else s)
  /\ markdownOutput (handleFileChange [Upload (s ++ 46 :: ext) f] p) = []
  /\ handleDownloadMarkdown (handleFileChange [Upload (s ++ 46 :: ext) f] p)
     = [Alert "No Markdown content to download."]
  /\ (forall c t,
        handleDownloadMarkdown
          (setMarkdownOutput (c :: t)
             (handleFileChange [Upload (s ++ 46 :: ext) f] p))
        = [Download ((if is_empty s then lit "converted" else s) ++ lit ".md")
                    (c :: t)]).
Proof.
  intros He Hn.
  assert (S1 : stem (s ++ 46 :: ext) = (if is_empty s then lit "converted" else s)).
  { unfold stem. rewrite (lastIndexOf_last s ext He). unfold substring0.
    rewrite firstn_exact. destruct s; reflexivity. }
  split; [exact S1|]. split.
  { unfold stem. rewrite (lastIndexOf_none plainName Hn). reflexivity. }
  split.
  { intros n. unfold stem. destruct (substring0 n (lastIndexOf 46 n)); discriminate. }
  split; [cbn; exact S1|]. split; [reflexivity|]. split; [reflexivity|].
  intros c t. cbn. unfold handleDownloadMarkdown. cbn. rewrite S1. reflexivity.
Qed.

Lemma download_name_is_the_stem_witness :
  stem (lit "report.final" ++ 46 :: lit "pdf")
    = (if is_empty (lit "report.final") then lit "converted" else lit "report.final")
  /\ stem (lit "README") = lit "converted"
  /\ (forall n, stem n <> [])
  /\ originalFileName
       (handleFileChange
          [Upload (lit "report.final" ++ 46 :: lit "pdf") Fixtures.some_file]
          Scenes.ready_page)
     = (if is_empty (lit "report.final") then lit "converted" else lit "report.final")
  /\ markdownOutput
       (handleFileChange
          [Upload (lit "report.final" ++ 46 :: lit "pdf") Fixtures.some_file]
          Scenes.ready_page) = []
  /\ handleDownloadMarkdown
       (handleFileChange
          [Upload (lit "report.final" ++ 46 :: lit "pdf") Fixtures.some_file]
          Scenes.ready_page)
     = [Alert "No Markdown content to download."]
  /\ (forall c t,
        handleDownloadMarkdown
          (setMarkdownOutput (c :: t)
             (handleFileChange
                [Upload (lit "report.final" ++ 46 :: lit "pdf") Fixtures.some_file]
                Scenes.ready_page))
        = [Download ((if is_empty (lit "report.final") then lit "converted"
                      else lit "report.final") ++ lit ".md")
                    (c :: t)]).
Proof.
  apply (download_name_is_the_stem (lit "report.final") (lit "pdf") (lit "README")
           Fixtures.some_file Scenes.ready_page);
    reflexivity.
Defined.

(** *** Processing a file *)


Lemma reported_progress (evs : list event) (p : page) :
  reported evs p = setProgressMessage (progressMessage (reported evs p)) p.
Proof.
  revert p. induction evs as [|e evs IH]; intros p.
  - destruct p. reflexivity.
  - destruct e; cbn [reported]; try apply IH.
    rewrite IH. destruct p. reflexivity.
Qed.

Lemma after_call_fields (c : instance) (before now : list event) (p : page) :
  after_call c before now p
  = setProgressMessage (progressMessage (after_call c before now p))
                       (setConverter c p).
Proof. unfold after_call. apply reported_progress. Qed.

Ltac page_fields :=
  repeat match goal with
         | |- context [after_call ?c ?a ?b ?p] =>
             rewrite (after_call_fields c a b p);
             generalize (progressMessage (after_call c a b p)); intro
         end.


(** X28: a failed OCR is shown and nothing else is tried. When
    [highAccuracyConvert] rejects, [handleProcessPdf] makes no call into
    WebLLM at all (no rewrite, no unload), leaves the converter as it was,
    shows the error's message after [An error occurred: ] as the output
    and after [An error occurred. Details: ] as the static message, and
    ends with [isProcessing] false and no timer. *)
Theorem ocr_failure_is_shown
        (h : host) (p : page) (tr : list event) (pdf : upload) (c : instance)
        (message : string) :
  pdfFile p = Some pdf ->
  converterRef p = Some c ->
  converterInitialized p = true ->
  fst (fst (highAccuracyConvert h (JFile (file pdf))
              (OcrOptions None (Some (ocrLanguage p)) None) c tr))
    = Throws message ->
  exists p' evs,
    handleProcessPdf h p tr = (p', tr ++ evs, [])
    /\ existsb is_llm_call evs = false
    /\ converterRef p' = Some c
    /\ markdownOutput p' = lit ("An error occurred: " ++ message)
    /\ progressMessage p' = Text "Error during processing."
    /\ staticProgressMessage p'
       = Text ("An error occurred. Details: " ++ message)
    /\ isProcessing p' = false.
Proof.
  intros Ef Ec Ei Ho. unfold handleProcessPdf. rewrite Ef, Ec, Ei.
  destruct (highAccuracyConvert_frame h (JFile (file pdf))
              (OcrOptions None (Some (ocrLanguage p)) None) c tr)
    as (o & evs & E & L & _).
  rewrite E in *. cbn [fst] in Ho. subst o.
  do 2 eexists. split; [reflexivity|]. split; [exact L|].
  page_fields. repeat split.
Qed.

Lemma ocr_failure_is_shown_witness :
  exists p' evs,
    handleProcessPdf Fixtures.page_host Scenes.ready_page [] = (p', [] ++ evs, [])
    /\ existsb is_llm_call evs = false
    /\ converterRef p' = Some (constructor Fixtures.bundled page_options)
    /\ markdownOutput p' = lit ("An error occurred: " ++ "render failed")
    /\ progressMessage p' = Text "Error during processing."
    /\ staticProgressMessage p'
       = Text ("An error occurred. Details: " ++ "render failed")
    /\ isProcessing p' = false.
Proof.
  apply (ocr_failure_is_shown Fixtures.page_host Scenes.ready_page []
           (Upload (lit "report.final.pdf") Fixtures.some_file)
           (constructor Fixtures.bundled page_options) "render failed");
    reflexivity.
Defined.

Lemma has_LF_heading (t : jsstring) :
  has_LF t = false ->
  has_LF (if is_empty t then []
          else if isHeading t [] then lit "# " ++ t else t) = false.
Proof.
  intros H. destruct (is_empty t); [reflexivity|].
  destruct (isHeading t []); [|exact H].
  rewrite has_LF_app, H. reflexivity.
Qed.

(** X29: when the engine cannot be created, the page falls back to the OCR
    text. With the page's own converter, whose constructor found
    CreateMLCEngine, an OCR conversion in which nothing fails and a
    [CreateMLCEngine] that rejects, [handleProcessPdf] shows the Markdown
    of the OCR text, which is a single line (the page sets no rule of its
    own); the creation of the engine is tried once, for the default model
    with its built-in library; nothing is unloaded, since no engine is
    held; the converter is left as it was, the timer is started and
    [isProcessing] is false. *)
Theorem engine_failure_falls_back_to_the_ocr_text
        (h : host) (w : webllm_probe) (p : page) (tr : list event)
        (pdf : upload) (buf : list Z) (doc : list pdf_page) (message : string) :
  let converter := constructor w page_options in
  let lang := or_default (Some (ocrLanguage p)) "eng" in
  let markdown :=
    _convertToMarkdownLogic
      (tidy_newlines
         (_postProcessText (construct_text (Some false) None)
                           (flat_map ocr_chunk doc) [])) in
  pdfFile p = Some pdf ->
  converterRef p = Some converter ->
  converterInitialized p = true ->
  module_CreateMLCEngine w = true ->
  pdfjs_loaded h = true ->
  Tesseract_loaded h = true ->
  createWorker h lang = Returns tt ->
  arrayBuffer (file pdf) = Returns buf ->
  getDocument h buf = Returns doc ->
  forallb ocr_page_ok doc = true ->
  terminate h = Returns tt ->
  CreateMLCEngine h DEFAULT_LLM_MODEL = Throws message ->
  exists p',
    handleProcessPdf h p tr
    = (p',
       tr ++ [Progress (at_stage "start_ocr");
              Progress (at_stage "ocr_worker_init");
              TessCreateWorker lang; FileArrayBuffer; PdfGetDocument]
          ++ ocr_events (5 # 2) (List.length doc) 1 doc
          ++ [Progress (at_stage "ocr_terminate_worker"); TessTerminate;
              Progress (at_stage "postprocess_ocr");
              Progress (at_stage "markdown_ocr");
              Progress (at_stage "complete_ocr")]
          ++ [Progress (at_stage "llm_init");
              LlmCreateMLCEngine DEFAULT_LLM_MODEL DEFAULT_LLM_MODEL_LIB_URL true]
          ++ repeat (Progress (at_stage "llm_load_progress"))
                    (load_reports h DEFAULT_LLM_MODEL)
          ++ [Progress (failed "llm_init_error" message)],
       [SetTimeout 2000])
    /\ markdownOutput p' = markdown
    /\ has_LF markdown = false
    /\ converterRef p' = Some converter
    /\ progressMessage p' = Text "Processing complete! LLM resources released."
    /\ isProcessing p' = false.
Proof.
  intros converter lang markdown Ef Ec Ei Hw Hp Ht Hcw Hb Hd Hok Hterm Hce.
  assert (Wc : WebLLMCreateEngine converter = true).
  { unfold converter, constructor. cbn. rewrite Hw. reflexivity. }
  assert (Cn : chatModule converter = None) by reflexivity.
  assert (Ci : llmInitialized converter = false) by reflexivity.
  assert (Cl : lib_known converter DEFAULT_LLM_MODEL = true) by reflexivity.
  assert (Cm : DEFAULT_LLM_MODEL <> EmptyString) by discriminate.
  unfold handleProcessPdf. rewrite Ef, Ec, Ei.
  rewrite (highAccuracyConvert_run h (file pdf)
             (OcrOptions None (Some (ocrLanguage p)) None) converter tr buf doc
             Hp Ht Hcw Hb Hd Hok Hterm).
  cbn [ocr_postProcessRules rules_or_none ocr_tesseractLanguage pdfRenderScale
       renderScale].
  change (tesseractLanguage converter) with "eng". fold lang.
  change (text_cfg converter) with (construct_text (Some false) None).
  fold markdown.
  rewrite (llmRewrite_create_fails h converter DEFAULT_LLM_MODEL message
             markdown None _ Wc Cn Ci Cm Cl Hce).
  change (the_lib converter) with DEFAULT_LLM_MODEL_LIB_URL.
  change (includes "f16" DEFAULT_LLM_MODEL) with true.
  pose proof (unloadLLM_effect h converter) as U. rewrite Cn in U. rewrite U.
  eexists. split.
  - rewrite <- !app_assoc. reflexivity.
  - page_fields. split; [reflexivity|]. split.
    + unfold markdown.
      destruct (default_pipeline (Some false) (flat_map ocr_chunk doc))
        as (L & _ & _ & ->).
      apply has_LF_heading, L.
    + repeat split.
Qed.

Lemma engine_failure_falls_back_to_the_ocr_text_witness :
  let h := Scenes.host_with (Returns tt) (Throws "out of memory") (Returns tt) in
  let converter := constructor Fixtures.bundled page_options in
  let lang := or_default (Some (ocrLanguage Scenes.ready_page)) "eng" in
  let markdown :=
    _convertToMarkdownLogic
      (tidy_newlines
         (_postProcessText (construct_text (Some false) None)
                           (flat_map ocr_chunk Scenes.two_pages) [])) in
  exists p',
    handleProcessPdf h Scenes.ready_page []
    = (p',
       [] ++ [Progress (at_stage "start_ocr");
              Progress (at_stage "ocr_worker_init");
              TessCreateWorker lang; FileArrayBuffer; PdfGetDocument]
          ++ ocr_events (5 # 2) (List.length Scenes.two_pages) 1 Scenes.two_pages
          ++ [Progress (at_stage "ocr_terminate_worker"); TessTerminate;
              Progress (at_stage "postprocess_ocr");
              Progress (at_stage "markdown_ocr");
              Progress (at_stage "complete_ocr")]
          ++ [Progress (at_stage "llm_init");
              LlmCreateMLCEngine DEFAULT_LLM_MODEL DEFAULT_LLM_MODEL_LIB_URL true]
          ++ repeat (Progress (at_stage "llm_load_progress"))
                    (load_reports h DEFAULT_LLM_MODEL)
          ++ [Progress (failed "llm_init_error" "out of memory")],
       [SetTimeout 2000])
    /\ markdownOutput p' = markdown
    /\ has_LF markdown = false
    /\ converterRef p' = Some converter
    /\ progressMessage p' = Text "Processing complete! LLM resources released."
    /\ isProcessing p' = false.
Proof.
  apply (engine_failure_falls_back_to_the_ocr_text
           (Scenes.host_with (Returns tt) (Throws "out of memory") (Returns tt))
           Fixtures.bundled Scenes.ready_page []
           (Upload (lit "report.final.pdf") Fixtures.some_file)
           [37; 80; 68; 70] Scenes.two_pages "out of memory");
    reflexivity.
Defined.

(** X30: a failed unload hides the result. When the OCR conversion and the
    rewrite both succeeded and the [unload] of the engine then rejects,
    [handleProcessPdf] ends in its error branch: the output shown is the
    error's message after [An error occurred: ] and not the rewritten
    Markdown, the engine is still held by the converter, no timer is
    started and [isProcessing] is false. *)
Theorem unload_failure_hides_the_result
        (h : host) (p : page) (tr tr1 tr2 : list event) (pdf : upload)
        (c c2 : instance) (e : engine) (text finalMarkdown : jsstring)
        (message : string) :
  pdfFile p = Some pdf ->
  converterRef p = Some c ->
  converterInitialized p = true ->
  highAccuracyConvert h (JFile (file pdf))
    (OcrOptions None (Some (ocrLanguage p)) None) c tr
    = (Returns text, c, tr1) ->
  llmRewrite h text (RewriteOptions (Some DEFAULT_LLM_MODEL) None) c tr1
    = (Returns finalMarkdown, c2, tr2) ->
  chatModule c2 = Some e ->
  unload_is_function e = true ->
  unload h = Throws message ->
  exists p',
    handleProcessPdf h p tr
      = (p', tr2 ++ [Progress (at_stage "llm_unload"); LlmUnload], [])
    /\ markdownOutput p' = lit ("An error occurred: " ++ message)
    /\ converterRef p' = Some c2
    /\ progressMessage p' = Text "Error during processing."
    /\ isProcessing p' = false.
Proof.
  intros Ef Ec Ei Ho Hr Hch Hu Hun. unfold handleProcessPdf.
  rewrite Ef, Ec, Ei, Ho, Hr.
  assert (U : unloadLLM h c2 tr2
              = (Throws message, c2,
                 tr2 ++ [Progress (at_stage "llm_unload"); LlmUnload])).
  { unfold unloadLLM, bind, this, progressCallback, emit, await, assign.
    rewrite Hch, Hu, Hun. rewrite <- app_assoc. reflexivity. }
  rewrite U. eexists. split; [reflexivity|].
  page_fields. repeat split.
Qed.

Lemma unload_failure_hides_the_result_witness :
  exists p',
    handleProcessPdf Scenes.unload_fails Scenes.ready_page []
      = (p', Scenes.rewrite_trace ++ [Progress (at_stage "llm_unload"); LlmUnload],
         [])
    /\ markdownOutput p' = lit ("An error occurred: " ++ "device lost")
    /\ converterRef p' = Some Scenes.rewrite_instance
    /\ progressMessage p' = Text "Error during processing."
    /\ isProcessing p' = false.
Proof.
  apply (unload_failure_hides_the_result Scenes.unload_fails Scenes.ready_page
           [] Scenes.ocr_trace Scenes.rewrite_trace
           (Upload (lit "report.final.pdf") Fixtures.some_file)
           (constructor Fixtures.bundled page_options) Scenes.rewrite_instance
           (with_modelId DEFAULT_LLM_MODEL Fixtures.mlc_engine)
           Scenes.ocr_markdown (lit "Rewritten.") "device lost");
    reflexivity.
Defined.

End ClientPage.
